(** * starfield-data: the normalizer (restructure.py) and the loader (create_db.py)

    A shallow embedding of the two batch stages of the repository and the
    properties of its specification that are about them, and of the
    interactive editor (planet_search_update.py).

    Conventions of the embedding.
    - A Python [str] is a [string] of 8-bit characters; the string methods
      ([lower], [split], [join], [replace], [strip], [in]) are written out on
      ASCII, which is what the data files hold.
    - A Python [float] is the exact rational it denotes, kept in lowest terms,
      or one of [inf], [-inf], [nan]; the rounding of binary64 is left out.
    - Exceptions are values of [exn]; code that can raise returns a [result];
      code that also prints threads the printed lines ([M]).
    - A Python [dict] used as a map is a [gmap]. *)

From Stdlib Require Import QArith.
From stdpp Require Import gmap strings list.
From Stdlib Require Import Ascii Sorting.Sorted Sorting.Permutation.

Local Open Scope Z_scope.
Set Warnings "-register-all".

(** ** Python builtins used by the two scripts *)

Module Py.

Inductive exn :=
| ValueError | TypeError | AttributeError | KeyError | OverflowError
| IndexError | IntegrityError.

Inductive result (A : Type) :=
| Ok (a : A)
| Raise (e : exn).
Arguments Ok {A} a.
Arguments Raise {A} e.

Definition is_ok {A} (r : result A) : bool :=
  match r with Ok _ => true | Raise _ => false end.

(** The exit status of the interpreter: an uncaught exception ends the
    process with status 1. *)
Definition exit_status {A} (r : result A) : Z :=
  match r with Ok _ => 0 | Raise _ => 1 end.

(** A float: exact value in lowest terms, or a special value. *)
Inductive float :=
| Fin (q : Q)
| Inf
| NegInf
| NaN.

Definition float_of_Z (z : Z) : float := Fin (z # 1).

(** [x / y] for a finite non-zero constant divisor [y] (the code only divides
    by [100.0]). *)
Definition float_div_const (x : float) (y : Q) : float :=
  match x with
  | Fin q => Fin (Qred (q / y))
  | Inf => if Qle_bool 0 y then Inf else NegInf
  | NegInf => if Qle_bool 0 y then NegInf else Inf
  | NaN => NaN
  end.

(** A JSON value as [json.load] returns it. *)
Inductive json :=
| JNull
| JBool (b : bool)
| JInt (z : Z)
| JFloat (f : float)
| JStr (s : string)
| JArr (l : list json)
| JObj (l : list (string * json)).

(** *** Characters and strings *)

Definition code (c : ascii) : N := N_of_ascii c.

Definition is_upper (c : ascii) : bool := (65 <=? code c)%N && (code c <=? 90)%N.
Definition is_digit (c : ascii) : bool := (48 <=? code c)%N && (code c <=? 57)%N.

(** [str.isspace] on ASCII: tab, newline, vertical tab, form feed, carriage
    return, the four separators 28..31 and the space. *)
Definition is_space (c : ascii) : bool :=
  ((9 <=? code c)%N && (code c <=? 13)%N)
  || ((28 <=? code c)%N && (code c <=? 32)%N).

Definition lower_char (c : ascii) : ascii :=
  if is_upper c then ascii_of_N (code c + 32) else c.

(** [s.lower()] for a text of ASCII characters: the capital letters A to Z go
    to a to z and every other character stays. The texts here are ASCII
    texts; on other texts [str.lower] also changes letters outside ASCII,
    and can change the length. *)
Fixpoint lower (s : string) : string :=
  match s with
  | EmptyString => EmptyString
  | String c s' => String (lower_char c) (lower s')
  end.

(** [c in s] for a one-character [c] *)
Fixpoint contains (c : ascii) (s : string) : bool :=
  match s with
  | EmptyString => false
  | String a s' => Ascii.eqb a c || contains c s'
  end.

(** [s.replace(c, "")] for a one-character [c] *)
Fixpoint remove_char (c : ascii) (s : string) : string :=
  match s with
  | EmptyString => EmptyString
  | String a s' => if Ascii.eqb a c then remove_char c s' else String a (remove_char c s')
  end.

(** [s.split(c)] for a one-character separator: never empty, empty pieces
    are kept. *)
Fixpoint split (c : ascii) (s : string) : list string :=
  match s with
  | EmptyString => [EmptyString]
  | String a s' =>
      if Ascii.eqb a c then EmptyString :: split c s'
      else match split c s' with
           | p :: ps => String a p :: ps
           | [] => [String a EmptyString]
           end
  end.

(** [sep.join(parts)] *)
Fixpoint join (sep : string) (parts : list string) : string :=
  match parts with
  | [] => EmptyString
  | [p] => p
  | p :: ps => p +:+ sep +:+ join sep ps
  end.

(** [parts[0]] and [parts[-1]]: [IndexError] on the empty list. *)
Definition first (parts : list string) : result string :=
  match parts with
  | [] => Raise IndexError
  | p :: _ => Ok p
  end.

Fixpoint last (parts : list string) : result string :=
  match parts with
  | [] => Raise IndexError
  | [p] => Ok p
  | _ :: ps => last ps
  end.

(** [parts[0:-1]] *)
Fixpoint but_last (parts : list string) : list string :=
  match parts with
  | [] => []
  | [_] => []
  | p :: ps => p :: but_last ps
  end.

Fixpoint lstrip (s : string) : string :=
  match s with
  | EmptyString => EmptyString
  | String c s' => if is_space c then lstrip s' else s
  end.

Fixpoint rstrip (s : string) : string :=
  match s with
  | EmptyString => EmptyString
  | String c s' =>
      match rstrip s' with
      | EmptyString => if is_space c then EmptyString else String c EmptyString
      | t => String c t
      end
  end.

(** [s.strip()] *)
Definition strip (s : string) : string := rstrip (lstrip s).

(** [s.split()] with no argument: the maximal runs of non-space characters. *)
Fixpoint ws_tokens (s : string) : list string :=
  match s with
  | EmptyString => []
  | String c s' =>
      if is_space c then ws_tokens s'
      else match s' with
           | EmptyString => [String c EmptyString]
           | String d _ =>
               if is_space d then String c EmptyString :: ws_tokens s'
               else match ws_tokens s' with
                    | t :: ts => String c t :: ts
                    | [] => [String c EmptyString]
                    end
           end
  end.

(** *** Numbers from text *)

Definition digit_value (c : ascii) : Z := Z.of_N (code c) - 48.

(** [digitpart ::= digit (["_"] digit)*]: the value and the number of
    digits; [prev] tells whether the previous character was a digit. *)
Fixpoint digitpart_from (s : string) (acc : Z) (n : nat) (prev : bool)
  : option (Z * nat) :=
  match s with
  | EmptyString => if prev then Some (acc, n) else None
  | String c s' =>
      if is_digit c then digitpart_from s' (10 * acc + digit_value c) (S n) true
      else if Ascii.eqb c "_" && prev then digitpart_from s' acc n false
      else None
  end.

Definition digitpart (s : string) : option (Z * nat) :=
  match s with
  | EmptyString => None
  | _ => digitpart_from s 0 0%nat false
  end.

(** An optional sign: the sign as a factor and the rest. *)
Definition take_sign (s : string) : Z * string :=
  match s with
  | String "-" s' => (-1, s')
  | String "+" s' => (1, s')
  | _ => (1, s)
  end.

(** [int(s)] for a string, base 10: [None] is [ValueError]. *)
Definition int_of_string (s : string) : option Z :=
  let '(sg, r) := take_sign (strip s) in
  match digitpart r with
  | Some (v, _) => Some (sg * v)
  | None => None
  end.

(** The longest prefix of digits and underscores, and the rest. *)
Fixpoint span_digits (s : string) : string * string :=
  match s with
  | EmptyString => (EmptyString, EmptyString)
  | String c s' =>
      if is_digit c || Ascii.eqb c "_" then
        let '(d, r) := span_digits s' in (String c d, r)
      else (EmptyString, s)
  end.

(** [m * 10^e] as a float. *)
Definition scale10 (m e : Z) : float :=
  if 0 <=? e then Fin (Qred (m * 10 ^ e # 1))
  else Fin (Qred (m # Z.to_pos (10 ^ (- e)))).

(** [exponent ::= ("e" | "E") [sign] digitpart], then the end of the text. *)
Definition exponent (s : string) : option Z :=
  match s with
  | EmptyString => Some 0
  | String c r =>
      if Ascii.eqb c "e" || Ascii.eqb c "E" then
        let '(sg, d) := take_sign r in
        match digitpart d with
        | Some (v, _) => Some (sg * v)
        | None => None
        end
      else None
  end.

(** [number ::= [digitpart] "." digitpart | digitpart ["."]], with its
    exponent. *)
Definition floatnumber (s : string) : option float :=
  let '(ip, r1) := span_digits s in
  match r1 with
  | String "." r =>
      let '(fp, r2) := span_digits r in
      match ip, fp with
      | EmptyString, EmptyString => None
      | _, _ =>
          let i := match ip with EmptyString => Some (0, 0%nat) | _ => digitpart ip end in
          let f := match fp with EmptyString => Some (0, 0%nat) | _ => digitpart fp end in
          match i, f, exponent r2 with
          | Some (iv, _), Some (fv, k), Some e =>
              Some (scale10 (iv * 10 ^ Z.of_nat k + fv) (e - Z.of_nat k))
          | _, _, _ => None
          end
      end
  | _ =>
      match digitpart ip, exponent r1 with
      | Some (iv, _), Some e => Some (scale10 iv e)
      | _, _ => None
      end
  end.

Definition float_neg (f : float) : float :=
  match f with
  | Fin q => Fin (Qred (- q))
  | Inf => NegInf
  | NegInf => Inf
  | NaN => NaN
  end.

(** [float(s)] for a string: [None] is [ValueError]. *)
Definition float_of_string (s : string) : option float :=
  let '(sg, r) := take_sign (strip s) in
  let l := lower r in
  let v :=
    if String.eqb l "inf" || String.eqb l "infinity" then Some Inf
    else if String.eqb l "nan" then Some NaN
    else floatnumber r in
  match v with
  | Some f => Some (if sg =? 1 then f else float_neg f)
  | None => None
  end.

(** [int(v)] for a value read from JSON. *)
Definition int (v : json) : result Z :=
  match v with
  | JStr s =>
      match int_of_string s with
      | Some z => Ok z
      | None => Raise ValueError
      end
  | JInt z => Ok z
  | JBool b => Ok (if b then 1 else 0)
  | JFloat (Fin q) => Ok (Z.quot (Qnum q) (Z.pos (Qden q)))
  | JFloat NaN => Raise ValueError
  | JFloat _ => Raise OverflowError
  | JNull | JArr _ | JObj _ => Raise TypeError
  end.

(** [v.split(" ")] for a value read from JSON: only a string has the
    method. *)
Definition split_attr (c : ascii) (v : json) : result (list string) :=
  match v with
  | JStr s => Ok (split c s)
  | _ => Raise AttributeError
  end.

(** *** Statements: a world (files, printed lines, connection) is threaded
    through; an exception leaves the world as it was when it was raised. *)

Definition M (W A : Type) : Type := W -> W * result A.

#[global] Instance M_ret {W} : MRet (M W) := fun A a w => (w, Ok a).

#[global] Instance M_bind {W} : MBind (M W) := fun A B f m w =>
  match m w with
  | (w', Ok a) => f a w'
  | (w', Raise e) => (w', Raise e)
  end.

Definition lift {W A} (r : result A) : M W A := fun w => (w, r).

Definition raise {W A} (e : exn) : M W A := fun w => (w, Raise e).

Definition modify {W} (f : W -> W) : M W unit := fun w => (f w, Ok tt).

(** [try: m except <handles>: handler] *)
Definition try_except {W A} (m : M W A) (handles : exn -> bool) (handler : M W A)
  : M W A := fun w =>
  match m w with
  | (w', Raise e) => if handles e then handler w' else (w', Raise e)
  | r => r
  end.

(** [for x in xs: f x] *)
Fixpoint for_each {W A} (xs : list A) (f : A -> M W unit) : M W unit :=
  match xs with
  | [] => mret tt
  | x :: xs' => _ ← f x; for_each xs' f
  end.

(** A loop that appends one result per element. *)
Fixpoint for_collect {W A B} (xs : list A) (f : A -> M W B) : M W (list B) :=
  match xs with
  | [] => mret []
  | x :: xs' => y ← f x; ys ← for_collect xs' f; mret (y :: ys)
  end.

(** *** Ordering and [list.sort] *)

(** [a < b] on [str]: by character code, a proper prefix first. *)
Definition str_lt (a b : string) : bool := String.ltb a b.

(** [a < b] on pairs of [str]: the first components decide unless equal. *)
Definition tuple_lt (a b : string * string) : bool :=
  if String.eqb (fst a) (fst b) then str_lt (snd a) (snd b)
  else str_lt (fst a) (fst b).

(** [list.sort(key=...)] is stable and compares keys with [<] only. It is
    written here as the stable insertion: an element goes after every element
    that is not greater than it. *)
Section Sort.
Context {A K : Type} (lt : K -> K -> bool) (key : A -> K).

Fixpoint insert_sorted (x : A) (l : list A) : list A :=
  match l with
  | [] => [x]
  | y :: l' => if lt (key x) (key y) then x :: l else y :: insert_sorted x l'
  end.

Definition sort (l : list A) : list A :=
  fold_left (fun acc x => insert_sorted x acc) l [].
End Sort.

End Py.


(** ** The data classes of restructure.py, also the records of galaxy.json *)

Module Biome.
Record t := mk { name : string; coverage : Py.float }.
End Biome.

Module OrganicResource.
Record t := mk { name : string; resource : string }.
End OrganicResource.

Module Body.
Record t := mk {
  system : string;
  name : string;
  atmosphere : string;
  fauna : Z;
  flora : Z;
  gravity : Py.float;
  hab_rank : Z;
  magnetosphere : string;
  planet_length : Z;
  temperature : string;
  type : string;
  water : string;
  biomes : list Biome.t;
  traits : list string;
  resources : list string;
  domesticable : list OrganicResource.t;
  gatherable : list OrganicResource.t
}.

(** [attrgetter("system", "name")] *)
Definition key (b : t) : string * string := (system b, name b).
End Body.

(** One body of starfield_data_updated.json, with all its keys. The text and
    list fields are typed; the four numeric fields are whatever JSON value
    the file holds, which is what the [try] blocks of the normalizer are
    about. A body that lacks a key, or has another JSON value where a text
    or a list of texts stands, is not a value of this type: the normalizer
    ends on it with [KeyError], [AttributeError] or [TypeError] at the line
    that reads the field, and no statement below is about such a body. *)
Module RawBody.
Record t := mk {
  atmosphere : string;
  fauna : Py.json;
  flora : Py.json;
  gravity : string;
  hab_rank : Py.json;
  magnetosphere : string;
  planet_length : Py.json;
  temperature : string;
  type : string;
  water : string;
  biomes : list string;
  traits : list string;
  resources : list string;
  domesticable : list string;
  gatherable : list string
}.
End RawBody.

(** ** restructure.py *)

Module Restructure.
Import Py.

(** The lines [main] prints. *)
Inductive line :=
| invalid_fauna (raw : json) (system_name body_name : string)
| invalid_flora (raw : json) (system_name body_name : string)
| invalid_hab_rank (raw : json) (system_name body_name : string)
| invalid_planet_length (raw : json) (system_name body_name : string)
| invalid_biome (biome_str system_name body_name : string).

(** The standard output: the lines printed so far. Normalizing touches
    nothing else. *)
Definition print (l : line) : M (list line) unit :=
  modify (fun out => out ++ [l]).

Definition is_ValueError (e : exn) : bool :=
  match e with ValueError => true | _ => false end.

Definition is_ValueError_or_AttributeError (e : exn) : bool :=
  match e with ValueError | AttributeError => true | _ => false end.

(** Lines 115-121, 123-129 and 133-139: [int(...)], and 0 with a line on
    [ValueError]. *)
Definition int_or_zero (msg : json -> string -> string -> line)
    (system_name body_name : string) (raw : json) : M (list line) Z :=
  try_except (lift (int raw)) is_ValueError
    (_ ← print (msg raw system_name body_name); mret 0).

(** Line 131 *)
Definition parse_gravity (raw : string) : M (list line) float :=
  match float_of_string (strip (remove_char "g" raw)) with
  | Some f => mret f
  | None => raise ValueError
  end.

(** Lines 142-150 *)
Definition parse_planet_length (system_name body_name : string) (raw : json)
  : M (list line) Z :=
  try_except
    (parts ← lift (split_attr " " raw);
     p ← lift (first parts);
     lift (int (JStr p)))
    is_ValueError_or_AttributeError
    (_ ← print (invalid_planet_length raw system_name body_name); mret 24).

(** Lines 158-165: the body of the [try] for one biome string. *)
Definition parse_biome (biome_str : string) : result Biome.t :=
  if contains "%" biome_str then
    let parts := split " " biome_str in
    let name := join " " (but_last parts) in
    match last parts with
    | Ok p =>
        match float_of_string (remove_char "%" p) with
        | Some f => Ok (Biome.mk name (float_div_const f 100))
        | None => Raise ValueError
        end
    | Raise e => Raise e
    end
  else Ok (Biome.mk biome_str (Fin 0)).

(** Lines 156-170: the loop over the biome strings; the list built so far is
    passed along. *)
Fixpoint parse_biomes (system_name body_name : string) (raw : list string)
    (acc : list Biome.t) : M (list line) (list Biome.t) :=
  match raw with
  | [] => mret acc
  | biome_str :: raw' =>
      acc' ← try_except
               (biome ← lift (parse_biome biome_str); mret (acc ++ [biome]))
               is_ValueError
               (_ ← print (invalid_biome biome_str system_name body_name); mret acc);
      parse_biomes system_name body_name raw' acc'
  end.

(** Lines 156-172: the loop, then [body.biomes.sort(key=attrgetter("name"))]. *)
Definition normalize_biomes (system_name body_name : string) (raw : list string)
  : M (list line) (list Biome.t) :=
  biomes ← parse_biomes system_name body_name raw [];
  mret (sort str_lt Biome.name biomes).

(** Lines 181-185 and 190-194 *)
Definition parse_organic (dom : string) : result OrganicResource.t :=
  let parts := split "(" dom in
  match first parts, last parts with
  | Ok p0, Ok pl => Ok (OrganicResource.mk (strip p0) (strip (remove_char ")" pl)))
  | Raise e, _ | _, Raise e => Raise e
  end.

(** Lines 180-187 and 189-196: the loop, then the sort by organism name. *)
Definition normalize_organics (raw : list string) : M (list line) (list OrganicResource.t) :=
  organics ← for_collect raw (fun dom => lift (parse_organic dom));
  mret (sort str_lt OrganicResource.name organics).

(** Lines 110-198: one body. *)
Definition normalize_body (system_name body_name : string) (body_data : RawBody.t)
  : M (list line) Body.t :=
  let atmosphere := lower (RawBody.atmosphere body_data) in
  fauna ← int_or_zero invalid_fauna system_name body_name (RawBody.fauna body_data);
  flora ← int_or_zero invalid_flora system_name body_name (RawBody.flora body_data);
  gravity ← parse_gravity (RawBody.gravity body_data);
  hab_rank ← int_or_zero invalid_hab_rank system_name body_name (RawBody.hab_rank body_data);
  let magnetosphere := lower (RawBody.magnetosphere body_data) in
  planet_length ← parse_planet_length system_name body_name (RawBody.planet_length body_data);
  let temperature := lower (RawBody.temperature body_data) in
  let type := RawBody.type body_data in
  let water := lower (RawBody.water body_data) in
  biomes ← normalize_biomes system_name body_name (RawBody.biomes body_data);
  let traits := sort str_lt id (RawBody.traits body_data) in
  let resources := RawBody.resources body_data in
  let traits := sort str_lt id traits in
  domesticable ← normalize_organics (RawBody.domesticable body_data);
  gatherable ← normalize_organics (RawBody.gatherable body_data);
  mret (Body.mk system_name body_name atmosphere fauna flora gravity hab_rank
          magnetosphere planet_length temperature type water biomes traits
          resources domesticable gatherable).

(** Lines 108-109: the bodies of one system, then of all systems, in the
    order of the file. *)
Definition normalize_system (system_name : string) (bodies : list (string * RawBody.t))
  : M (list line) (list Body.t) :=
  for_collect bodies (fun '(body_name, body_data) =>
    normalize_body system_name body_name body_data).

Definition normalize_all (raw : list (string * list (string * RawBody.t)))
  : M (list line) (list Body.t) :=
  gs ← for_collect raw (fun '(system_name, bodies) => normalize_system system_name bodies);
  mret (concat gs).

(** Line 199 *)
Definition assemble (galaxy : list Body.t) : list Body.t :=
  sort tuple_lt Body.key galaxy.

(** The files of the data directory and the standard output. *)
Record World := mkWorld {
  starfield_data_updated_json : list (string * list (string * RawBody.t));
  galaxy_json : option string;
  stdout : list line
}.

Section Main.
(** [json.dump(galaxy, fob, indent=2, cls=EnhancedJSONEncoder)]: the text
    written for a galaxy. *)
Variable dump : list Body.t -> string.

(** Lines 101-202: the input is read, every body is normalized, and only
    then is galaxy.json opened for writing. *)
Definition main : M World unit := fun w =>
  let raw_original_data := starfield_data_updated_json w in
  match normalize_all raw_original_data (stdout w) with
  | (out, Ok galaxy) =>
      (mkWorld raw_original_data (Some (dump (assemble galaxy))) out, Ok tt)
  | (out, Raise e) =>
      (mkWorld raw_original_data (galaxy_json w) out, Raise e)
  end.

End Main.

(** *** The wording of the specification, for comparison *)

(** "split on whitespace, treat all tokens except the last as the name
    (rejoined with single spaces), parse the last token (strip %, divide by
    100) as coverage" *)
Definition spec_parse_biome (biome_str : string) : result Biome.t :=
  if contains "%" biome_str then
    let tokens := ws_tokens biome_str in
    match last tokens with
    | Ok p =>
        match float_of_string (remove_char "%" p) with
        | Some f => Ok (Biome.mk (join " " (but_last tokens)) (float_div_const f 100))
        | None => Raise ValueError
        end
    | Raise _ => Raise ValueError
    end
  else Ok (Biome.mk biome_str (Fin 0)).

(** "split on whitespace, parse the first token as integer; on failure
    default to 24" *)
Definition spec_planet_length (raw : json) : Z :=
  match raw with
  | JStr s =>
      match ws_tokens s with
      | t :: _ => match int_of_string t with Some z => z | None => 24 end
      | [] => 24
      end
  | _ => 24
  end.

(** The text before the first occurrence of [c], and the text after it. *)
Fixpoint partition_first (c : ascii) (s : string) : string * option string :=
  match s with
  | EmptyString => (EmptyString, None)
  | String a s' =>
      if Ascii.eqb a c then (EmptyString, Some s')
      else let '(b, r) := partition_first c s' in (String a b, r)
  end.

(** One trailing [c] taken off. *)
Fixpoint drop_trailing (c : ascii) (s : string) : string :=
  match s with
  | EmptyString => EmptyString
  | String a EmptyString => if Ascii.eqb a c then EmptyString else s
  | String a s' => String a (drop_trailing c s')
  end.

(** "organism name = text before [the first (], trimmed; resource reference
    = text after, with trailing ) stripped and trimmed" *)
Definition spec_parse_organic (dom : string) : option OrganicResource.t :=
  match partition_first "(" dom with
  | (before, Some after) =>
      Some (OrganicResource.mk (strip before) (strip (drop_trailing ")" after)))
  | (_, None) => None
  end.

(** The biomes a list of biome strings yields, in the order of the list, and
    the lines printed for the strings that yield none. *)
Definition biomes_of (raw : list string) : list Biome.t :=
  flat_map (fun biome_str =>
    match parse_biome biome_str with Ok biome => [biome] | Raise _ => [] end) raw.

Definition biome_warnings (system_name body_name : string) (raw : list string) : list line :=
  flat_map (fun biome_str =>
    match parse_biome biome_str with
    | Ok _ => []
    | Raise _ => [invalid_biome biome_str system_name body_name]
    end) raw.

(** The value a numeric field gets: what [int] returns, or the default. *)
Definition int_or (default : Z) (raw : json) : Z :=
  match int raw with Ok z => z | Raise _ => default end.

(** [int] either returns or raises [ValueError]: the field has a fallback. *)
Definition int_guarded (raw : json) : bool :=
  match int raw with
  | Ok _ | Raise ValueError => true
  | Raise _ => false
  end.

(** The lines a numeric field with a fallback prints. *)
Definition int_lines (msg : json -> string -> string -> line)
    (system_name body_name : string) (raw : json) : list line :=
  match int raw with
  | Raise ValueError => [msg raw system_name body_name]
  | _ => []
  end.

(** The text after the last occurrence of [c]; the whole text if there is
    none. *)
Fixpoint after_last (c : ascii) (s : string) : string :=
  match s with
  | EmptyString => EmptyString
  | String a s' =>
      if contains c s' then after_last c s'
      else if Ascii.eqb a c then s' else s
  end.

(** The text before the last occurrence of [c]; empty if there is none. *)
Fixpoint before_last (c : ascii) (s : string) : string :=
  match s with
  | EmptyString => EmptyString
  | String a s' => if contains c s' then String a (before_last c s') else EmptyString
  end.

(** The day length read off a raw value: the integer written before the first
    space of a string, if there is one. *)
Definition planet_length_of (raw : json) : option Z :=
  match raw with
  | JStr s => int_of_string (fst (partition_first " " s))
  | _ => None
  end.

Definition planet_length_lines (system_name body_name : string) (raw : json) : list line :=
  match planet_length_of raw with
  | Some _ => []
  | None => [invalid_planet_length raw system_name body_name]
  end.

(** The organic resource an entry yields: the name is the text before the
    first parenthesis, the resource the text after the last one, without
    any closing parenthesis. *)
Definition organic_of (dom : string) : OrganicResource.t :=
  OrganicResource.mk (strip (fst (partition_first "(" dom)))
    (strip (remove_char ")" (after_last "(" dom))).

(** A coverage that is a fraction of the whole: a number from 0 to 1. *)
Definition in_unit_interval (f : float) : Prop :=
  match f with
  | Fin q => (0 <= q /\ q <= 1)%Q
  | _ => False
  end.

(** A body in the form of the data file, for the examples. *)
Definition earth : RawBody.t :=
  RawBody.mk "Std O2" (JStr "3") (JStr "many") "1.0 g" (JStr "1") "Average"
    (JStr "24 hours") "Temperate" "Rock" "Safe"
    ["Ocean 70%"; "Desert"] ["Primordial Network"] ["Fe"; "H2O"]
    ["Void Sloth (Argon)"] [].

Definition with_gravity (g : string) (d : RawBody.t) : RawBody.t :=
  RawBody.mk (RawBody.atmosphere d) (RawBody.fauna d) (RawBody.flora d) g
    (RawBody.hab_rank d) (RawBody.magnetosphere d) (RawBody.planet_length d)
    (RawBody.temperature d) (RawBody.type d) (RawBody.water d) (RawBody.biomes d)
    (RawBody.traits d) (RawBody.resources d) (RawBody.domesticable d)
    (RawBody.gatherable d).

Definition with_biomes (bs : list string) (d : RawBody.t) : RawBody.t :=
  RawBody.mk (RawBody.atmosphere d) (RawBody.fauna d) (RawBody.flora d)
    (RawBody.gravity d) (RawBody.hab_rank d) (RawBody.magnetosphere d)
    (RawBody.planet_length d) (RawBody.temperature d) (RawBody.type d)
    (RawBody.water d) bs (RawBody.traits d) (RawBody.resources d)
    (RawBody.domesticable d) (RawBody.gatherable d).

(** A text whose tokens are separated by single spaces: no other space
    character, no space at either end, no two spaces in a row. *)
Fixpoint single_spaced_from (prev_space : bool) (s : string) : bool :=
  match s with
  | EmptyString => negb prev_space
  | String c s' =>
      if Ascii.eqb c " " then negb prev_space && single_spaced_from true s'
      else negb (is_space c) && single_spaced_from false s'
  end.

Definition single_spaced (s : string) : bool := single_spaced_from true s.

End Restructure.

(** ** create_db.py *)

(** One record of resources.json. *)
Module Resource.
Record t := mk {
  resource : string;
  shortName : string;
  rarity : Py.json;
  type : Py.json;
  mass : Py.json;
  value : Py.json;
  valueToMass : Py.json
}.
End Resource.

Module CreateDb.
Import Py.

(** The row of [INSERT INTO bodies], in the order of the tuple of lines
    223-236. *)
Record body_row := mk_body_row {
  r_name : string;
  r_system : string;
  r_type : string;
  r_gravity : float;
  r_temperature : string;
  r_atmosphere : string;
  r_magnetosphere : string;
  r_water : string;
  r_fauna : Z;
  r_flora : Z;
  r_hab_rank : Z;
  r_planet_length : Z
}.

(** The seven tables, each with its rows in the order of insertion. *)
Record Store := mkStore {
  resources : list Resource.t;
  systems : list (string * nat);
  bodies : list body_row;
  traits : list (string * string * string);
  body_resources : list (string * string * string);
  body_organics : list (string * string * string * string * bool);
  biomes : list (string * string * string * float)
}.

Definition empty_store : Store := mkStore [] [] [] [] [] [] [].

(** sf.sql is read from the data directory and run as it is; what the loader
    needs of it is which rows each table accepts, given the rows already
    there. A row that is not accepted raises [sqlite3.IntegrityError] and
    leaves the table as it was. *)
Record Schema := mkSchema {
  resources_ok : Resource.t -> Store -> bool;
  systems_ok : string * nat -> Store -> bool;
  bodies_ok : body_row -> Store -> bool;
  traits_ok : string * string * string -> Store -> bool;
  body_resources_ok : string * string * string -> Store -> bool;
  body_organics_ok : string * string * string * string * bool -> Store -> bool;
  biomes_ok : string * string * string * float -> Store -> bool
}.

Definition same_key (system name : string) (r : body_row) : bool :=
  String.eqb (r_system r) system && String.eqb (r_name r) name.

(** Modelled from the spec: sf.sql, which is not among the sources. The
    specification gives the keys: a resource's full name and a system's name
    are unique, a body's (system, name) is unique, and a body's system is a
    row of [systems]; it puts no constraint on the four child tables. *)
Definition spec_schema : Schema := {|
  resources_ok r st :=
    negb (existsb (fun r' => String.eqb (Resource.resource r') (Resource.resource r)) (resources st));
  systems_ok s st := negb (existsb (fun s' => String.eqb (fst s') (fst s)) (systems st));
  bodies_ok r st :=
    negb (existsb (same_key (r_system r) (r_name r)) (bodies st))
    && existsb (fun s' => String.eqb (fst s') (r_system r)) (systems st);
  traits_ok _ _ := true;
  body_resources_ok _ _ := true;
  body_organics_ok _ _ := true;
  biomes_ok _ _ := true
|}.

(** The lines the loader prints. *)
Inductive line :=
| bad_data (row : body_row).

(** The database file [sf.db] as it is on disk (the committed rows, if the
    file exists), the connection's own view (committed and pending rows) and
    the standard output. *)
Record World := mkWorld {
  sf_db : option Store;
  con : Store;
  stdout : list line
}.

Definition print (l : line) : M World unit :=
  modify (fun w => mkWorld (sf_db w) (con w) (stdout w ++ [l])).

(** [con.commit()] *)
Definition commit : M World unit :=
  modify (fun w => mkWorld (Some (con w)) (con w) (stdout w)).

(** [cur.execute("INSERT INTO <table> VALUES (...)", row)] for a row whose
    values sqlite3 can bind. A value it cannot bind (an [int] outside 64
    bits, a list, a dict) raises an exception of its own before the table is
    looked at; rows with such values are outside this definition. *)
Definition execute {R} (ok : R -> Store -> bool) (add : R -> Store -> Store) (row : R)
  : M World unit := fun w =>
  if ok row (con w) then (mkWorld (sf_db w) (add row (con w)) (stdout w), Ok tt)
  else (w, Raise IntegrityError).

Definition add_resource (r : Resource.t) (st : Store) : Store :=
  mkStore (resources st ++ [r]) (systems st) (bodies st) (traits st)
    (body_resources st) (body_organics st) (biomes st).
Definition add_system (r : string * nat) (st : Store) : Store :=
  mkStore (resources st) (systems st ++ [r]) (bodies st) (traits st)
    (body_resources st) (body_organics st) (biomes st).
Definition add_body (r : body_row) (st : Store) : Store :=
  mkStore (resources st) (systems st) (bodies st ++ [r]) (traits st)
    (body_resources st) (body_organics st) (biomes st).
Definition add_trait (r : string * string * string) (st : Store) : Store :=
  mkStore (resources st) (systems st) (bodies st) (traits st ++ [r])
    (body_resources st) (body_organics st) (biomes st).
Definition add_body_resource (r : string * string * string) (st : Store) : Store :=
  mkStore (resources st) (systems st) (bodies st) (traits st)
    (body_resources st ++ [r]) (body_organics st) (biomes st).
Definition add_body_organic (r : string * string * string * string * bool) (st : Store)
  : Store :=
  mkStore (resources st) (systems st) (bodies st) (traits st)
    (body_resources st) (body_organics st ++ [r]) (biomes st).
Definition add_biome (r : string * string * string * float) (st : Store) : Store :=
  mkStore (resources st) (systems st) (bodies st) (traits st)
    (body_resources st) (body_organics st) (biomes st ++ [r]).

(** [shortname_map[k]]: [KeyError] when the key is absent. *)
Definition getitem (shortname_map : gmap string string) (k : string) : result string :=
  match shortname_map !! k with
  | Some v => Ok v
  | None => Raise KeyError
  end.

(** [Counter(names).items()]: each distinct name with its number of
    occurrences, in the order of first occurrence. *)
Fixpoint counter_add (x : string) (counts : list (string * nat)) : list (string * nat) :=
  match counts with
  | [] => [(x, 1%nat)]
  | (y, n) :: counts' =>
      if String.eqb x y then (y, S n) :: counts' else (y, n) :: counter_add x counts'
  end.

Definition Counter (names : list string) : list (string * nat) :=
  fold_left (fun counts x => counter_add x counts) names [].

Definition is_IntegrityError (e : exn) : bool :=
  match e with IntegrityError => true | _ => false end.

Definition row_of (body : Body.t) : body_row :=
  mk_body_row (Body.name body) (Body.system body) (Body.type body)
    (Body.gravity body) (Body.temperature body) (Body.atmosphere body)
    (Body.magnetosphere body) (Body.water body) (Body.fauna body)
    (Body.flora body) (Body.hab_rank body) (Body.planet_length body).

Section Loader.
Variable schema : Schema.

(** Lines 101-104: an existing file is removed; the new connection is to an
    empty database. *)
Definition connect_to_db : M World unit :=
  modify (fun w =>
    let db_file := match sf_db w with
                   | Some _ => None   (* os.remove(db_path) *)
                   | None => None
                   end in
    mkWorld db_file empty_store (stdout w)).

(** Lines 125-131: the script creates the tables, then a commit. *)
Definition install_schema : M World unit := commit.

(** Lines 164-176: one resource of the catalog. *)
Definition insert_resource (shortname_map : gmap string string) (resource : Resource.t)
  : M World (gmap string string) :=
  _ ← execute (resources_ok schema) add_resource resource;
  let shortname_map :=
    <[lower (Resource.shortName resource) := Resource.resource resource]> shortname_map in
  let shortname_map :=
    <[lower (Resource.resource resource) := Resource.shortName resource]> shortname_map in
  mret shortname_map.

Fixpoint insert_resources_loop (data : list Resource.t) (shortname_map : gmap string string)
  : M World (gmap string string) :=
  match data with
  | [] => mret shortname_map
  | resource :: data' =>
      shortname_map' ← insert_resource shortname_map resource;
      insert_resources_loop data' shortname_map'
  end.

(** Lines 159-179 *)
Definition insert_resources (data : list Resource.t) : M World (gmap string string) :=
  shortname_map ← insert_resources_loop data ∅;
  _ ← commit;
  mret shortname_map.

(** Lines 252-256: one resource reference of a body. *)
Definition insert_body_resource (shortname_map : gmap string string) (body : Body.t)
    (resource : string) : M World unit :=
  full ← lift (getitem shortname_map (lower resource));
  execute (body_resources_ok schema) add_body_resource
    (Body.system body, Body.name body, full).

(** Lines 246-274: the rows of the four child tables of one body. *)
Definition insert_children (shortname_map : gmap string string) (body : Body.t)
  : M World unit :=
  _ ← for_each (Body.traits body) (fun trait =>
        execute (traits_ok schema) add_trait (Body.system body, Body.name body, trait));
  _ ← for_each (Body.resources body) (insert_body_resource shortname_map body);
  _ ← for_each (Body.domesticable body) (fun org =>
        execute (body_organics_ok schema) add_body_organic
          (Body.system body, Body.name body, OrganicResource.name org,
           OrganicResource.resource org, true));
  _ ← for_each (Body.gatherable body) (fun org =>
        execute (body_organics_ok schema) add_body_organic
          (Body.system body, Body.name body, OrganicResource.name org,
           OrganicResource.resource org, false));
  for_each (Body.biomes body) (fun biome =>
    execute (biomes_ok schema) add_biome
      (Body.system body, Body.name body, Biome.name biome, Biome.coverage biome)).

(** Lines 223-244: the row of the body, or the line when the table rejects
    it. *)
Definition insert_body_row (body : Body.t) : M World unit :=
  let row := row_of body in
  try_except (execute (bodies_ok schema) add_body row) is_IntegrityError
    (print (bad_data row)).

(** Lines 223-275: one body. *)
Definition insert_body (shortname_map : gmap string string) (body : Body.t)
  : M World unit :=
  _ ← insert_body_row body;
  _ ← insert_children shortname_map body;
  commit.

(** Lines 218-220: one row per system with its number of bodies, then a
    commit. *)
Definition insert_systems (galaxy : list Body.t) : M World unit :=
  let counts := Counter (map Body.system galaxy) in
  _ ← for_each counts (execute (systems_ok schema) add_system);
  commit.

(** Lines 222-275: the loop over the bodies. *)
Definition insert_bodies (galaxy : list Body.t) (shortname_map : gmap string string)
  : M World unit :=
  for_each galaxy (insert_body shortname_map).

(** Lines 212-275 *)
Definition insert_galaxy (galaxy : list Body.t) (shortname_map : gmap string string)
  : M World unit :=
  _ ← insert_systems galaxy;
  insert_bodies galaxy shortname_map.

(** Lines 13-22, for a data directory that exists and holds [resources_json]
    and [galaxy_json]. *)
Definition main (resources_json : list Resource.t) (galaxy_json : list Body.t)
  : M World unit :=
  _ ← connect_to_db;
  _ ← install_schema;
  shortname_map ← insert_resources resources_json;
  insert_galaxy galaxy_json shortname_map.

End Loader.

(** *** The wording of the specification, for comparison *)

(** "[resolve(nameOrShortName) -> fullName]: case-insensitive lookup": the
    full name of the first resource of the catalog one of whose two names is
    the reference, letter case aside. *)
Definition spec_resolve (catalog : list Resource.t) (r : string) : option string :=
  match
    List.find (fun res =>
      String.eqb (lower (Resource.shortName res)) (lower r)
      || String.eqb (lower (Resource.resource res)) (lower r)) catalog
  with
  | Some res => Some (Resource.resource res)
  | None => None
  end.

(** The rows of the child tables that belong to one body. *)
Definition trait_rows (body : Body.t) : list (string * string * string) :=
  map (fun trait => (Body.system body, Body.name body, trait)) (Body.traits body).

Definition resource_rows (shortname_map : gmap string string) (body : Body.t)
  : list (string * string * string) :=
  flat_map (fun resource =>
    match shortname_map !! lower resource with
    | Some full => [(Body.system body, Body.name body, full)]
    | None => []
    end) (Body.resources body).

Definition organic_rows (body : Body.t) : list (string * string * string * string * bool) :=
  map (fun org => (Body.system body, Body.name body, OrganicResource.name org,
                   OrganicResource.resource org, true)) (Body.domesticable body)
  ++ map (fun org => (Body.system body, Body.name body, OrganicResource.name org,
                      OrganicResource.resource org, false)) (Body.gatherable body).

Definition biome_rows (body : Body.t) : list (string * string * string * float) :=
  map (fun biome => (Body.system body, Body.name body, Biome.name biome,
                     Biome.coverage biome)) (Body.biomes body).

(** The store with the rows of the references [rs] of a body added. *)
Definition add_resource_rows (shortname_map : gmap string string) (body : Body.t)
    (rs : list string) (st : Store) : Store :=
  mkStore (resources st) (systems st) (bodies st) (traits st)
    (body_resources st
     ++ flat_map (fun resource =>
          match shortname_map !! lower resource with
          | Some full => [(Body.system body, Body.name body, full)]
          | None => []
          end) rs)
    (body_organics st) (biomes st).

(** The store with the child rows of one body added. *)
Definition add_children (shortname_map : gmap string string) (body : Body.t) (st : Store)
  : Store :=
  mkStore (resources st) (systems st) (bodies st)
    (traits st ++ trait_rows body)
    (body_resources st ++ resource_rows shortname_map body)
    (body_organics st ++ organic_rows body)
    (biomes st ++ biome_rows body).

(** A store with the child rows of some bodies added to [st]. *)
Definition with_children (shortname_map : gmap string string) (loaded : list Body.t)
    (st st' : Store) : Prop :=
  traits st' = traits st ++ flat_map trait_rows loaded
  /\ body_resources st' = body_resources st ++ flat_map (resource_rows shortname_map) loaded
  /\ body_organics st' = body_organics st ++ flat_map organic_rows loaded
  /\ biomes st' = biomes st ++ flat_map biome_rows loaded.

(** Every reference of the body is a key of the map. *)
Definition resolves (shortname_map : gmap string string) (body : Body.t) : Prop :=
  forall resource, In resource (Body.resources body) ->
    is_Some (shortname_map !! lower resource).

(** The four child tables take any row. *)
Definition accepts_children (schema : Schema) : Prop :=
  (forall row st, traits_ok schema row st = true)
  /\ (forall row st, body_resources_ok schema row st = true)
  /\ (forall row st, body_organics_ok schema row st = true)
  /\ (forall row st, biomes_ok schema row st = true).

(** [bodies] takes a row whose system is a row of [systems] exactly when no
    row has its (system, name); [systems] takes a row with a new name. *)
Definition keyed_bodies (schema : Schema) : Prop :=
  (forall row st,
     existsb (fun s => String.eqb (fst s) (r_system row)) (systems st) = true ->
     bodies_ok schema row st = negb (existsb (same_key (r_system row) (r_name row)) (bodies st)))
  /\ (forall row st,
       existsb (fun s => String.eqb (fst s) (fst row)) (systems st) = false ->
       systems_ok schema row st = true).

(** The bodies whose (system, name) is that of an earlier body of the
    galaxy, or one of [seen]. *)
Fixpoint duplicates (seen : list (string * string)) (galaxy : list Body.t) : list Body.t :=
  match galaxy with
  | [] => []
  | body :: galaxy' =>
      if bool_decide (Body.key body ∈ seen)
      then body :: duplicates seen galaxy'
      else duplicates (Body.key body :: seen) galaxy'
  end.

(** A catalog and a galaxy for the examples. *)
Definition iron : Resource.t :=
  Resource.mk "Iron" "Fe" (JStr "Common") (JStr "Inorganic") (JFloat (Fin (3 # 5)))
    (JInt 8) (JFloat (Fin (40 # 3))).

Definition earth : Body.t :=
  Body.mk "Sol" "Earth" "std o2" 3 0 (Fin 1) 1 "average" 24 "temperate" "Rock" "safe"
    [Biome.mk "Desert" (Fin 0); Biome.mk "Ocean" (Fin (7 # 10))]
    ["Primordial Network"] ["fe"] [OrganicResource.mk "Void Sloth" "Argon"] [].

Definition with_resources (rs : list string) (b : Body.t) : Body.t :=
  Body.mk (Body.system b) (Body.name b) (Body.atmosphere b) (Body.fauna b) (Body.flora b)
    (Body.gravity b) (Body.hab_rank b) (Body.magnetosphere b) (Body.planet_length b)
    (Body.temperature b) (Body.type b) (Body.water b) (Body.biomes b) (Body.traits b)
    rs (Body.domesticable b) (Body.gatherable b).

Definition fresh : World := mkWorld None empty_store [].

(** A second resource with the short name of [iron]. *)
Definition ferrite : Resource.t :=
  Resource.mk "Ferrite" "Fe" (JStr "Rare") (JStr "Inorganic") (JInt 1) (JInt 20) (JInt 20).

Definition with_system (system_name : string) (b : Body.t) : Body.t :=
  Body.mk system_name (Body.name b) (Body.atmosphere b) (Body.fauna b) (Body.flora b)
    (Body.gravity b) (Body.hab_rank b) (Body.magnetosphere b) (Body.planet_length b)
    (Body.temperature b) (Body.type b) (Body.water b) (Body.biomes b) (Body.traits b)
    (Body.resources b) (Body.domesticable b) (Body.gatherable b).

(** The map [insert_resources] builds: for each resource in turn, the
    lowercased short name is bound to the full name, then the lowercased full
    name to the short name; a later binding of a key replaces an earlier
    one. *)
Definition shortname_map_from (shortname_map : gmap string string)
    (catalog : list Resource.t) : gmap string string :=
  fold_left (fun m res =>
    <[lower (Resource.resource res) := Resource.shortName res]>
      (<[lower (Resource.shortName res) := Resource.resource res]> m))
    catalog shortname_map.

Definition shortname_map_of (catalog : list Resource.t) : gmap string string :=
  shortname_map_from ∅ catalog.

(** No name of the catalog is the reference, letter case aside. *)
Definition unmatched (catalog : list Resource.t) (r : string) : Prop :=
  forall res, In res catalog ->
    lower (Resource.shortName res) <> lower r /\ lower (Resource.resource res) <> lower r.

(** The keys the catalog puts in the map, in the order of the insertions. *)
Definition index_keys (catalog : list Resource.t) : list string :=
  flat_map (fun res => [lower (Resource.shortName res); lower (Resource.resource res)]) catalog.

End CreateDb.

(** ** planet_search_update.py *)

(** The interactive editor of starfield_data_updated.json. A [dict] read from
    JSON is the list of its entries in order, with keys that are strings and
    all different; the keyboard is the list of the lines still to be read. *)
Module PlanetSearchUpdate.

(** [input] raises [EOFError] when no line is left; nothing else raises. *)
Inductive exn := EOFError.

Inductive result (A : Type) :=
| Ok (a : A)
| Raise (e : exn).
Arguments Ok {A} a.
Arguments Raise {A} e.

(** The lines the script prints, the prompts of [input] among them. *)
Inductive line :=
| prompt_system_name
| system_not_found
| planet_header (planet_name : string)
| current_planet_length (v : Py.json)
| current_hab_rank (v : Py.json)
| prompt_planet_length
| prompt_hab_rank
| planet_length_updated (planet_name new : string)
| hab_rank_updated (planet_name new : string)
| values_updated.

(** A planet as loaded, and as it is after [update_planet]: an assignment
    under the key [None] is possible then. *)
Definition planet := list (string * Py.json).
Definition planet' := list (option string * Py.json).
Definition system := list (string * planet).
Definition system' := list (string * planet').
Definition data := list (string * system).
Definition data' := list (string * system').

(** The keyboard, the screen and what [save_data] has written to
    starfield_data_updated.json, if it has. *)
Record World := mkWorld {
  stdin : list string;
  stdout : list line;
  saved : option data'
}.

Definition IO (A : Type) : Type := World -> World * result A.

#[global] Instance IO_ret : MRet IO := fun A a w => (w, Ok a).

#[global] Instance IO_bind : MBind IO := fun A B f m w =>
  match m w with
  | (w', Ok a) => f a w'
  | (w', Raise e) => (w', Raise e)
  end.

Definition print (l : line) : IO unit := fun w =>
  (mkWorld (stdin w) (stdout w ++ [l]) (saved w), Ok tt).

(** [input(prompt)]: the prompt is written, then a line is read. *)
Definition input (prompt : line) : IO string := fun w =>
  match stdin w with
  | [] => (mkWorld [] (stdout w ++ [prompt]) (saved w), Raise EOFError)
  | l :: rest => (mkWorld rest (stdout w ++ [prompt]) (saved w), Ok l)
  end.

(** Lines 7-9 *)
Definition save_data (d : data') : IO unit := fun w =>
  (mkWorld (stdin w) (stdout w) (Some d), Ok tt).

(** Lines 11-16 *)
Fixpoint find_case_insensitive_key {V : Type} (d : list (string * V)) (key : string)
  : option string :=
  match d with
  | [] => None
  | (k, _) :: d' =>
      if String.eqb (Py.lower k) (Py.lower key) then Some k
      else find_case_insensitive_key d' key
  end.

(** [d.get(key, default)] on a dict with string keys, for a key that is a
    string or [None]. *)
Fixpoint get (d : planet) (key : option string) (default : Py.json) : Py.json :=
  match d, key with
  | (k, v) :: d', Some key' => if String.eqb k key' then v else get d' key default
  | _, _ => default
  end.

(** [d[key] = v]: the value of an existing key is replaced where it stands, a
    new key goes to the end. *)
Fixpoint setitem (key : option string) (v : Py.json) (d : planet') : planet' :=
  match d with
  | [] => [(key, v)]
  | (k, v') :: d' =>
      if bool_decide (k = key) then (k, v) :: d' else (k, v') :: setitem key v d'
  end.

(** The dict as it is in memory, before any assignment. *)
Definition loaded (p : planet) : planet' := map (fun '(k, v) => (Some k, v)) p.

(** Lines 18-38; the planet is changed in place, here the changed planet is
    returned. *)
Definition update_planet (planet_name : string) (planet : planet) : IO planet' :=
  let planet_length_key := find_case_insensitive_key planet "planet_length" in
  let hab_rank_key := find_case_insensitive_key planet "hab_rank" in
  let planet_length := get planet planet_length_key (Py.JStr "Unknown") in
  let hab_rank := get planet hab_rank_key (Py.JStr "Unknown") in
  _ ← print (planet_header planet_name);
  _ ← print (current_planet_length planet_length);
  _ ← print (current_hab_rank hab_rank);
  new_planet_length ← input prompt_planet_length;
  new_hab_rank ← input prompt_hab_rank;
  planet1 ←
    (if String.eqb new_planet_length "" then mret (loaded planet)
     else let planet1 :=
            setitem planet_length_key (Py.JStr new_planet_length) (loaded planet) in
          _ ← print (planet_length_updated planet_name new_planet_length);
          mret planet1);
  planet2 ←
    (if String.eqb new_hab_rank "" then mret planet1
     else let planet2 := setitem hab_rank_key (Py.JStr new_hab_rank) planet1 in
          _ ← print (hab_rank_updated planet_name new_hab_rank);
          mret planet2);
  _ ← print values_updated;
  mret planet2.

(** Lines 48-49: the planets of the system, in order. *)
Fixpoint update_planets (s : system) : IO system' :=
  match s with
  | [] => mret []
  | (planet_key, planet) :: s' =>
      planet' ← update_planet planet_key planet;
      s'' ← update_planets s';
      mret ((planet_key, planet') :: s'')
  end.

Definition loaded_system (s : system) : system' := map (fun '(k, p) => (k, loaded p)) s.
Definition loaded_data (d : data) : data' := map (fun '(k, s) => (k, loaded_system s)) d.

(** Lines 46-49 for the entry [data[system_key]]. *)
Fixpoint update_entry (system_key : string) (d : data) : IO data' :=
  match d with
  | [] => mret []
  | (k, s) :: d' =>
      if String.eqb k system_key then
        s' ← update_planets s;
        mret ((k, s') :: loaded_data d')
      else
        d'' ← update_entry system_key d';
        mret ((k, loaded_system s) :: d'')
  end.

(** Lines 40-49 *)
Definition update_system (d : data) (system_name : string) : IO data' :=
  match find_case_insensitive_key d system_name with
  | None => _ ← print system_not_found; mret (loaded_data d)
  | Some system_key => update_entry system_key d
  end.

(** Lines 51-59, for the data [load_data] has read. *)
Definition main (d : data) : IO unit :=
  system_name ← input prompt_system_name;
  d' ← update_system d system_name;
  save_data d'.

(** The number of lines [main] reads: the system name, and two for each
    planet of the system that name finds. *)
Definition lines_needed (d : data) (system_name : string) : nat :=
  match find_case_insensitive_key d system_name with
  | None => 1
  | Some system_key =>
      match List.find (fun e => String.eqb (fst e) system_key) d with
      | Some (_, s) => S (2 * length s)
      | None => 1
      end
  end.

(** [d[key]] read back from a changed planet. *)
Fixpoint getitem (d : planet') (key : option string) : option Py.json :=
  match d with
  | [] => None
  | (k, v) :: d' => if bool_decide (k = key) then Some v else getitem d' key
  end.

End PlanetSearchUpdate.

(** ** Words for the further statements *)

(** The body with another fauna value, for the examples. *)
Definition with_fauna (v : Py.json) (d : RawBody.t) : RawBody.t :=
  RawBody.mk (RawBody.atmosphere d) v (RawBody.flora d) (RawBody.gravity d)
    (RawBody.hab_rank d) (RawBody.magnetosphere d) (RawBody.planet_length d)
    (RawBody.temperature d) (RawBody.type d) (RawBody.water d) (RawBody.biomes d)
    (RawBody.traits d) (RawBody.resources d) (RawBody.domesticable d)
    (RawBody.gatherable d).

(** The wording of the specification for the gravity: "raw value is a
    string with a trailing unit marker; strip the marker and surrounding
    whitespace, parse as float". *)
Definition spec_parse_gravity (raw : string) : option Py.float :=
  Py.float_of_string (Py.strip (Restructure.drop_trailing "g" (Py.strip raw))).

(** The bodies of the raw file with their system and name, in the order the
    two loops of lines 108-109 visit them. *)
Definition raw_bodies (raw : list (string * list (string * RawBody.t)))
  : list (string * string * RawBody.t) :=
  flat_map (fun '(system_name, bodies) =>
    map (fun '(body_name, d) => (system_name, body_name, d)) bodies) raw.

(** The loop body of the normalizer over a list of such bodies. *)
Definition normalize_bodies (bodies : list (string * string * RawBody.t))
  : Py.M (list Restructure.line) (list Body.t) :=
  Py.for_collect bodies (fun '(system_name, body_name, d) =>
    Restructure.normalize_body system_name body_name d).

(** A text of space characters only. *)
Fixpoint all_space (s : string) : bool :=
  match s with
  | EmptyString => true
  | String c s' => Py.is_space c && all_space s'
  end.

(** The body with other traits and resources, for the examples. *)
Definition with_traits (traits resources : list string) (d : RawBody.t) : RawBody.t :=
  RawBody.mk (RawBody.atmosphere d) (RawBody.fauna d) (RawBody.flora d) (RawBody.gravity d)
    (RawBody.hab_rank d) (RawBody.magnetosphere d) (RawBody.planet_length d)
    (RawBody.temperature d) (RawBody.type d) (RawBody.water d) (RawBody.biomes d)
    traits resources (RawBody.domesticable d) (RawBody.gatherable d).

(** The (system, body) pairs of the raw file, in the order of the file. *)
Definition raw_keys (raw : list (string * list (string * RawBody.t))) : list (string * string) :=
  flat_map (fun '(system_name, bodies) =>
    map (fun '(body_name, _) => (system_name, body_name)) bodies) raw.

(** The elements of a list that stand where a list of flags has the given
    flag, in their order. *)
Fixpoint pick {A : Type} (flag : bool) (flags : list bool) (xs : list A) : list A :=
  match flags, xs with
  | f :: flags', x :: xs' =>
      if Bool.eqb f flag then x :: pick flag flags' xs' else pick flag flags' xs'
  | _, _ => []
  end.

(** The count a name has in the items of a [Counter], 0 when it has none. *)
Fixpoint count_of (x : string) (counts : list (string * nat)) : nat :=
  match counts with
  | [] => 0%nat
  | (y, n) :: counts' => if String.eqb x y then n else count_of x counts'
  end.

(** [resources] takes a row whose full name no row has. *)
Definition keyed_resources (schema : CreateDb.Schema) : Prop :=
  forall row st,
    existsb (fun r => String.eqb (Resource.resource r) (Resource.resource row))
      (CreateDb.resources st) = false ->
    CreateDb.resources_ok schema row st = true.

(** What sqlite3 binds to a parameter of an INSERT: [None], a [bool], an
    [int] of 64 bits, a [float] and a [str]. An [int] outside 64 bits raises
    [OverflowError] and a list or a dict an error of the interface; neither
    is an [IntegrityError], and [execute] has neither: a statement that a load
    runs to its end is about rows that bind. *)
Definition fits_int64 (z : Z) : bool := (- 2 ^ 63 <=? z) && (z <? 2 ^ 63).

Definition bindable (v : Py.json) : bool :=
  match v with
  | Py.JNull | Py.JBool _ | Py.JFloat _ | Py.JStr _ => true
  | Py.JInt z => fits_int64 z
  | Py.JArr _ | Py.JObj _ => false
  end.

Definition binds_resource (r : Resource.t) : bool :=
  bindable (Resource.rarity r) && bindable (Resource.type r) && bindable (Resource.mass r)
  && bindable (Resource.value r) && bindable (Resource.valueToMass r).

Definition binds_body (body : Body.t) : bool :=
  fits_int64 (Body.fauna body) && fits_int64 (Body.flora body)
  && fits_int64 (Body.hab_rank body) && fits_int64 (Body.planet_length body).

(** How often a name stands in a list. *)
Definition occurrences (x : string) (names : list string) : nat :=
  length (List.filter (String.eqb x) names).

(** ** Ordinal order on strings and on (system, name) keys *)

(** [a] comes strictly before [b]: a proper prefix comes first, otherwise the
    first character that differs decides by its code. *)
Inductive lex_lt : string -> string -> Prop :=
| lex_lt_nil c t : lex_lt EmptyString (String c t)
| lex_lt_head c d s t : (Py.code c < Py.code d)%N -> lex_lt (String c s) (String d t)
| lex_lt_tail c s t : lex_lt s t -> lex_lt (String c s) (String c t).

Definition lex_le (a b : string) : Prop := lex_lt a b \/ a = b.

(** Pairs: by the first component, by the second among equal firsts. *)
Definition key_le (a b : string * string) : Prop :=
  lex_lt (fst a) (fst b) \/ (fst a = fst b /\ lex_le (snd a) (snd b)).

(** ** Facts about the builtins *)

Module PyFacts.
Import Py.

(** *** The builtins on a few texts *)

Example int_of_string_signed : int_of_string " -1_000 " = Some (-1000).
Proof. reflexivity. Qed.

Example int_of_string_rejects :
  map int_of_string [""; " "; "5_"; "1__0"; "--5"; "3.0"; "24 hours"; "None"]
  = [None; None; None; None; None; None; None; None].
Proof. reflexivity. Qed.

Example float_of_string_accepts :
  map float_of_string ["1.5e1"; ".5"; "1_0."; "+.5e-1"; "-Infinity"; "nan"; " 40 "]
  = [Some (Fin (15 # 1)); Some (Fin (1 # 2)); Some (Fin (10 # 1)); Some (Fin (1 # 20));
     Some NegInf; Some NaN; Some (Fin (40 # 1))].
Proof. reflexivity. Qed.

Example float_of_string_rejects :
  map float_of_string [""; "."; "e5"; "1e"; "1_.5"; "forty"; "4 0"]
  = [None; None; None; None; None; None; None].
Proof. reflexivity. Qed.

Example split_keeps_empty_pieces : split " " " 7  hours" = [""; "7"; ""; "hours"].
Proof. reflexivity. Qed.

Example ws_tokens_skips_runs : ws_tokens "  a  bc d " = ["a"; "bc"; "d"].
Proof. reflexivity. Qed.

Example strip_both_ends : strip "  a b  " = "a b".
Proof. reflexivity. Qed.

Example sort_is_stable :
  sort str_lt fst [("b", 1); ("a", 2); ("b", 3); ("a", 4)]
  = [("a", 2); ("a", 4); ("b", 1); ("b", 3)].
Proof. reflexivity. Qed.

Lemma compare_lt_lex a b : String.compare a b = Lt <-> lex_lt a b.
Proof.
  revert b. induction a as [|c a IH]; intros [|d b]; simpl.
  - split; [discriminate | inversion 1].
  - split; [constructor | reflexivity].
  - split; [discriminate | inversion 1].
  - unfold Ascii.compare. destruct (N.compare_spec (N_of_ascii c) (N_of_ascii d)) as [E|L|G].
    + apply (f_equal ascii_of_N) in E. rewrite !ascii_N_embedding in E. subst d.
      rewrite IH. split; [apply lex_lt_tail|].
      inversion 1; subst; [unfold code in *; lia | assumption].
    + split; [intros _; apply lex_lt_head; exact L | reflexivity].
    + split; [discriminate|].
      inversion 1; subst; unfold code in *; lia.
Qed.

Lemma str_lt_lex a b : str_lt a b = true <-> lex_lt a b.
Proof.
  unfold str_lt, String.ltb. rewrite <- compare_lt_lex.
  destruct (String.compare a b); split; congruence.
Qed.

Lemma lex_lt_irrefl a : ~ lex_lt a a.
Proof. induction a; inversion 1; subst; [lia | auto]. Qed.

Lemma lex_lt_trans a b c : lex_lt a b -> lex_lt b c -> lex_lt a c.
Proof.
  intros H. revert c. induction H; intros c' H'; inversion H'; subst.
  - constructor.
  - constructor.
  - apply lex_lt_head. lia.
  - apply lex_lt_head. assumption.
  - apply lex_lt_head. assumption.
  - apply lex_lt_tail. auto.
Qed.

Lemma lex_trichotomy a b : lex_lt a b \/ a = b \/ lex_lt b a.
Proof.
  destruct (String.compare a b) eqn:E.
  - right; left. apply String.compare_eq_iff, E.
  - left. apply compare_lt_lex, E.
  - right; right. apply compare_lt_lex. rewrite String.compare_antisym, E. reflexivity.
Qed.

Lemma str_lt_false a b : str_lt b a = false <-> lex_le a b.
Proof.
  split.
  - intros H. destruct (lex_trichotomy a b) as [L|[E|G]]; [left; exact L | right; exact E |].
    apply str_lt_lex in G. congruence.
  - intros [L|E]; destruct (str_lt b a) eqn:F; try reflexivity; apply str_lt_lex in F.
    + destruct (lex_lt_irrefl a). eapply lex_lt_trans; eassumption.
    + subst. destruct (lex_lt_irrefl b F).
Qed.

Lemma lex_le_trans a b c : lex_le a b -> lex_le b c -> lex_le a c.
Proof.
  intros [L1|E1] [L2|E2]; subst; try (left; assumption); try (right; reflexivity).
  left. eapply lex_lt_trans; eassumption.
Qed.

Lemma tuple_lt_false a b : tuple_lt b a = false <-> key_le a b.
Proof.
  unfold tuple_lt, key_le. destruct (String.eqb_spec (fst b) (fst a)) as [E|N].
  - rewrite str_lt_false. split.
    + intros H. right. split; [congruence | exact H].
    + intros [L|[_ H]]; [|exact H]. rewrite E in L. destruct (lex_lt_irrefl _ L).
  - rewrite str_lt_false. split.
    + intros [L|E]; [left; exact L | congruence].
    + intros [L|[E _]]; [left; exact L | congruence].
Qed.

Lemma key_le_trans a b c : key_le a b -> key_le b c -> key_le a c.
Proof.
  intros [L1|[E1 H1]] [L2|[E2 H2]].
  - left. eapply lex_lt_trans; eassumption.
  - left. rewrite <- E2. exact L1.
  - left. rewrite E1. exact L2.
  - right. split; [congruence | eapply lex_le_trans; eassumption].
Qed.

(** *** [list.sort]: a sorted, stable rearrangement *)

Section SortFacts.
Context {A K : Type} (lt : K -> K -> bool) (key : A -> K).
Hypothesis le_total : forall a b, lt a b = true -> lt b a = false.
Hypothesis le_trans : forall a b c, lt b a = false -> lt c b = false -> lt c a = false.

(** [x] may stand before [y]. *)
Let le (x y : A) : Prop := lt (key y) (key x) = false.

Lemma insert_sorted_perm x l : Permutation (x :: l) (insert_sorted lt key x l).
Proof.
  induction l as [|y l IH]; simpl; [reflexivity|].
  destruct (lt (key x) (key y)); [reflexivity|].
  rewrite perm_swap. apply perm_skip, IH.
Qed.

Lemma sort_from_perm l acc :
  Permutation (acc ++ l) (fold_left (fun acc x => insert_sorted lt key x acc) l acc).
Proof.
  revert acc. induction l as [|x l IH]; intros acc; simpl.
  - rewrite app_nil_r. reflexivity.
  - rewrite <- IH, <- insert_sorted_perm.
    symmetry. apply Permutation_middle.
Qed.

Lemma sort_perm l : Permutation l (sort lt key l).
Proof. apply (sort_from_perm l []). Qed.

Lemma insert_sorted_sorted x l :
  StronglySorted le l -> StronglySorted le (insert_sorted lt key x l).
Proof.
  induction 1 as [|y l Hs IH Hy]; simpl; [repeat constructor|].
  destruct (lt (key x) (key y)) eqn:E.
  - constructor; [constructor; assumption|].
    assert (Hxy : le x y) by (apply le_total, E).
    constructor; [exact Hxy|].
    eapply Forall_impl; [exact Hy|]. intros z Hz. eapply le_trans; eassumption.
  - constructor; [exact IH|].
    rewrite <- (insert_sorted_perm x l). constructor; assumption.
Qed.

Lemma sort_from_sorted l acc :
  StronglySorted le acc ->
  StronglySorted le (fold_left (fun acc x => insert_sorted lt key x acc) l acc).
Proof.
  revert acc. induction l as [|x l IH]; intros acc H; simpl; [exact H|].
  apply IH, insert_sorted_sorted, H.
Qed.

Lemma sort_sorted l : StronglySorted le (sort lt key l).
Proof. apply sort_from_sorted. constructor. Qed.

(** Stability: the elements whose key is equivalent to [k] keep their
    order. *)
Variable k : K.
Variable P : A -> bool.
Hypothesis P_key : forall x, P x = true -> lt (key x) k = false /\ lt k (key x) = false.

Lemma filter_none (l : list A) :
  (forall z, In z l -> P z = false) -> List.filter P l = [].
Proof.
  induction l as [|y l IH]; intros H; simpl; [reflexivity|].
  rewrite (H y) by (left; reflexivity). apply IH. intros z Hz. apply H. right. exact Hz.
Qed.

Lemma insert_sorted_filter x l :
  StronglySorted le l ->
  List.filter P (insert_sorted lt key x l) = List.filter P l ++ List.filter P [x].
Proof.
  induction 1 as [|y l Hs IH Hy]; simpl; [reflexivity|].
  destruct (lt (key x) (key y)) eqn:E.
  - simpl. destruct (P x) eqn:Px; [|rewrite app_nil_r; reflexivity].
    assert (Hnone : List.filter P (y :: l) = []).
    { apply filter_none. intros z Hz.
      assert (Hxz : lt (key x) (key z) = true).
      { destruct Hz as [->|Hz]; [exact E|].
        rewrite Forall_forall in Hy.
        destruct (lt (key x) (key z)) eqn:F; [reflexivity|].
        assert (Hyz : le y z) by (apply Hy, list_elem_of_In, Hz).
        pose proof (le_trans _ _ _ Hyz F) as C. rewrite E in C. discriminate C. }
      destruct (P z) eqn:Pz; [|reflexivity].
      destruct (P_key _ Px) as [Hx _]. destruct (P_key _ Pz) as [_ Hz'].
      pose proof (le_trans _ _ _ Hz' Hx) as C. rewrite Hxz in C. discriminate C. }
    simpl in Hnone. rewrite Hnone. reflexivity.
  - simpl. destruct (P y); simpl; rewrite IH; reflexivity.
Qed.

Lemma sort_from_filter l acc :
  StronglySorted le acc ->
  List.filter P (fold_left (fun acc x => insert_sorted lt key x acc) l acc)
  = List.filter P acc ++ List.filter P l.
Proof.
  revert acc. induction l as [|x l IH]; intros acc H; simpl.
  - rewrite app_nil_r. reflexivity.
  - rewrite IH by (apply insert_sorted_sorted, H).
    rewrite insert_sorted_filter by exact H. simpl.
    destruct (P x); simpl; rewrite <- ?app_assoc; simpl; rewrite ?app_nil_r; reflexivity.
Qed.

Lemma sort_stable l : List.filter P (sort lt key l) = List.filter P l.
Proof. apply (sort_from_filter l []). constructor. Qed.

End SortFacts.

Lemma str_lt_asym a b : str_lt a b = true -> str_lt b a = false.
Proof.
  intros H. apply str_lt_false. left. apply str_lt_lex, H.
Qed.

Lemma str_le_trans a b c :
  str_lt b a = false -> str_lt c b = false -> str_lt c a = false.
Proof. rewrite !str_lt_false. apply lex_le_trans. Qed.

Lemma tuple_lt_asym a b : tuple_lt a b = true -> tuple_lt b a = false.
Proof.
  unfold tuple_lt. rewrite (String.eqb_sym (fst b) (fst a)).
  destruct (String.eqb (fst a) (fst b)); apply str_lt_asym.
Qed.

Lemma tuple_le_trans a b c :
  tuple_lt b a = false -> tuple_lt c b = false -> tuple_lt c a = false.
Proof. rewrite !tuple_lt_false. apply key_le_trans. Qed.

(** *** [split], [join] and the tokens *)

Lemma split_cons c s : exists p ps, split c s = p :: ps.
Proof.
  induction s as [|a s [p [ps IH]]]; simpl; [eauto|].
  destruct (Ascii.eqb a c); [eauto|]. rewrite IH. eauto.
Qed.

Lemma first_split c s : exists p, first (split c s) = Ok p.
Proof. destruct (split_cons c s) as [p [ps ->]]. simpl. eauto. Qed.

Lemma last_cons p ps : exists q, last (p :: ps) = Ok q.
Proof.
  revert p. induction ps as [|p' ps IH]; intros p; simpl; [eauto|]. apply IH.
Qed.

Lemma last_split c s : exists p, last (split c s) = Ok p.
Proof. destruct (split_cons c s) as [p [ps ->]]. apply last_cons. Qed.

Lemma append_String a s t : String a s +:+ t = String a (s +:+ t).
Proof. reflexivity. Qed.

Lemma append_assoc s t u : (s +:+ t) +:+ u = s +:+ t +:+ u.
Proof.
  induction s as [|a s IH]; [reflexivity|].
  rewrite !append_String. f_equal. exact IH.
Qed.

(** Joining the pieces with the separator gives the text back. *)
Lemma join_split c s : join (String c EmptyString) (split c s) = s.
Proof.
  induction s as [|a s IH]; simpl; [reflexivity|].
  destruct (Ascii.eqb_spec a c) as [->|N].
  - destruct (split_cons c s) as [p [ps E]]. rewrite E in *.
    change (join (String c EmptyString) (EmptyString :: p :: ps))
      with (EmptyString +:+ String c EmptyString +:+ join (String c EmptyString) (p :: ps)).
    rewrite IH. reflexivity.
  - destruct (split_cons c s) as [p [ps E]]. rewrite E in *.
    destruct ps; simpl in *; rewrite <- IH; reflexivity.
Qed.

(** No piece holds the separator. *)
Lemma split_pieces c s p : In p (split c s) -> contains c p = false.
Proof.
  revert p. induction s as [|a s IH]; simpl; intros p H.
  - destruct H as [<-|[]]. reflexivity.
  - destruct (Ascii.eqb a c) eqn:E.
    + destruct H as [<-|H]; [reflexivity | apply IH, H].
    + destruct (split_cons c s) as [q [qs Eq]]. rewrite Eq in *.
      destruct H as [<-|H].
      * simpl. rewrite E. apply IH. left. reflexivity.
      * apply IH. right. exact H.
Qed.

Lemma last_In ps q : last ps = Ok q -> In q ps.
Proof.
  induction ps as [|p ps IH]; simpl; [discriminate|].
  destruct ps; [intros [= ->]; left; reflexivity | intros H; right; apply IH, H].
Qed.

(** With two pieces or more, the joined text is the join of all pieces but
    the last, the separator, and the last piece. *)
Lemma join_but_last sep p p' ps q :
  last (p :: p' :: ps) = Ok q ->
  join sep (p :: p' :: ps) = join sep (but_last (p :: p' :: ps)) +:+ sep +:+ q.
Proof.
  revert p p'. induction ps as [|p'' ps IH]; intros p p' H.
  - simpl in H. injection H as ->. reflexivity.
  - change (last (p' :: p'' :: ps) = Ok q) in H. specialize (IH _ _ H).
    change (join sep (p :: p' :: p'' :: ps)) with (p +:+ sep +:+ join sep (p' :: p'' :: ps)).
    rewrite IH.
    change (but_last (p :: p' :: p'' :: ps)) with (p :: but_last (p' :: p'' :: ps)).
    destruct (but_last (p' :: p'' :: ps)) as [|b bs] eqn:E; [destruct ps; discriminate E|].
    change (join sep (p :: b :: bs)) with (p +:+ sep +:+ join sep (b :: bs)).
    rewrite !append_assoc. reflexivity.
Qed.

Lemma contains_split_one c s : contains c s = false -> split c s = [s].
Proof.
  induction s as [|a s IH]; simpl; [reflexivity|].
  destruct (Ascii.eqb a c); simpl; [discriminate|]. intros H. rewrite (IH H). reflexivity.
Qed.

Lemma split_two c s : contains c s = true -> exists p p' ps, split c s = p :: p' :: ps.
Proof.
  induction s as [|a s IH]; simpl; [discriminate|].
  destruct (Ascii.eqb a c); simpl.
  - intros _. destruct (split_cons c s) as [p [ps ->]]. eauto.
  - intros H. destruct (IH H) as [p [p' [ps ->]]]. eauto.
Qed.

(** The shape of a text with the separator in it: what [split] makes of it
    is the text before the last separator and the text after it. *)
Lemma split_last_shape c s :
  contains c s = true ->
  exists q, last (split c s) = Ok q /\ contains c q = false /\
    s = join (String c EmptyString) (but_last (split c s)) +:+ String c q.
Proof.
  intros H. destruct (split_two c s H) as [p [p' [ps E]]].
  destruct (last_cons p (p' :: ps)) as [q Hq].
  exists q. rewrite E. split; [exact Hq|]. split.
  - apply (split_pieces c s). rewrite E. apply last_In, Hq.
  - rewrite <- (join_split c s) at 1. rewrite E.
    rewrite (join_but_last _ _ _ _ _ Hq). reflexivity.
Qed.

Lemma first_split_partition c s :
  first (split c s) = Ok (fst (Restructure.partition_first c s)).
Proof.
  induction s as [|a s IH]; simpl; [reflexivity|].
  destruct (Ascii.eqb a c); [reflexivity|].
  destruct (split_cons c s) as [p [ps E]]. rewrite E in *.
  destruct (Restructure.partition_first c s) as [b r]. simpl in *. congruence.
Qed.

Lemma space_is_space c : Ascii.eqb c " " = true -> is_space c = true.
Proof. intros H. apply Ascii.eqb_eq in H. subst. reflexivity. Qed.

Lemma not_space_neq c : is_space c = false -> Ascii.eqb c " " = false.
Proof.
  intros H. destruct (Ascii.eqb c " ") eqn:E; [|reflexivity].
  apply space_is_space in E. congruence.
Qed.

(** On a single-spaced text, splitting at the spaces gives the tokens. *)
Lemma single_spaced_tokens s :
  (Restructure.single_spaced_from true s = true -> ws_tokens s = split " " s) /\
  (forall c, is_space c = false -> Restructure.single_spaced_from false s = true ->
     ws_tokens (String c s) = split " " (String c s)).
Proof.
  induction s as [|a s [IHa IHb]].
  - split; [discriminate|]. intros c Hc _. simpl. rewrite Hc, (not_space_neq c Hc). reflexivity.
  - split.
    + cbn [Restructure.single_spaced_from]. destruct (Ascii.eqb a " ") eqn:E; [discriminate|].
      intros H. apply andb_prop in H as [Ha Hs]. apply negb_true_iff in Ha.
      apply IHb; assumption.
    + intros c Hc. cbn [Restructure.single_spaced_from].
      destruct (Ascii.eqb a " ") eqn:E.
      * intros H. simpl in H. specialize (IHa H).
        cbn [ws_tokens split]. rewrite Hc, (not_space_neq c Hc), E, (space_is_space a E).
        rewrite IHa. reflexivity.
      * intros H. apply andb_prop in H as [Ha Hs]. apply negb_true_iff in Ha.
        specialize (IHb a Ha Hs).
        change (ws_tokens (String c (String a s)))
          with (if is_space c then ws_tokens (String a s)
                else if is_space a then String c EmptyString :: ws_tokens (String a s)
                else match ws_tokens (String a s) with
                     | t :: ts => String c t :: ts
                     | [] => [String c EmptyString]
                     end).
        change (split " " (String c (String a s)))
          with (if Ascii.eqb c " " then EmptyString :: split " " (String a s)
                else match split " " (String a s) with
                     | p :: ps => String c p :: ps
                     | [] => [String c EmptyString]
                     end).
        rewrite Hc, Ha, (not_space_neq c Hc), IHb. reflexivity.
Qed.

Lemma single_spaced_split s :
  Restructure.single_spaced s = true -> ws_tokens s = split " " s.
Proof. apply single_spaced_tokens. Qed.

End PyFacts.

(** ** The normalizer *)

Module RestructureSpec.
Import Py PyFacts Restructure.

Ltac monad :=
  unfold mbind, M_bind, mret, M_ret, lift, raise, modify, try_except, print.

Lemma last_after_last c s : last (split c s) = Ok (after_last c s).
Proof.
  induction s as [|a s IH]; [reflexivity|].
  cbn [split after_last]. destruct (contains c s) eqn:C.
  - destruct (split_two c s C) as [p [p' [ps E]]]. rewrite E in *.
    destruct (Ascii.eqb a c); exact IH.
  - rewrite (contains_split_one c s C). destruct (Ascii.eqb a c); reflexivity.
Qed.

Lemma int_or_zero_eq msg system_name body_name raw out :
  int_or_zero msg system_name body_name raw out =
  match int raw with
  | Ok z => (out, Ok z)
  | Raise ValueError => (out ++ [msg raw system_name body_name], Ok 0)
  | Raise e => (out, Raise e)
  end.
Proof. unfold int_or_zero. monad. destruct (int raw) as [z|[]]; reflexivity. Qed.

Lemma int_or_zero_guarded msg system_name body_name raw out :
  int_guarded raw = true ->
  int_or_zero msg system_name body_name raw out =
  (out ++ int_lines msg system_name body_name raw, Ok (int_or 0 raw)).
Proof.
  rewrite int_or_zero_eq. unfold int_guarded, int_lines, int_or.
  destruct (int raw) as [z|[]]; try discriminate; rewrite ?app_nil_r; reflexivity.
Qed.

Lemma parse_planet_length_eq system_name body_name raw out :
  parse_planet_length system_name body_name raw out =
  (out ++ planet_length_lines system_name body_name raw,
   Ok (default 24 (planet_length_of raw))).
Proof.
  unfold parse_planet_length, planet_length_lines, planet_length_of. monad.
  destruct raw; try reflexivity. simpl.
  rewrite first_split_partition. simpl.
  destruct (int_of_string _); simpl; rewrite ?app_nil_r; reflexivity.
Qed.

Lemma parse_biome_raises biome_str e : parse_biome biome_str = Raise e -> e = ValueError.
Proof.
  unfold parse_biome. destruct (contains "%" biome_str); [|discriminate].
  rewrite last_after_last. destruct (float_of_string _); [discriminate|]. congruence.
Qed.

Lemma parse_biomes_eq system_name body_name raw acc out :
  parse_biomes system_name body_name raw acc out =
  (out ++ biome_warnings system_name body_name raw, Ok (acc ++ biomes_of raw)).
Proof.
  revert acc out. induction raw as [|biome_str raw IH]; intros acc out.
  - simpl. rewrite !app_nil_r. reflexivity.
  - cbn [parse_biomes biome_warnings biomes_of flat_map]. monad.
    destruct (parse_biome biome_str) as [b|e] eqn:E.
    + simpl. rewrite IH. rewrite <- app_assoc. reflexivity.
    + rewrite (parse_biome_raises _ _ E). simpl. rewrite IH.
      rewrite <- !app_assoc. reflexivity.
Qed.

Lemma normalize_biomes_eq system_name body_name raw out :
  normalize_biomes system_name body_name raw out =
  (out ++ biome_warnings system_name body_name raw,
   Ok (sort str_lt Biome.name (biomes_of raw))).
Proof. unfold normalize_biomes. monad. rewrite parse_biomes_eq. reflexivity. Qed.

Lemma parse_organic_eq dom : parse_organic dom = Ok (organic_of dom).
Proof.
  unfold parse_organic, organic_of.
  rewrite first_split_partition, last_after_last. reflexivity.
Qed.

Lemma for_collect_lift {W A B} (f : A -> result B) (g : A -> B) (xs : list A) (w : W) :
  (forall x, f x = Ok (g x)) ->
  for_collect xs (fun x => lift (f x)) w = (w, Ok (map g xs)).
Proof.
  intros H. unfold lift. induction xs as [|x xs IH]; [reflexivity|].
  cbn [for_collect]. unfold mbind, M_bind. rewrite H, IH. reflexivity.
Qed.

Lemma normalize_organics_eq raw out :
  normalize_organics raw out =
  (out, Ok (sort str_lt OrganicResource.name (map organic_of raw))).
Proof.
  unfold normalize_organics, mbind, M_bind.
  rewrite (for_collect_lift parse_organic organic_of) by apply parse_organic_eq.
  reflexivity.
Qed.

(** One body, when nothing is raised: the record and the lines printed. *)
Lemma normalize_body_eq system_name body_name d out g :
  float_of_string (strip (remove_char "g" (RawBody.gravity d))) = Some g ->
  int_guarded (RawBody.fauna d) = true ->
  int_guarded (RawBody.flora d) = true ->
  int_guarded (RawBody.hab_rank d) = true ->
  normalize_body system_name body_name d out =
  (out ++ int_lines invalid_fauna system_name body_name (RawBody.fauna d)
       ++ int_lines invalid_flora system_name body_name (RawBody.flora d)
       ++ int_lines invalid_hab_rank system_name body_name (RawBody.hab_rank d)
       ++ planet_length_lines system_name body_name (RawBody.planet_length d)
       ++ biome_warnings system_name body_name (RawBody.biomes d),
   Ok (Body.mk system_name body_name (lower (RawBody.atmosphere d))
         (int_or 0 (RawBody.fauna d)) (int_or 0 (RawBody.flora d)) g
         (int_or 0 (RawBody.hab_rank d)) (lower (RawBody.magnetosphere d))
         (default 24 (planet_length_of (RawBody.planet_length d)))
         (lower (RawBody.temperature d)) (RawBody.type d) (lower (RawBody.water d))
         (sort str_lt Biome.name (biomes_of (RawBody.biomes d)))
         (sort str_lt id (sort str_lt id (RawBody.traits d)))
         (RawBody.resources d)
         (sort str_lt OrganicResource.name (map organic_of (RawBody.domesticable d)))
         (sort str_lt OrganicResource.name (map organic_of (RawBody.gatherable d))))).
Proof.
  intros Hg Hfa Hfl Hh. unfold normalize_body.
  unfold mbind at 1, M_bind at 1. rewrite (int_or_zero_guarded _ _ _ _ _ Hfa).
  unfold mbind at 1, M_bind at 1. rewrite (int_or_zero_guarded _ _ _ _ _ Hfl).
  unfold mbind at 1, M_bind at 1. unfold parse_gravity. rewrite Hg.
  unfold mret at 1, M_ret at 1.
  unfold mbind at 1, M_bind at 1. rewrite (int_or_zero_guarded _ _ _ _ _ Hh).
  unfold mbind at 1, M_bind at 1. rewrite parse_planet_length_eq.
  unfold mbind at 1, M_bind at 1. rewrite normalize_biomes_eq.
  unfold mbind at 1, M_bind at 1. rewrite normalize_organics_eq.
  unfold mbind at 1, M_bind at 1. rewrite normalize_organics_eq.
  unfold mret, M_ret. rewrite <- !app_assoc. reflexivity.
Qed.

Lemma join_cons_String sep a p ps : join sep (String a p :: ps) = String a (join sep (p :: ps)).
Proof. destruct ps; reflexivity. Qed.

Lemma but_last_before_last c s :
  join (String c EmptyString) (but_last (split c s)) = before_last c s.
Proof.
  induction s as [|a s IH]; [reflexivity|].
  cbn [split before_last]. destruct (contains c s) eqn:C.
  - destruct (split_two c s C) as [p [p' [ps E]]]. rewrite E in *.
    change (but_last (p :: p' :: ps)) with (p :: but_last (p' :: ps)) in IH.
    destruct (Ascii.eqb_spec a c) as [->|N].
    + change (but_last (EmptyString :: p :: p' :: ps))
        with (EmptyString :: p :: but_last (p' :: ps)).
      change (join (String c EmptyString) (EmptyString :: p :: but_last (p' :: ps)))
        with (EmptyString +:+ String c EmptyString
              +:+ join (String c EmptyString) (p :: but_last (p' :: ps))).
      rewrite IH. reflexivity.
    + change (but_last (String a p :: p' :: ps)) with (String a p :: but_last (p' :: ps)).
      rewrite join_cons_String, IH. reflexivity.
  - rewrite (contains_split_one c s C). destruct (Ascii.eqb a c); reflexivity.
Qed.

(** A text with [c] in it is the text before the last [c], then [c], then
    the text after it, and that last part has no [c]. *)
Lemma before_after_last c s :
  contains c s = true ->
  s = before_last c s +:+ String c (after_last c s) /\ contains c (after_last c s) = false.
Proof.
  intros H. destruct (split_last_shape c s H) as [q [Hq [Hc Hs]]].
  rewrite last_after_last in Hq. injection Hq as <-.
  rewrite but_last_before_last in Hs. split; assumption.
Qed.

Lemma parse_biome_eq biome_str :
  parse_biome biome_str =
  if contains "%" biome_str then
    match float_of_string (remove_char "%" (after_last " " biome_str)) with
    | Some f => Ok (Biome.mk (before_last " " biome_str) (float_div_const f 100))
    | None => Raise ValueError
    end
  else Ok (Biome.mk biome_str (Fin 0)).
Proof.
  unfold parse_biome. rewrite last_after_last, but_last_before_last. reflexivity.
Qed.

Lemma parse_biome_single_spaced biome_str :
  single_spaced biome_str = true -> parse_biome biome_str = spec_parse_biome biome_str.
Proof.
  intros H. unfold parse_biome, spec_parse_biome.
  rewrite (single_spaced_split _ H).
  destruct (contains "%" biome_str); [|reflexivity].
  destruct (last_split " " biome_str) as [q ->]. reflexivity.
Qed.

Lemma sorted_by_name {A} (name : A -> string) (l : list A) :
  StronglySorted (fun a b => lex_le (name a) (name b)) (sort str_lt name l).
Proof.
  pose proof (sort_sorted str_lt name str_lt_asym str_le_trans l) as H.
  induction H as [|x l' Hs IH Hx]; constructor; [exact IH|].
  eapply Forall_impl; [exact Hx|]. intros y Hy. apply str_lt_false, Hy.
Qed.

Lemma in_unit_interval_div q :
  (0 <= q)%Q -> (q <= 100)%Q -> in_unit_interval (float_div_const (Fin q) 100).
Proof.
  intros H0 H1. unfold float_div_const, in_unit_interval.
  rewrite !Qred_correct. destruct q as [n d].
  unfold Qle, Qdiv, Qmult, Qinv in *. simpl in *. lia.
Qed.

Lemma bind_ok_inv {W A B} (m : M W A) (f : A -> M W B) w w' b :
  (m ≫= f) w = (w', Ok b) -> exists a w1, m w = (w1, Ok a) /\ f a w1 = (w', Ok b).
Proof.
  unfold mbind, M_bind. destruct (m w) as [w1 [a|e]]; [eauto | discriminate].
Qed.

Lemma int_or_zero_ok_inv msg system_name body_name raw out out' z :
  int_or_zero msg system_name body_name raw out = (out', Ok z) -> int_guarded raw = true.
Proof.
  rewrite int_or_zero_eq. unfold int_guarded.
  destruct (int raw) as [?|[]]; (reflexivity || discriminate).
Qed.

(** A body is produced only when the gravity is a number and none of the
    three counts raises anything but [ValueError]. *)
Lemma normalize_body_ok_inv system_name body_name d out out' b :
  normalize_body system_name body_name d out = (out', Ok b) ->
  exists g,
    float_of_string (strip (remove_char "g" (RawBody.gravity d))) = Some g
    /\ int_guarded (RawBody.fauna d) = true
    /\ int_guarded (RawBody.flora d) = true
    /\ int_guarded (RawBody.hab_rank d) = true.
Proof.
  unfold normalize_body. intros H.
  apply bind_ok_inv in H as (fauna & o1 & Hfa & H).
  apply bind_ok_inv in H as (flora & o2 & Hfl & H).
  apply bind_ok_inv in H as (g & o3 & Hg & H).
  apply bind_ok_inv in H as (hab & o4 & Hh & _).
  exists g. repeat split; try (eapply int_or_zero_ok_inv; eassumption).
  unfold parse_gravity in Hg.
  destruct (float_of_string _); [|discriminate Hg]. injection Hg as _ ->. reflexivity.
Qed.

Lemma biomes_of_In biome raw :
  In biome (biomes_of raw) ->
  exists biome_str, In biome_str raw /\ parse_biome biome_str = Ok biome.
Proof.
  unfold biomes_of. rewrite in_flat_map. intros (biome_str & Hin & H).
  exists biome_str. split; [exact Hin|].
  destruct (parse_biome biome_str) as [b'|e]; [|destruct H].
  destruct H as [->|[]]. reflexivity.
Qed.

(** *** Biomes *)

(** C3 (as stated, refuted): the code cuts at space characters only and keeps
    what lies between them. With a tab before the percentage the string is
    one piece, its coverage text is not a number and the biome is dropped,
    while its whitespace-separated tokens are a name and 40%. With two
    spaces inside the name the code keeps both, while the tokens rejoined
    with single spaces have one. *)
Lemma biome_split_is_on_spaces :
  (parse_biome ("Arctic" +:+ String "009" "40%") = Raise ValueError
   /\ spec_parse_biome ("Arctic" +:+ String "009" "40%")
      = Ok (Biome.mk "Arctic" (Fin (2 # 5))))
  /\ (parse_biome "Arctic  Tundra 40%" = Ok (Biome.mk "Arctic  Tundra" (Fin (2 # 5)))
      /\ spec_parse_biome "Arctic  Tundra 40%" = Ok (Biome.mk "Arctic Tundra" (Fin (2 # 5))))
  /\ parse_biome ("Arctic" +:+ String "009" "40%")
     <> spec_parse_biome ("Arctic" +:+ String "009" "40%")
  /\ parse_biome "Arctic  Tundra 40%" <> spec_parse_biome "Arctic  Tundra 40%".
Proof.
  split; [split; reflexivity|]. split; [split; reflexivity|].
  split; vm_compute; discriminate.
Qed.

(** C3 (amended): the biomes of a body are the biomes its strings yield,
    sorted by name (ascending, stable), and one line is printed for each
    string that yields none. A string without a percent sign yields itself
    with coverage 0.0. A string with one is cut at its last space: the name
    is the text before it (empty when there is no space, inner spacing
    kept), the coverage is the text after it without its percent signs, read
    as a number and divided by 100; when that text is not a number the string
    yields no biome. For a string whose tokens are separated by single spaces
    this is the rule on whitespace-separated tokens. The two strings
    "Arctic 40%" and "Desert" give Arctic with 0.40 and Desert with 0.0. *)
Theorem biomes_normalized system_name body_name (raw : list string) (out : list line) :
  normalize_biomes system_name body_name raw out
  = (out ++ biome_warnings system_name body_name raw,
     Ok (sort str_lt Biome.name (biomes_of raw)))
  /\ Permutation (biomes_of raw) (sort str_lt Biome.name (biomes_of raw))
  /\ StronglySorted (fun a b => lex_le (Biome.name a) (Biome.name b))
       (sort str_lt Biome.name (biomes_of raw))
  /\ (forall biome_str,
        parse_biome biome_str =
        if contains "%" biome_str then
          match float_of_string (remove_char "%" (after_last " " biome_str)) with
          | Some f => Ok (Biome.mk (before_last " " biome_str) (float_div_const f 100))
          | None => Raise ValueError
          end
        else Ok (Biome.mk biome_str (Fin 0)))
  /\ (forall biome_str, contains " " biome_str = true ->
        biome_str = before_last " " biome_str +:+ String " " (after_last " " biome_str)
        /\ contains " " (after_last " " biome_str) = false)
  /\ (forall biome_str, single_spaced biome_str = true ->
        parse_biome biome_str = spec_parse_biome biome_str)
  /\ normalize_biomes system_name body_name ["Arctic 40%"; "Desert"] []
     = ([], Ok [Biome.mk "Arctic" (Fin (2 # 5)); Biome.mk "Desert" (Fin 0)]).
Proof.
  split; [apply normalize_biomes_eq|].
  split; [apply sort_perm|].
  split; [apply sorted_by_name|].
  split; [apply parse_biome_eq|].
  split; [intros s H; apply before_after_last, H|].
  split; [apply parse_biome_single_spaced|].
  reflexivity.
Qed.

Lemma biomes_normalized_witness :
  (contains " " "Arctic 40%" = true /\ single_spaced "Arctic 40%" = true)
  /\ "Arctic 40%" = before_last " " "Arctic 40%" +:+ String " " (after_last " " "Arctic 40%")
  /\ parse_biome "Arctic 40%" = spec_parse_biome "Arctic 40%".
Proof.
  destruct (biomes_normalized "Sol" "Earth" ["Arctic 40%"; "Desert"] [])
    as (_ & _ & _ & _ & Hcut & Hspec & _).
  split; [split; reflexivity|].
  split; [apply Hcut; reflexivity | apply Hspec; reflexivity].
Defined.

(** C7 (as stated, refuted): a biome written with 140% gets the coverage
    1.4, which is not in [0,1]. *)
Lemma coverage_above_one :
  exists out b biome,
    normalize_body "Sol" "Earth" (with_biomes ["Arctic 140%"] earth) [] = (out, Ok b)
    /\ In biome (Body.biomes b)
    /\ Biome.coverage biome = Fin (7 # 5)
    /\ ~ in_unit_interval (Biome.coverage biome).
Proof.
  eexists _, _, (Biome.mk "Arctic" (Fin (7 # 5))).
  split; [vm_compute; reflexivity|].
  split; [left; reflexivity|].
  split; [reflexivity|].
  simpl. intros [_ H]. revert H. vm_compute. intros H. apply H. reflexivity.
Qed.

(** C7 (amended): every biome of a normalized body has the coverage 0.0 when
    its string has no percent sign, and otherwise the number written after
    the last space of its string divided by 100; that coverage is in [0,1]
    when the number written is between 0 and 100. Nothing checks the range. *)
Theorem coverage_is_percentage system_name body_name (d : RawBody.t)
    (out out' : list line) (b : Body.t) (biome : Biome.t) :
  normalize_body system_name body_name d out = (out', Ok b) ->
  In biome (Body.biomes b) ->
  exists biome_str, In biome_str (RawBody.biomes d) /\
    ((contains "%" biome_str = false /\ Biome.coverage biome = Fin 0)
     \/ (contains "%" biome_str = true /\
         exists p, float_of_string (remove_char "%" (after_last " " biome_str)) = Some p
           /\ Biome.coverage biome = float_div_const p 100
           /\ forall q, p = Fin q -> (0 <= q)%Q -> (q <= 100)%Q ->
                in_unit_interval (Biome.coverage biome))).
Proof.
  intros H Hin.
  destruct (normalize_body_ok_inv _ _ _ _ _ _ H) as (g & Hg & Hfa & Hfl & Hh).
  rewrite (normalize_body_eq _ _ _ _ _ Hg Hfa Hfl Hh) in H.
  injection H as _ <-. cbn [Body.biomes] in Hin.
  apply (Permutation_in _ (Permutation_sym (sort_perm str_lt Biome.name _))) in Hin.
  apply biomes_of_In in Hin as (biome_str & Hraw & Hp).
  exists biome_str. split; [exact Hraw|].
  rewrite parse_biome_eq in Hp. destruct (contains "%" biome_str).
  - right. split; [reflexivity|].
    destruct (float_of_string _) as [p|]; [|discriminate Hp].
    injection Hp as <-. exists p. split; [reflexivity|]. split; [reflexivity|].
    intros q -> H0 H1. apply in_unit_interval_div; assumption.
  - left. injection Hp as <-. split; reflexivity.
Qed.

Lemma coverage_is_percentage_witness :
  exists biome_str, In biome_str (RawBody.biomes earth) /\
    ((contains "%" biome_str = false /\ Fin (7 # 10) = Fin 0)
     \/ (contains "%" biome_str = true /\
         exists p, float_of_string (remove_char "%" (after_last " " biome_str)) = Some p
           /\ Fin (7 # 10) = float_div_const p 100
           /\ forall q, p = Fin q -> (0 <= q)%Q -> (q <= 100)%Q ->
                in_unit_interval (Fin (7 # 10)))).
Proof.
  refine (coverage_is_percentage "Sol" "Earth" earth [] _ _ (Biome.mk "Ocean" (Fin (7 # 10))) _ _).
  - vm_compute. reflexivity.
  - right. left. reflexivity.
Defined.

(** *** Numeric fields *)

Lemma int_guarded_str s : int_guarded (JStr s) = true.
Proof. unfold int_guarded. simpl. destruct (int_of_string s); reflexivity. Qed.

Lemma spec_planet_length_single_spaced t :
  single_spaced t = true ->
  spec_planet_length (JStr t) = default 24 (planet_length_of (JStr t)).
Proof.
  intros H. unfold spec_planet_length, planet_length_of.
  rewrite (single_spaced_split _ H).
  pose proof (first_split_partition " " t) as F.
  destruct (split " " t) as [|p ps]; [discriminate F|].
  injection F as <-. destruct (int_of_string p); reflexivity.
Qed.

(** C4 (as stated, refuted): the code cuts the planet length at the first
    space character only. With a tab after the number nothing is cut, the
    text is not an integer and the length is 24 with a line printed, while
    the first whitespace-separated token is 7. *)
Lemma planet_length_split_is_on_spaces :
  parse_planet_length "Sol" "Earth" (JStr ("7" +:+ String "009" "hours")) []
  = ([invalid_planet_length (JStr ("7" +:+ String "009" "hours")) "Sol" "Earth"], Ok 24)
  /\ spec_planet_length (JStr ("7" +:+ String "009" "hours")) = 7
  /\ snd (parse_planet_length "Sol" "Earth" (JStr ("7" +:+ String "009" "hours")) [])
     <> Ok (spec_planet_length (JStr ("7" +:+ String "009" "hours"))).
Proof. repeat split; try reflexivity. vm_compute. discriminate. Qed.

(** C4 (amended): when the gravity is a number and [int] raises nothing but
    [ValueError] on the fauna, flora and hab_rank values (every string is
    such a value), the body is produced; each of the three fields is what
    [int] returns, and 0 with a line printed when [int] raises [ValueError].
    The planet length is the integer written before the first space
    character of a string, and 24 with a line printed for any other string
    and for any value that is not a string. For a string whose tokens are
    separated by single spaces that is the first whitespace-separated
    token. *)
Theorem numeric_fallbacks system_name body_name (d : RawBody.t) (out : list line)
    (g : float) :
  float_of_string (strip (remove_char "g" (RawBody.gravity d))) = Some g ->
  int_guarded (RawBody.fauna d) = true ->
  int_guarded (RawBody.flora d) = true ->
  int_guarded (RawBody.hab_rank d) = true ->
  exists out' b,
    normalize_body system_name body_name d out = (out', Ok b)
    /\ Body.fauna b = int_or 0 (RawBody.fauna d)
    /\ Body.flora b = int_or 0 (RawBody.flora d)
    /\ Body.hab_rank b = int_or 0 (RawBody.hab_rank d)
    /\ (int (RawBody.fauna d) = Raise ValueError ->
        Body.fauna b = 0
        /\ In (invalid_fauna (RawBody.fauna d) system_name body_name) out')
    /\ (int (RawBody.flora d) = Raise ValueError ->
        Body.flora b = 0
        /\ In (invalid_flora (RawBody.flora d) system_name body_name) out')
    /\ (int (RawBody.hab_rank d) = Raise ValueError ->
        Body.hab_rank b = 0
        /\ In (invalid_hab_rank (RawBody.hab_rank d) system_name body_name) out')
    /\ Body.planet_length b = default 24 (planet_length_of (RawBody.planet_length d))
    /\ (planet_length_of (RawBody.planet_length d) = None ->
        Body.planet_length b = 24
        /\ In (invalid_planet_length (RawBody.planet_length d) system_name body_name) out')
    /\ (forall t, RawBody.planet_length d = JStr t -> single_spaced t = true ->
        Body.planet_length b = spec_planet_length (RawBody.planet_length d))
    /\ (forall s, int_guarded (JStr s) = true).
Proof.
  intros Hg Hfa Hfl Hh. eexists _, _.
  split; [apply (normalize_body_eq _ _ _ _ _ Hg Hfa Hfl Hh)|].
  cbn [Body.fauna Body.flora Body.hab_rank Body.planet_length].
  repeat (split; [reflexivity|]).
  split; [|split; [|split; [|split; [reflexivity|split; [|split; [|apply int_guarded_str]]]]]].
  - intros E. unfold int_or, int_lines. rewrite E. split; [reflexivity|].
    rewrite !in_app_iff. right. left. left. reflexivity.
  - intros E. unfold int_or, int_lines at 2. rewrite E. split; [reflexivity|].
    rewrite !in_app_iff. right. right. left. left. reflexivity.
  - intros E. unfold int_or, int_lines at 3. rewrite E. split; [reflexivity|].
    rewrite !in_app_iff. do 3 right. left. left. reflexivity.
  - intros E. unfold planet_length_lines. rewrite E. split; [reflexivity|].
    rewrite !in_app_iff. do 4 right. left. left. reflexivity.
  - intros t E Hs. rewrite E. symmetry. apply spec_planet_length_single_spaced, Hs.
Qed.

Lemma numeric_fallbacks_witness :
  exists out' b,
    normalize_body "Sol" "Earth" earth [] = (out', Ok b)
    /\ (int (RawBody.flora earth) = Raise ValueError /\ Body.flora b = 0
        /\ In (invalid_flora (RawBody.flora earth) "Sol" "Earth") out')
    /\ Body.fauna b = 3
    /\ (single_spaced "24 hours" = true /\ Body.planet_length b = 24).
Proof.
  destruct (numeric_fallbacks "Sol" "Earth" earth [] (Fin 1))
    as (out' & b & H & Hfa & _ & _ & _ & Hfl & _ & _ & _ & Hpl & _);
    [reflexivity | reflexivity | reflexivity | reflexivity |].
  exists out', b. split; [exact H|].
  split; [split; [reflexivity | apply Hfl; reflexivity]|].
  split; [exact Hfa|].
  split; [reflexivity | apply (Hpl "24 hours"); reflexivity].
Defined.

(** *** Gravity *)

Lemma for_collect_raises {W A B} (f : A -> M W B) (xs : list A) (x : A) :
  In x xs ->
  (forall w, exists w' e, f x w = (w', Raise e)) ->
  forall w, exists w' e, for_collect xs f w = (w', Raise e).
Proof.
  intros Hin Hx. induction xs as [|y xs IH]; [destruct Hin|].
  intros w. cbn [for_collect]. unfold mbind at 1, M_bind at 1.
  destruct (f y w) as [w1 [b|e]] eqn:E; [|eauto].
  destruct Hin as [->|Hin].
  - destruct (Hx w) as (w' & e & E'). congruence.
  - destruct (IH Hin w1) as (w' & e & E'). unfold mbind, M_bind. rewrite E'. eauto.
Qed.

Lemma normalize_body_gravity_raises system_name body_name d :
  float_of_string (strip (remove_char "g" (RawBody.gravity d))) = None ->
  forall out, exists out' e, normalize_body system_name body_name d out = (out', Raise e).
Proof.
  intros Hg out. unfold normalize_body.
  unfold mbind at 1, M_bind at 1. destruct (int_or_zero _ _ _ _ out) as [o1 [fa|e]]; [|eauto].
  unfold mbind at 1, M_bind at 1. destruct (int_or_zero _ _ _ _ o1) as [o2 [fl|e]]; [|eauto].
  unfold mbind at 1, M_bind at 1. unfold parse_gravity. rewrite Hg. unfold raise. eauto.
Qed.

Lemma normalize_all_raises raw system_name bodies body_name d :
  In (system_name, bodies) raw ->
  In (body_name, d) bodies ->
  (forall out, exists out' e, normalize_body system_name body_name d out = (out', Raise e)) ->
  forall out, exists out' e, normalize_all raw out = (out', Raise e).
Proof.
  intros Hs Hb Hd out. unfold normalize_all. unfold mbind, M_bind.
  destruct (for_collect_raises
              (fun '(system_name, bodies) => normalize_system system_name bodies)
              raw (system_name, bodies) Hs) with (w := out) as (out' & e & E).
  - intros w. unfold normalize_system.
    apply (for_collect_raises
             (fun '(body_name, body_data) => normalize_body system_name body_name body_data)
             bodies (body_name, d) Hb). exact Hd.
  - rewrite E. eauto.
Qed.

(** *** Organic resources *)

Lemma contains_app_r c s t : contains c (s +:+ String c t) = true.
Proof.
  induction s as [|a s IH]; simpl.
  - rewrite Ascii.eqb_refl. reflexivity.
  - rewrite ?append_String. simpl. rewrite IH. apply orb_true_r.
Qed.

Lemma partition_first_app c before rest :
  contains c before = false ->
  partition_first c (before +:+ String c rest) = (before, Some rest).
Proof.
  induction before as [|a s IH]; simpl.
  - intros _. rewrite Ascii.eqb_refl. reflexivity.
  - rewrite ?append_String. simpl. destruct (Ascii.eqb a c); [discriminate|].
    simpl. intros H. rewrite (IH H). reflexivity.
Qed.

(** What [partition_first] returns: the text is the part before, [c], and
    the part after, and the part before has no [c]. *)
Lemma partition_first_shape c s b r :
  partition_first c s = (b, Some r) -> s = b +:+ String c r /\ contains c b = false.
Proof.
  revert b. induction s as [|a s IH]; simpl; intros b; [discriminate|].
  destruct (Ascii.eqb_spec a c) as [->|N].
  - intros [= <- <-]. split; reflexivity.
  - destruct (partition_first c s) as [b' r'] eqn:E. intros [= <- ->].
    destruct (IH b' eq_refl) as [-> Hb]. split; [reflexivity|].
    simpl. rewrite Hb. apply Ascii.eqb_neq in N. rewrite N. reflexivity.
Qed.

Lemma after_last_app c pre rest :
  contains c rest = false -> after_last c (pre +:+ String c rest) = rest.
Proof.
  intros H. induction pre as [|a s IH].
  - change (after_last c (String c rest) = rest). cbn [after_last].
    rewrite H, Ascii.eqb_refl. reflexivity.
  - rewrite append_String. cbn [after_last]. rewrite contains_app_r. exact IH.
Qed.

Lemma remove_char_app c s : contains c s = false -> remove_char c (s +:+ String c EmptyString) = s.
Proof.
  induction s as [|a s IH]; simpl.
  - intros _. change (remove_char c (String c EmptyString) = EmptyString).
    simpl. rewrite Ascii.eqb_refl. reflexivity.
  - rewrite ?append_String. simpl. destruct (Ascii.eqb a c); [discriminate|].
    simpl. intros H. rewrite (IH H). reflexivity.
Qed.

Lemma drop_trailing_app c s : drop_trailing c (s +:+ String c EmptyString) = s.
Proof.
  induction s as [|a s IH].
  - change (drop_trailing c (String c EmptyString) = EmptyString).
    simpl. rewrite Ascii.eqb_refl. reflexivity.
  - rewrite append_String.
    destruct s as [|a' s']; [simpl; rewrite Ascii.eqb_refl; reflexivity|].
    rewrite append_String in *. cbn [drop_trailing] in *. rewrite IH. reflexivity.
Qed.

Lemma contains_app c s t : contains c (s +:+ t) = contains c s || contains c t.
Proof.
  induction s as [|a s IH]; [reflexivity|].
  rewrite append_String. simpl. rewrite IH. apply orb_assoc.
Qed.

Lemma organic_of_plain before inner :
  contains "(" before = false -> contains "(" inner = false -> contains ")" inner = false ->
  organic_of (before +:+ String "(" (inner +:+ String ")" EmptyString))
  = OrganicResource.mk (strip before) (strip inner)
  /\ spec_parse_organic (before +:+ String "(" (inner +:+ String ")" EmptyString))
     = Some (OrganicResource.mk (strip before) (strip inner)).
Proof.
  intros Hb Hi Hc.
  assert (Hr : contains "(" (inner +:+ String ")" EmptyString) = false).
  { rewrite contains_app, Hi. reflexivity. }
  unfold organic_of, spec_parse_organic.
  rewrite (partition_first_app _ _ _ Hb), (after_last_app _ _ _ Hr).
  rewrite (remove_char_app _ _ Hc), drop_trailing_app. split; reflexivity.
Qed.

(** C8 (as stated, refuted): with two pairs of parentheses the code takes the
    resource after the last opening parenthesis and drops every closing
    one; the text after the first opening parenthesis without its trailing
    closing one is something else. *)
Lemma organic_two_parentheses :
  parse_organic "Void Sloth (Big) (Argon)" = Ok (OrganicResource.mk "Void Sloth" "Argon")
  /\ spec_parse_organic "Void Sloth (Big) (Argon)"
     = Some (OrganicResource.mk "Void Sloth" "Big) (Argon")
  /\ Some (organic_of "Void Sloth (Big) (Argon)")
     <> spec_parse_organic "Void Sloth (Big) (Argon)".
Proof. repeat split; try reflexivity. vm_compute. discriminate. Qed.

(** C8 (amended): the domesticable (and the gatherable) list of a body holds
    one organic resource per entry, sorted by name (ascending, stable). The
    name of an entry is the text before its first opening parenthesis,
    trimmed; its resource is the text after its last opening parenthesis,
    without any closing parenthesis, trimmed; an entry without an opening
    parenthesis gives its trimmed text without closing parentheses as both.
    For an entry with one opening parenthesis and one closing parenthesis at
    its end this is the text before the parenthesis and the text inside.
    "Void Sloth (Argon)" gives Void Sloth and Argon. *)
Theorem organics_normalized (raw : list string) (out : list line) :
  normalize_organics raw out
  = (out, Ok (sort str_lt OrganicResource.name (map organic_of raw)))
  /\ Permutation (map organic_of raw)
       (sort str_lt OrganicResource.name (map organic_of raw))
  /\ StronglySorted (fun a b => lex_le (OrganicResource.name a) (OrganicResource.name b))
       (sort str_lt OrganicResource.name (map organic_of raw))
  /\ (forall dom, parse_organic dom = Ok (organic_of dom))
  /\ (forall dom, contains "(" dom = true ->
        (exists after, partition_first "(" dom = (fst (partition_first "(" dom), Some after)
           /\ dom = fst (partition_first "(" dom) +:+ String "(" after
           /\ contains "(" (fst (partition_first "(" dom)) = false)
        /\ dom = before_last "(" dom +:+ String "(" (after_last "(" dom)
        /\ contains "(" (after_last "(" dom) = false)
  /\ (forall dom, contains "(" dom = false ->
        organic_of dom = OrganicResource.mk (strip dom) (strip (remove_char ")" dom)))
  /\ (forall before inner,
        contains "(" before = false -> contains "(" inner = false ->
        contains ")" inner = false ->
        organic_of (before +:+ String "(" (inner +:+ String ")" EmptyString))
        = OrganicResource.mk (strip before) (strip inner)
        /\ spec_parse_organic (before +:+ String "(" (inner +:+ String ")" EmptyString))
           = Some (OrganicResource.mk (strip before) (strip inner)))
  /\ parse_organic "Void Sloth (Argon)" = Ok (OrganicResource.mk "Void Sloth" "Argon").
Proof.
  split; [apply normalize_organics_eq|].
  split; [apply sort_perm|].
  split; [apply sorted_by_name|].
  split; [apply parse_organic_eq|].
  split; [|split; [|split; [apply organic_of_plain | reflexivity]]].
  - intros dom H. split; [|apply before_after_last, H].
    destruct (partition_first "(" dom) as [b [r|]] eqn:E.
    + exists r. destruct (partition_first_shape _ _ _ _ E) as [-> Hb].
      simpl. repeat split. exact Hb.
    + exfalso. clear -H E. revert b E. induction dom as [|a s IH]; [discriminate H|].
      simpl in *. destruct (Ascii.eqb a "("); [discriminate|].
      destruct (partition_first "(" s) as [b' r'] eqn:E'. intros b [= <- ->].
      apply (IH H b'). reflexivity.
  - intros dom H. unfold organic_of.
    pose proof (first_split_partition "(" dom) as F.
    pose proof (last_after_last "(" dom) as L.
    rewrite (contains_split_one _ _ H) in F, L. simpl in F, L.
    injection F as <-. injection L as <-. reflexivity.
Qed.

Lemma organics_normalized_witness :
  (contains "(" "Void Sloth " = false /\ contains "(" "Argon" = false
   /\ contains ")" "Argon" = false)
  /\ organic_of "Void Sloth (Argon)" = OrganicResource.mk "Void Sloth" "Argon"
  /\ spec_parse_organic "Void Sloth (Argon)" = Some (OrganicResource.mk "Void Sloth" "Argon")
  /\ "Void Sloth (Argon)" = before_last "(" "Void Sloth (Argon)"
                             +:+ String "(" (after_last "(" "Void Sloth (Argon)")
  /\ organic_of "Argon" = OrganicResource.mk "Argon" "Argon".
Proof.
  destruct (organics_normalized ["Void Sloth (Argon)"] [])
    as (_ & _ & _ & _ & Hcut & Hnone & Hplain & _).
  split; [repeat split|].
  split; [apply (Hplain "Void Sloth " "Argon"); reflexivity|].
  split; [apply (Hplain "Void Sloth " "Argon"); reflexivity|].
  split; [apply (Hcut "Void Sloth (Argon)"); reflexivity|].
  apply (Hnone "Argon"). reflexivity.
Defined.

(** *** The galaxy *)

(** C9: the assembled galaxy is the sequence of bodies sorted by
    (system name, body name) in ascending ordinal order: it has the same
    bodies; of any two bodies the one in front has the system name that comes
    first by character codes, or the same system name and a body name that
    comes first or is the same; and bodies with the same system and name
    keep the order they came in. It is what [main] writes for the bodies it
    has normalized. *)
Theorem assemble_sorted (bodies : list Body.t) :
  Permutation bodies (assemble bodies)
  /\ StronglySorted
       (fun a b =>
          lex_lt (Body.system a) (Body.system b)
          \/ (Body.system a = Body.system b /\ lex_le (Body.name a) (Body.name b)))
       (assemble bodies)
  /\ (forall system_name body_name,
        List.filter
          (fun b => bool_decide (Body.system b = system_name /\ Body.name b = body_name))
          (assemble bodies)
        = List.filter
            (fun b => bool_decide (Body.system b = system_name /\ Body.name b = body_name))
            bodies)
  /\ (forall dump w,
        galaxy_json (fst (main dump w))
        = match normalize_all (starfield_data_updated_json w) (stdout w) with
          | (_, Ok galaxy) => Some (dump (assemble galaxy))
          | (_, Raise _) => galaxy_json w
          end).
Proof.
  split; [|split; [|split]].
  - apply sort_perm.
  - unfold assemble.
    pose proof (sort_sorted tuple_lt Body.key tuple_lt_asym tuple_le_trans bodies) as H.
    induction H as [|x l' Hs IH Hx]; constructor; [exact IH|].
    eapply Forall_impl; [exact Hx|]. intros y Hy.
    apply (tuple_lt_false (Body.system x, Body.name x) (Body.system y, Body.name y)), Hy.
  - intros system_name body_name.
    pose proof (sort_stable tuple_lt Body.key tuple_lt_asym tuple_le_trans
                  (system_name, body_name)) as H.
    assert (E : forall b : Body.t,
               bool_decide (Body.system b = system_name /\ Body.name b = body_name)
               = bool_decide (Body.key b = (system_name, body_name))).
    { intros b. apply bool_decide_ext. unfold Body.key. split.
      - intros [-> ->]. reflexivity.
      - intros [= -> ->]. split; reflexivity. }
    unfold assemble.
    rewrite (filter_ext _ _ E (sort tuple_lt Body.key bodies)), (filter_ext _ _ E bodies).
    apply H. intros x Hx. apply bool_decide_eq_true in Hx. rewrite Hx.
    assert (R : tuple_lt (system_name, body_name) (system_name, body_name) = false).
    { apply tuple_lt_false. right. split; [reflexivity | right; reflexivity]. }
    split; exact R.
  - intros dump w. unfold main.
    destruct (normalize_all (starfield_data_updated_json w) (stdout w)) as [out [g|e]];
      reflexivity.
Qed.

End RestructureSpec.

(** ** The loader *)

Module CreateDbSpec.
Import Py CreateDb.

Ltac monad :=
  unfold mbind, M_bind, mret, M_ret, lift, raise, modify, try_except, print, commit.

Lemma for_each_app {W A} (f : A -> M W unit) (xs ys : list A) (w : W) :
  for_each (xs ++ ys) f w =
  match for_each xs f w with
  | (w1, Ok _) => for_each ys f w1
  | (w1, Raise e) => (w1, Raise e)
  end.
Proof.
  revert w. induction xs as [|x xs IH]; intros w; [reflexivity|].
  cbn [app for_each]. unfold mbind, M_bind.
  destruct (f x w) as [w1 [[]|e]]; [apply IH | reflexivity].
Qed.

(** *** A loop of inserts into one table *)

Section Inserts.
Context {R X : Type} (ok : R -> Store -> bool) (add : R -> Store -> Store) (g : X -> R).

Lemma execute_eq row w :
  execute ok add row w =
  if ok row (con w) then (mkWorld (sf_db w) (add row (con w)) (stdout w), Ok tt)
  else (w, Raise IntegrityError).
Proof. reflexivity. Qed.

(** The loop touches neither the file nor the output; when it ends, every
    row has been added; it can only raise [IntegrityError]. *)
Lemma for_each_execute xs w w' r :
  for_each xs (fun x => execute ok add (g x)) w = (w', r) ->
  sf_db w' = sf_db w /\ stdout w' = stdout w
  /\ (r = Ok tt -> con w' = fold_left (fun st x => add (g x) st) xs (con w))
  /\ (forall e, r = Raise e -> e = IntegrityError).
Proof.
  revert w. induction xs as [|x xs IH]; intros w.
  - intros [= <- <-]. repeat split. intros e [=].
  - cbn [for_each]. unfold mbind, M_bind. rewrite execute_eq.
    destruct (ok (g x) (con w)).
    + intros H. apply IH in H as (H1 & H2 & H3 & H4). simpl in *. repeat split; assumption.
    + intros [= <- <-]. repeat split; [intros [=] | intros e [= <-]; reflexivity].
Qed.

Lemma for_each_execute_ok xs w :
  (forall row st, ok row st = true) ->
  for_each xs (fun x => execute ok add (g x)) w
  = (mkWorld (sf_db w) (fold_left (fun st x => add (g x) st) xs (con w)) (stdout w), Ok tt).
Proof.
  intros Hok. revert w. induction xs as [|x xs IH]; intros w.
  - destruct w; reflexivity.
  - cbn [for_each]. unfold mbind, M_bind. rewrite execute_eq, Hok, IH. reflexivity.
Qed.
End Inserts.

Lemma store_eta st :
  st = mkStore (resources st) (systems st) (bodies st) (traits st) (body_resources st)
         (body_organics st) (biomes st).
Proof. destruct st; reflexivity. Qed.

Lemma fold_add_trait {X} (g : X -> _) xs st :
  fold_left (fun st x => add_trait (g x) st) xs st
  = mkStore (resources st) (systems st) (bodies st) (traits st ++ map g xs)
      (body_resources st) (body_organics st) (biomes st).
Proof.
  revert st. induction xs as [|x xs IH]; intros st; simpl.
  - rewrite app_nil_r. apply store_eta.
  - rewrite IH. simpl. rewrite <- app_assoc. reflexivity.
Qed.

Lemma fold_add_body_organic {X} (g : X -> _) xs st :
  fold_left (fun st x => add_body_organic (g x) st) xs st
  = mkStore (resources st) (systems st) (bodies st) (traits st)
      (body_resources st) (body_organics st ++ map g xs) (biomes st).
Proof.
  revert st. induction xs as [|x xs IH]; intros st; simpl.
  - rewrite app_nil_r. apply store_eta.
  - rewrite IH. simpl. rewrite <- app_assoc. reflexivity.
Qed.

Lemma fold_add_biome {X} (g : X -> _) xs st :
  fold_left (fun st x => add_biome (g x) st) xs st
  = mkStore (resources st) (systems st) (bodies st) (traits st)
      (body_resources st) (body_organics st) (biomes st ++ map g xs).
Proof.
  revert st. induction xs as [|x xs IH]; intros st; simpl.
  - rewrite app_nil_r. apply store_eta.
  - rewrite IH. simpl. rewrite <- app_assoc. reflexivity.
Qed.

Lemma fold_add_system xs st :
  fold_left (fun st x => add_system x st) xs st
  = mkStore (resources st) (systems st ++ xs) (bodies st) (traits st)
      (body_resources st) (body_organics st) (biomes st).
Proof.
  revert st. induction xs as [|x xs IH]; intros st; simpl.
  - rewrite app_nil_r. apply store_eta.
  - rewrite IH. simpl. rewrite <- app_assoc. reflexivity.
Qed.

(** *** One body *)

Section Body.
Variable schema : Schema.
Variable shortname_map : gmap string string.

Lemma insert_body_resource_eq body resource w :
  insert_body_resource schema shortname_map body resource w =
  match shortname_map !! lower resource with
  | Some full =>
      execute (body_resources_ok schema) add_body_resource
        (Body.system body, Body.name body, full) w
  | None => (w, Raise KeyError)
  end.
Proof.
  unfold insert_body_resource, getitem. monad.
  destruct (shortname_map !! lower resource); reflexivity.
Qed.

(** The loop over the references touches neither the file nor the output;
    when it ends every reference was a key of the map and its row has been
    added. *)
Lemma for_each_resource body rs w w' r :
  for_each rs (insert_body_resource schema shortname_map body) w = (w', r) ->
  sf_db w' = sf_db w /\ stdout w' = stdout w
  /\ (r = Ok tt ->
      con w' = add_resource_rows shortname_map body rs (con w)
      /\ forall x, In x rs -> is_Some (shortname_map !! lower x))
  /\ (forall e, r = Raise e -> e = IntegrityError \/ e = KeyError).
Proof.
  revert w. induction rs as [|x rs IH]; intros w.
  - intros [= <- <-]. repeat split; try (intros e [=]).
    + unfold add_resource_rows. simpl. rewrite app_nil_r. apply store_eta.
    + intros y [].
  - cbn [for_each]. unfold mbind, M_bind. rewrite insert_body_resource_eq.
    destruct (shortname_map !! lower x) as [full|] eqn:L.
    + rewrite execute_eq. destruct (body_resources_ok schema _ (con w)).
      * intros H. apply IH in H as (H1 & H2 & H3 & H4). simpl in *.
        split; [assumption|]. split; [assumption|]. split; [|assumption].
        intros Hr. destruct (H3 Hr) as [Hc Hall]. split.
        -- rewrite Hc. unfold add_resource_rows. simpl.
           rewrite L. simpl. rewrite <- app_assoc. reflexivity.
        -- intros y [<-|Hy]; [rewrite L; eauto | apply Hall, Hy].
      * intros [= <- <-]. repeat split; try discriminate. intros e [= <-]; auto.
    + intros [= <- <-]. repeat split; try discriminate. intros e [= <-]; auto.
Qed.

Lemma for_each_resource_ok body rs w :
  (forall row st, body_resources_ok schema row st = true) ->
  (forall x, In x rs -> is_Some (shortname_map !! lower x)) ->
  for_each rs (insert_body_resource schema shortname_map body) w
  = (mkWorld (sf_db w) (add_resource_rows shortname_map body rs (con w)) (stdout w), Ok tt).
Proof.
  intros Hok. revert w. induction rs as [|x rs IH]; intros w Hres.
  - unfold add_resource_rows. simpl. rewrite app_nil_r, <- store_eta. destruct w; reflexivity.
  - cbn [for_each]. unfold mbind, M_bind. rewrite insert_body_resource_eq.
    destruct (Hres x) as [full L]; [left; reflexivity|]. rewrite L, execute_eq, Hok.
    rewrite IH by (intros y Hy; apply Hres; right; exact Hy).
    unfold add_resource_rows. simpl. rewrite L. simpl. rewrite <- app_assoc. reflexivity.
Qed.

(** With a table that takes any row, the first reference that is not a key
    raises [KeyError]. *)
Lemma for_each_resource_unresolved body rs w x :
  (forall row st, body_resources_ok schema row st = true) ->
  In x rs -> shortname_map !! lower x = None ->
  exists w', for_each rs (insert_body_resource schema shortname_map body) w
             = (w', Raise KeyError).
Proof.
  intros Hok. revert w. induction rs as [|y rs IH]; intros w Hin Hx; [destruct Hin|].
  cbn [for_each]. unfold mbind, M_bind. rewrite insert_body_resource_eq.
  destruct (shortname_map !! lower y) as [full|] eqn:L; [|eauto].
  rewrite execute_eq, Hok. destruct Hin as [->|Hin]; [congruence|].
  apply IH; assumption.
Qed.

(** The child rows of a body: the file and the output are untouched; when
    the rows are all in, the connection has exactly them more and every
    reference was a key. *)
Lemma insert_children_inv body w w' r :
  insert_children schema shortname_map body w = (w', r) ->
  sf_db w' = sf_db w /\ stdout w' = stdout w
  /\ (r = Ok tt ->
      con w' = add_children shortname_map body (con w)
      /\ resolves shortname_map body)
  /\ (forall e, r = Raise e -> e = IntegrityError \/ e = KeyError).
Proof.
  unfold insert_children. intros H.
  unfold mbind at 1, M_bind at 1 in H.
  destruct (for_each (Body.traits body) _ w) as [w1 r1] eqn:E1.
  apply for_each_execute in E1 as (A1 & B1 & C1 & D1).
  destruct r1 as [[]|e1].
  2: { injection H as <- <-. split; [exact A1|]. split; [exact B1|].
       split; [discriminate|]. intros e He. left. apply D1, He. }
  unfold mbind at 1, M_bind at 1 in H.
  destruct (for_each (Body.resources body) _ w1) as [w2 r2] eqn:E2.
  apply for_each_resource in E2 as (A2 & B2 & C2 & D2).
  destruct r2 as [[]|e2].
  2: { injection H as <- <-. split; [congruence|]. split; [congruence|].
       split; [discriminate|]. exact D2. }
  unfold mbind at 1, M_bind at 1 in H.
  destruct (for_each (Body.domesticable body) _ w2) as [w3 r3] eqn:E3.
  apply for_each_execute in E3 as (A3 & B3 & C3 & D3).
  destruct r3 as [[]|e3].
  2: { injection H as <- <-. split; [congruence|]. split; [congruence|].
       split; [discriminate|]. intros e He. left. apply D3, He. }
  unfold mbind at 1, M_bind at 1 in H.
  destruct (for_each (Body.gatherable body) _ w3) as [w4 r4] eqn:E4.
  apply for_each_execute in E4 as (A4 & B4 & C4 & D4).
  destruct r4 as [[]|e4].
  2: { injection H as <- <-. split; [congruence|]. split; [congruence|].
       split; [discriminate|]. intros e He. left. apply D4, He. }
  apply for_each_execute in H as (A5 & B5 & C5 & D5).
  split; [congruence|]. split; [congruence|]. split.
  - intros ->. split; [|exact (proj2 (C2 eq_refl))].
    rewrite (C5 eq_refl), (C4 eq_refl), (C3 eq_refl).
    destruct (C2 eq_refl) as [-> _]. rewrite (C1 eq_refl).
    rewrite fold_add_biome, !fold_add_body_organic, fold_add_trait.
    unfold add_children, add_resource_rows, trait_rows, resource_rows, organic_rows,
      biome_rows. simpl. rewrite <- app_assoc. reflexivity.
  - intros e He. left. apply D5, He.
Qed.

Lemma insert_children_ok body w :
  accepts_children schema -> resolves shortname_map body ->
  insert_children schema shortname_map body w
  = (mkWorld (sf_db w) (add_children shortname_map body (con w)) (stdout w), Ok tt).
Proof.
  intros (Ht & Hr & Ho & Hb) Hres. unfold insert_children.
  unfold mbind at 1, M_bind at 1. rewrite (for_each_execute_ok _ _ _ _ _ Ht).
  unfold mbind at 1, M_bind at 1. rewrite (for_each_resource_ok _ _ _ Hr Hres).
  unfold mbind at 1, M_bind at 1. rewrite (for_each_execute_ok _ _ _ _ _ Ho).
  unfold mbind at 1, M_bind at 1. rewrite (for_each_execute_ok _ _ _ _ _ Ho).
  rewrite (for_each_execute_ok _ _ _ _ _ Hb). simpl.
  rewrite fold_add_biome, !fold_add_body_organic, fold_add_trait.
  unfold add_children, add_resource_rows, trait_rows, resource_rows, organic_rows,
    biome_rows. simpl. rewrite <- app_assoc. reflexivity.
Qed.

Lemma insert_body_row_eq body w :
  insert_body_row schema body w =
  (if bodies_ok schema (row_of body) (con w)
   then mkWorld (sf_db w) (add_body (row_of body) (con w)) (stdout w)
   else mkWorld (sf_db w) (con w) (stdout w ++ [bad_data (row_of body)]),
   Ok tt).
Proof.
  unfold insert_body_row, try_except. rewrite execute_eq.
  destruct (bodies_ok schema (row_of body) (con w)); reflexivity.
Qed.

(** The world after the row of the body. *)
Lemma insert_body_row_world body w w' r :
  insert_body_row schema body w = (w', r) ->
  r = Ok tt /\ sf_db w' = sf_db w
  /\ (con w' = con w \/ con w' = add_body (row_of body) (con w)).
Proof.
  rewrite insert_body_row_eq. intros [= <- <-].
  destruct (bodies_ok schema (row_of body) (con w)); simpl; auto.
Qed.

(** A body that raises leaves the file as it was; a body that does not has
    its rows committed. *)
Lemma insert_body_inv body w w' r :
  insert_body schema shortname_map body w = (w', r) ->
  match r with
  | Ok _ =>
      sf_db w' = Some (con w') /\ resolves shortname_map body
      /\ exists w1, insert_body_row schema body w = (w1, Ok tt)
           /\ con w' = add_children shortname_map body (con w1)
           /\ stdout w' = stdout w1
  | Raise e => sf_db w' = sf_db w /\ (e = IntegrityError \/ e = KeyError)
  end.
Proof.
  unfold insert_body. unfold mbind at 1, M_bind at 1.
  destruct (insert_body_row schema body w) as [w1 r1] eqn:E1.
  destruct (insert_body_row_world _ _ _ _ E1) as (-> & S1 & _).
  unfold mbind, M_bind.
  destruct (insert_children schema shortname_map body w1) as [w2 r2] eqn:E2.
  apply insert_children_inv in E2 as (A2 & B2 & C2 & D2).
  destruct r2 as [[]|e2].
  - unfold commit, modify. intros [= <- <-]. simpl.
    destruct (C2 eq_refl) as [Hc Hr].
    split; [reflexivity|]. split; [exact Hr|]. exists w1. auto.
  - intros [= <- <-]. split; [congruence | apply D2; reflexivity].
Qed.

Lemma insert_body_unresolved body w x :
  In x (Body.resources body) -> shortname_map !! lower x = None ->
  exists w' e, insert_body schema shortname_map body w = (w', Raise e)
               /\ sf_db w' = sf_db w.
Proof.
  intros Hin Hx.
  destruct (insert_body schema shortname_map body w) as [w' [[]|e]] eqn:E.
  - apply insert_body_inv in E as (_ & Hr & _).
    destruct (Hr x Hin) as [v Hv]. congruence.
  - exists w', e. split; [reflexivity|]. apply insert_body_inv in E. apply E.
Qed.

Lemma insert_body_ok body w :
  accepts_children schema -> resolves shortname_map body ->
  insert_body schema shortname_map body w =
  (let st := add_children shortname_map body
               (if bodies_ok schema (row_of body) (con w)
                then add_body (row_of body) (con w) else con w) in
   mkWorld (Some st) st
     (if bodies_ok schema (row_of body) (con w) then stdout w
      else stdout w ++ [bad_data (row_of body)]),
   Ok tt).
Proof.
  intros Ha Hr. unfold insert_body.
  unfold mbind at 1, M_bind at 1. rewrite insert_body_row_eq.
  unfold mbind, M_bind. rewrite (insert_children_ok _ _ Ha Hr).
  unfold commit, modify. destruct (bodies_ok schema (row_of body) (con w)); reflexivity.
Qed.

(** With child tables that take any row, a body with a reference that is
    not a key raises [KeyError]. *)
Lemma insert_body_KeyError body w x :
  accepts_children schema ->
  In x (Body.resources body) -> shortname_map !! lower x = None ->
  exists w', insert_body schema shortname_map body w = (w', Raise KeyError)
             /\ sf_db w' = sf_db w.
Proof.
  intros (Ht & Hr & _) Hin Hx. unfold insert_body.
  unfold mbind at 1, M_bind at 1. rewrite insert_body_row_eq.
  unfold mbind, M_bind. unfold insert_children.
  unfold mbind at 1, M_bind at 1. rewrite (for_each_execute_ok _ _ _ _ _ Ht).
  unfold mbind at 1, M_bind at 1.
  match goal with
  | |- context [for_each (Body.resources body) _ ?w1] =>
      destruct (for_each_resource_unresolved body (Body.resources body) w1 x Hr Hin Hx)
        as [w' E];
      pose proof (for_each_resource _ _ _ _ _ E) as (A & _)
  end.
  rewrite E. exists w'. split; [reflexivity|]. rewrite A.
  destruct (bodies_ok schema (row_of body) (con w)); reflexivity.
Qed.

(** *** The loop over the bodies *)

(** The loop stops at the first body that raises; the file then holds what
    the bodies before it left. *)
Lemma insert_bodies_inv galaxy w w' r :
  insert_bodies schema galaxy shortname_map w = (w', r) ->
  match r with
  | Ok _ =>
      (galaxy = [] /\ w' = w \/ galaxy <> [] /\ sf_db w' = Some (con w'))
      /\ with_children shortname_map galaxy (con w) (con w')
      /\ systems (con w') = systems (con w)
      /\ (forall row, In row (bodies (con w')) ->
            In row (bodies (con w)) \/ In row (map row_of galaxy))
  | Raise e =>
      exists loaded rest w1,
        galaxy = loaded ++ rest /\ rest <> []
        /\ insert_bodies schema loaded shortname_map w = (w1, Ok tt)
        /\ sf_db w' = sf_db w1
  end.
Proof.
  unfold insert_bodies. revert w. induction galaxy as [|body galaxy IH]; intros w.
  - intros [= <- <-]. split; [left; auto|].
    unfold with_children. simpl. rewrite !app_nil_r. auto 10.
  - cbn [for_each]. unfold mbind, M_bind.
    destruct (insert_body schema shortname_map body w) as [w1 r1] eqn:E1.
    pose proof (insert_body_inv _ _ _ _ E1) as I1. destruct r1 as [[]|e1].
    + destruct I1 as (S1 & _ & w0 & E0 & C0 & _).
      destruct (insert_body_row_world _ _ _ _ E0) as (_ & _ & Hrow).
      intros H. pose proof (IH _ H) as I. destruct r as [[]|e].
      * destruct I as (Hs & Hc & Hsys & Hb). split; [|split; [|split]].
        -- right. split; [discriminate|].
           destruct Hs as [[-> ->]|[_ Hs]]; [exact S1 | exact Hs].
        -- assert (Same : traits (con w0) = traits (con w)
                          /\ body_resources (con w0) = body_resources (con w)
                          /\ body_organics (con w0) = body_organics (con w)
                          /\ biomes (con w0) = biomes (con w))
             by (destruct Hrow as [->| ->]; simpl; auto).
           destruct Same as (Et & Er & Eo & Eb).
           destruct Hc as (T & R & O & B). rewrite C0 in T, R, O, B.
           unfold add_children in T, R, O, B. cbn [traits body_resources body_organics biomes] in T, R, O, B.
           rewrite Et in T. rewrite Er in R. rewrite Eo in O. rewrite Eb in B.
           unfold with_children. cbn [flat_map].
           rewrite T, R, O, B, <- !app_assoc. auto.
        -- rewrite Hsys, C0. simpl. destruct Hrow as [->| ->]; reflexivity.
        -- intros row Hin. apply Hb in Hin as [Hin|Hin]; [|right; right; exact Hin].
           rewrite C0 in Hin. simpl in Hin.
           destruct Hrow as [Hrow|Hrow]; rewrite Hrow in Hin; [left; exact Hin|].
           simpl in Hin. apply in_app_iff in Hin as [Hin|[<-|[]]];
             [left; exact Hin | right; left; reflexivity].
      * destruct I as (loaded & rest & w2 & -> & Hne & El & Sl).
        exists (body :: loaded), rest, w2. split; [reflexivity|]. split; [exact Hne|].
        split; [|exact Sl]. cbn [for_each]. unfold mbind, M_bind. rewrite E1. exact El.
    + intros [= <- <-]. exists [], (body :: galaxy), w.
      split; [reflexivity|]. split; [discriminate|]. split; [reflexivity|]. apply I1.
Qed.

End Body.

(** *** The catalog and the systems *)

Section Preamble.
Variable schema : Schema.

Lemma insert_resources_loop_inv data m w w' r :
  insert_resources_loop schema data m w = (w', r) ->
  sf_db w' = sf_db w /\ stdout w' = stdout w
  /\ traits (con w') = traits (con w) /\ body_resources (con w') = body_resources (con w)
  /\ body_organics (con w') = body_organics (con w) /\ biomes (con w') = biomes (con w)
  /\ bodies (con w') = bodies (con w) /\ systems (con w') = systems (con w)
  /\ match r with
     | Ok m' => m' = shortname_map_from m data
     | Raise e => e = IntegrityError
     end.
Proof.
  revert m w. induction data as [|res data IH]; intros m w.
  - intros [= <- <-]. repeat split.
  - cbn [insert_resources_loop]. unfold mbind at 1, M_bind at 1.
    unfold insert_resource. unfold mbind at 1, M_bind at 1. rewrite execute_eq.
    destruct (resources_ok schema res (con w)).
    + unfold mret, M_ret. intros H. apply IH in H. simpl in H. exact H.
    + intros [= <- <-]. repeat split.
Qed.

Lemma insert_resources_inv data w w' r :
  insert_resources schema data w = (w', r) ->
  traits (con w') = traits (con w) /\ body_resources (con w') = body_resources (con w)
  /\ body_organics (con w') = body_organics (con w) /\ biomes (con w') = biomes (con w)
  /\ bodies (con w') = bodies (con w) /\ systems (con w') = systems (con w)
  /\ stdout w' = stdout w
  /\ match r with
     | Ok m => m = shortname_map_of data /\ sf_db w' = Some (con w')
     | Raise e => e = IntegrityError /\ sf_db w' = sf_db w
     end.
Proof.
  unfold insert_resources. unfold mbind at 1, M_bind at 1.
  destruct (insert_resources_loop schema data ∅ w) as [w1 r1] eqn:E.
  apply insert_resources_loop_inv in E as (A & B & T & R & O & Bi & Bo & Sy & M).
  destruct r1 as [m|e].
  - unfold mbind, M_bind, commit, modify, mret, M_ret. intros [= <- <-]. simpl.
    repeat split; assumption.
  - intros [= <- <-]. repeat split; assumption.
Qed.

Lemma insert_systems_inv galaxy w w' r :
  insert_systems schema galaxy w = (w', r) ->
  stdout w' = stdout w
  /\ match r with
     | Ok _ =>
         sf_db w' = Some (con w')
         /\ con w' = fold_left (fun st x => add_system x st)
                       (Counter (map Body.system galaxy)) (con w)
     | Raise e => e = IntegrityError /\ sf_db w' = sf_db w
     end.
Proof.
  unfold insert_systems. unfold mbind, M_bind.
  destruct (for_each (Counter (map Body.system galaxy)) _ w) as [w1 r1] eqn:E.
  change (for_each (Counter (map Body.system galaxy)) (execute (systems_ok schema) add_system) w
          = (w1, r1))
    with (for_each (Counter (map Body.system galaxy))
            (fun x => execute (systems_ok schema) add_system (id x)) w = (w1, r1)) in E.
  apply for_each_execute in E as (A & B & C & D).
  destruct r1 as [[]|e].
  - unfold commit, modify. intros [= <- <-]. simpl.
    split; [exact B|]. split; [reflexivity | apply C; reflexivity].
  - intros [= <- <-]. split; [exact B|]. split; [apply D; reflexivity | exact A].
Qed.

Lemma shortname_map_from_None m data k :
  m !! k = None ->
  (forall res, In res data ->
     lower (Resource.shortName res) <> k /\ lower (Resource.resource res) <> k) ->
  shortname_map_from m data !! k = None.
Proof.
  revert m. induction data as [|res data IH]; intros m Hm Hk; [exact Hm|].
  unfold shortname_map_from. cbn [fold_left]. apply IH.
  - destruct (Hk res) as [H1 H2]; [left; reflexivity|].
    rewrite !lookup_insert_ne by assumption. exact Hm.
  - intros res' Hin. apply Hk. right. exact Hin.
Qed.

Lemma unmatched_None catalog r :
  unmatched catalog r -> shortname_map_of catalog !! lower r = None.
Proof. intros H. apply shortname_map_from_None; [apply lookup_empty | exact H]. Qed.

End Preamble.
(** *** An unresolved reference *)

Lemma insert_bodies_unresolved schema shortname_map pre b post r w :
  In r (Body.resources b) -> shortname_map !! lower r = None ->
  exists w' e loaded rest w1,
    insert_bodies schema (pre ++ b :: post) shortname_map w = (w', Raise e)
    /\ pre = loaded ++ rest
    /\ insert_bodies schema loaded shortname_map w = (w1, Ok tt)
    /\ sf_db w' = sf_db w1
    /\ (accepts_children schema ->
        (forall x, In x pre -> resolves shortname_map x) ->
        e = KeyError /\ rest = []).
Proof.
  intros Hin Hr. unfold insert_bodies. revert w.
  induction pre as [|x pre IH]; intros w.
  - cbn [app for_each]. unfold mbind, M_bind.
    destruct (insert_body_unresolved schema shortname_map b w r Hin Hr) as (w' & e & E & S).
    rewrite E. exists w', e, [], [], w. repeat split; try assumption.
    destruct (insert_body_KeyError schema shortname_map b w r H Hin Hr) as (w'' & E' & _).
    congruence.
  - cbn [app for_each]. unfold mbind, M_bind.
    destruct (insert_body schema shortname_map x w) as [wx [[]|ex]] eqn:Ex.
    + destruct (IH wx) as (w' & e & loaded & rest & w1 & E & -> & El & S & K).
      exists w', e, (x :: loaded), rest, w1. split; [exact E|]. split; [reflexivity|].
      split; [cbn [for_each]; unfold mbind, M_bind; rewrite Ex; exact El|].
      split; [exact S|]. intros Ha Hres. apply K; [exact Ha|].
      intros y Hy. apply Hres. right. exact Hy.
    + exists wx, ex, [], (x :: pre), w. split; [reflexivity|]. split; [reflexivity|].
      split; [reflexivity|]. split; [apply (insert_body_inv _ _ _ _ _ _ Ex)|].
      intros Ha Hres. exfalso.
      rewrite (insert_body_ok schema shortname_map x w Ha) in Ex
        by (apply Hres; left; reflexivity).
      discriminate Ex.
Qed.

Lemma unresolved_reference_aborts schema catalog pre b post r w :
  In r (Body.resources b) ->
  unmatched catalog r ->
  exists w' e st loaded rest,
    main schema catalog (pre ++ b :: post) w = (w', Raise e)
    /\ sf_db w' = Some st
    /\ pre = loaded ++ rest
    /\ with_children (shortname_map_of catalog) loaded empty_store st
    /\ (forall row, In row (bodies st) -> In row (map row_of loaded))
    /\ (accepts_children schema ->
        (forall x, In x pre -> resolves (shortname_map_of catalog) x) ->
        (e = KeyError /\ rest = []) \/ (e = IntegrityError /\ loaded = [])).
Proof.
  intros Hin Hun. unfold main.
  unfold mbind at 1, M_bind at 1, connect_to_db, modify.
  unfold mbind at 1, M_bind at 1, install_schema, commit, modify. cbn [con sf_db stdout].
  set (wb := mkWorld (Some empty_store) empty_store _).
  unfold mbind at 1, M_bind at 1.
  destruct (insert_resources schema catalog wb) as [wc rc] eqn:Ec.
  apply insert_resources_inv in Ec as (T & R & O & Bi & Bo & Sy & _ & Hc).
  simpl in T, R, O, Bi, Bo, Sy.
  destruct rc as [m|ec].
  2: { destruct Hc as [-> Sc]. exists wc, IntegrityError, empty_store, [], pre.
       split; [reflexivity|]. split; [exact Sc|]. split; [reflexivity|].
       split; [unfold with_children; simpl; auto|]. split; [intros row []|].
       intros _ _. right. split; reflexivity. }
  destruct Hc as [-> Sc]. unfold insert_galaxy.
  unfold mbind at 1, M_bind at 1.
  destruct (insert_systems schema (pre ++ b :: post) wc) as [wd rd] eqn:Ed.
  apply insert_systems_inv in Ed as (_ & Hd).
  destruct rd as [[]|ed].
  2: { destruct Hd as [-> Sd]. exists wd, IntegrityError, (con wc), [], pre.
       split; [reflexivity|]. split; [congruence|]. split; [reflexivity|].
       split; [unfold with_children; simpl; auto|].
       split; [rewrite Bo; intros row []|].
       intros _ _. right. split; reflexivity. }
  destruct Hd as [Sd Cd]. rewrite fold_add_system in Cd.
  destruct (insert_bodies_unresolved schema (shortname_map_of catalog) pre b post r wd
              Hin (unmatched_None catalog r Hun))
    as (w' & e & loaded & rest & w1 & E & Hpre & El & S & K).
  rewrite E. exists w', e, (con w1), loaded, rest.
  apply insert_bodies_inv in El as (Hs & (T1 & R1 & O1 & B1) & _ & Hb).
  rewrite Cd in T1, R1, O1, B1, Hb. cbn [traits body_resources body_organics biomes bodies] in *.
  split; [reflexivity|]. split.
  { rewrite S. destruct Hs as [[_ ->]|[_ Hs]]; [exact Sd | exact Hs]. }
  split; [exact Hpre|]. split.
  { unfold with_children. simpl. rewrite T1, R1, O1, B1, T, R, O, Bi. auto. }
  split.
  { intros row Hrow. apply Hb in Hrow as [Hrow|Hrow]; [|exact Hrow].
    rewrite Bo in Hrow. destruct Hrow. }
  intros Ha Hres. left. apply K; assumption.
Qed.

(** C2: a body with a reference that matches no name of the catalog,
    letter case aside, stops the run: [main] ends with an exception and the
    status 1; the file then holds the child rows of some of the bodies that
    come before that body and of no other, and its body rows are rows of
    those bodies. When the child tables take any row and the references of
    the earlier bodies are keys, either the catalog or the systems were
    rejected (nothing of the galaxy is in the file) or the exception is the
    [KeyError] of that body and the file holds all the bodies before it. *)
Theorem unresolved_reference_is_fatal (schema : Schema) (catalog : list Resource.t)
    (pre : list Body.t) (b : Body.t) (post : list Body.t) (r : string) (w : World) :
  In r (Body.resources b) ->
  unmatched catalog r ->
  exists w' e st loaded rest,
    main schema catalog (pre ++ b :: post) w = (w', Raise e)
    /\ exit_status (snd (main schema catalog (pre ++ b :: post) w)) = 1
    /\ sf_db w' = Some st
    /\ pre = loaded ++ rest
    /\ with_children (shortname_map_of catalog) loaded empty_store st
    /\ (forall row, In row (bodies st) -> In row (map row_of loaded))
    /\ (accepts_children schema ->
        (forall x, In x pre -> resolves (shortname_map_of catalog) x) ->
        (e = KeyError /\ rest = []) \/ (e = IntegrityError /\ loaded = [])).
Proof.
  intros Hin Hun.
  destruct (unresolved_reference_aborts schema catalog pre b post r w Hin Hun)
    as (w' & e & st & loaded & rest & E & H).
  exists w', e, st, loaded, rest. rewrite E. split; [reflexivity|]. split; [reflexivity|].
  exact H.
Qed.

(** *** Duplicate bodies *)

Lemma counter_add_names x counts :
  map fst (counter_add x counts)
  = if bool_decide (x ∈ map fst counts) then map fst counts else map fst counts ++ [x].
Proof.
  induction counts as [|[y n] counts IH]; [reflexivity|].
  cbn [counter_add map fst]. destruct (String.eqb_spec x y) as [->|N].
  - rewrite bool_decide_eq_true_2 by (left). reflexivity.
  - cbn [map fst]. rewrite IH. destruct (bool_decide (x ∈ map fst counts)) eqn:D.
    + apply bool_decide_eq_true in D. rewrite bool_decide_eq_true_2 by (right; exact D).
      reflexivity.
    + apply bool_decide_eq_false in D. rewrite bool_decide_eq_false_2; [reflexivity|].
      intros H. apply elem_of_cons in H as [H|H]; [congruence | exact (D H)].
Qed.

(** [Counter] gives each name once, and every name of the list. *)
Lemma Counter_names names :
  NoDup (map fst (Counter names)) /\ forall x, In x names -> x ∈ map fst (Counter names).
Proof.
  unfold Counter.
  assert (G : forall counts, NoDup (map fst counts) ->
            NoDup (map fst (fold_left (fun c x => counter_add x c) names counts))
            /\ forall x, In x names \/ x ∈ map fst counts ->
                 x ∈ map fst (fold_left (fun c x => counter_add x c) names counts)).
  { induction names as [|y names IH]; intros counts Hnd; simpl.
    - split; [exact Hnd|]. intros x [[]|H]. exact H.
    - destruct (IH (counter_add y counts)) as [N I].
      + rewrite counter_add_names. destruct (bool_decide (y ∈ map fst counts)) eqn:D;
          [exact Hnd|]. apply bool_decide_eq_false in D.
        apply NoDup_app. split; [exact Hnd|]. split; [|apply NoDup_singleton].
        intros z Hz Hz'. apply list_elem_of_singleton in Hz'. subst. exact (D Hz).
      + split; [exact N|]. intros x Hx. apply I. rewrite counter_add_names.
        destruct (bool_decide (y ∈ map fst counts)) eqn:D.
        * apply bool_decide_eq_true in D. destruct Hx as [[->|Hx]|Hx]; auto.
        * destruct Hx as [[->|Hx]|Hx]; auto; right; apply elem_of_app; auto.
          right. apply list_elem_of_singleton. reflexivity. }
  destruct (G [] (NoDup_nil_2)) as [N I]. split; [exact N|]. intros x Hx. apply I. auto.
Qed.

Lemma existsb_name (name : string) (rows : list (string * nat)) :
  existsb (fun s => String.eqb (fst s) name) rows = bool_decide (name ∈ map fst rows).
Proof.
  induction rows as [|[y n] rows IH]; [reflexivity|]. cbn [existsb map fst].
  destruct (String.eqb_spec y name) as [->|N]; simpl.
  - rewrite bool_decide_eq_true_2 by left. reflexivity.
  - rewrite IH. apply bool_decide_ext. rewrite elem_of_cons. split; [auto|].
    intros [H|H]; [congruence | exact H].
Qed.

Section Keyed.
Variable schema : Schema.
Variable shortname_map : gmap string string.
Hypothesis Hkeyed : keyed_bodies schema.
Hypothesis Haccepts : accepts_children schema.

Lemma for_each_systems rows w :
  NoDup (map fst rows) ->
  (forall x, x ∈ map fst rows -> x ∉ map fst (systems (con w))) ->
  for_each rows (execute (systems_ok schema) add_system) w
  = (mkWorld (sf_db w) (fold_left (fun st x => add_system x st) rows (con w)) (stdout w),
     Ok tt).
Proof.
  revert w. induction rows as [|row rows IH]; intros w Hnd Hnew.
  - destruct w; reflexivity.
  - cbn [for_each]. unfold mbind, M_bind. rewrite execute_eq.
    rewrite (proj2 Hkeyed).
    2: { rewrite existsb_name. apply bool_decide_eq_false_2, Hnew. left. }
    cbn [map] in Hnd. apply NoDup_cons in Hnd as [Hrow Hnd].
    rewrite IH; [reflexivity | exact Hnd |].
    intros x Hx. cbn [con add_system systems]. rewrite map_app. intros H.
    apply elem_of_app in H as [H|H]; [apply (Hnew x); [right; exact Hx | exact H]|].
    apply list_elem_of_singleton in H. simpl in H. subst. exact (Hrow Hx).
Qed.

Lemma insert_systems_ok galaxy w :
  systems (con w) = [] ->
  exists w0,
    insert_systems schema galaxy w = (w0, Ok tt)
    /\ sf_db w0 = Some (con w0) /\ stdout w0 = stdout w
    /\ con w0 = mkStore (resources (con w)) (Counter (map Body.system galaxy))
                  (bodies (con w)) (traits (con w)) (body_resources (con w))
                  (body_organics (con w)) (biomes (con w)).
Proof.
  intros Hs. unfold insert_systems. unfold mbind, M_bind.
  destruct (Counter_names (map Body.system galaxy)) as [N _].
  rewrite for_each_systems; [|exact N|].
  2: { intros x _. rewrite Hs. apply not_elem_of_nil. }
  eexists. split; [reflexivity|]. cbn [commit modify sf_db con stdout].
  split; [reflexivity|]. split; [reflexivity|].
  rewrite fold_add_system, Hs. reflexivity.
Qed.

Lemma same_key_row s n body :
  same_key s n (row_of body) = bool_decide (Body.key body = (s, n)).
Proof.
  unfold same_key, row_of, Body.key. simpl.
  destruct (String.eqb_spec (Body.system body) s) as [->|Ns];
    destruct (String.eqb_spec (Body.name body) n) as [->|Nn]; simpl; symmetry;
    (apply bool_decide_eq_true_2; reflexivity) || (apply bool_decide_eq_false_2; congruence).
Qed.

Lemma existsb_filter {A} (f : A -> bool) l :
  existsb f l = negb (Nat.eqb (length (List.filter f l)) 0).
Proof.
  induction l as [|x l IH]; [reflexivity|]. simpl. destruct (f x); simpl; [reflexivity | exact IH].
Qed.

(** The loop over the bodies when nothing else stops it: every body is
    processed, a body whose key is already in the table prints its line and
    its child rows are inserted like those of any other body, and no key is
    twice in the table. *)
Lemma insert_bodies_keyed galaxy w seen :
  (forall body, In body galaxy -> resolves shortname_map body) ->
  (forall body, In body galaxy -> Body.system body ∈ map fst (systems (con w))) ->
  (forall s n, length (List.filter (same_key s n) (bodies (con w)))
               = if bool_decide ((s, n) ∈ seen) then 1%nat else 0%nat) ->
  exists w',
    insert_bodies schema galaxy shortname_map w = (w', Ok tt)
    /\ stdout w' = stdout w ++ map (fun body => bad_data (row_of body)) (duplicates seen galaxy)
    /\ (forall s n, length (List.filter (same_key s n) (bodies (con w')))
                    = if bool_decide ((s, n) ∈ seen ++ map Body.key galaxy)
                      then 1%nat else 0%nat)
    /\ with_children shortname_map galaxy (con w) (con w')
    /\ (galaxy <> [] -> sf_db w' = Some (con w')).
Proof.
  unfold insert_bodies. revert w seen.
  induction galaxy as [|body galaxy IH]; intros w seen Hres Hsys Hcount.
  - exists w. split; [reflexivity|]. simpl. rewrite !app_nil_r.
    split; [reflexivity|]. split; [exact Hcount|].
    split; [unfold with_children; simpl; rewrite !app_nil_r; auto | congruence].
  - cbn [for_each]. unfold mbind, M_bind.
    rewrite (insert_body_ok schema shortname_map body w Haccepts)
      by (apply Hres; left; reflexivity).
    assert (Hok : bodies_ok schema (row_of body) (con w)
                  = negb (bool_decide (Body.key body ∈ seen))).
    { rewrite (proj1 Hkeyed).
      2: { rewrite existsb_name. apply bool_decide_eq_true_2. apply Hsys. left. reflexivity. }
      rewrite existsb_filter. change (r_system (row_of body)) with (Body.system body).
      change (r_name (row_of body)) with (Body.name body). rewrite Hcount.
      change (Body.system body, Body.name body) with (Body.key body).
      destruct (bool_decide (Body.key body ∈ seen)); reflexivity. }
    rewrite Hok. cbn zeta.
    destruct (bool_decide (Body.key body ∈ seen)) eqn:D; cbn [negb].
    + match goal with |- context [for_each galaxy _ ?w1] =>
        destruct (IH w1 seen) as (w' & E & Hout & Hc & Hch & Hdb) end.
      * intros b Hb. apply Hres. right. exact Hb.
      * intros b Hb. cbn [con add_children systems]. apply Hsys. right. exact Hb.
      * intros s n. cbn [con add_children bodies]. apply Hcount.
      * exists w'. split; [exact E|]. cbn [duplicates]. rewrite D. cbn [map].
        split; [rewrite Hout; cbn [stdout]; rewrite <- app_assoc; reflexivity|].
        split.
        { intros s n. rewrite Hc. apply bool_decide_eq_true in D.
          apply (f_equal (fun b : bool => if b then 1%nat else 0%nat)).
          apply bool_decide_ext. cbn [map]. rewrite !elem_of_app, elem_of_cons.
          split; [tauto|]. intros [H|[H|H]]; auto. left. rewrite H. exact D. }
        split.
        { destruct Hch as (T & R & O & B). cbn [con add_children traits body_resources
            body_organics biomes] in T, R, O, B.
          unfold with_children. cbn [flat_map]. rewrite T, R, O, B, <- !app_assoc. auto. }
        intros _. destruct galaxy as [|b' g'].
        { cbn [for_each] in E. injection E as <-. reflexivity. }
        apply Hdb. discriminate.
    + match goal with |- context [for_each galaxy _ ?w1] =>
        destruct (IH w1 (Body.key body :: seen)) as (w' & E & Hout & Hc & Hch & Hdb) end.
      * intros b Hb. apply Hres. right. exact Hb.
      * intros b Hb. cbn [con add_children add_body systems]. apply Hsys. right. exact Hb.
      * intros s n. cbn [con add_children add_body bodies].
        rewrite List.filter_app, length_app, Hcount. cbn [List.filter].
        rewrite same_key_row. apply bool_decide_eq_false in D.
        destruct (bool_decide (Body.key body = (s, n))) eqn:K.
        -- apply bool_decide_eq_true in K. rewrite <- K.
           rewrite bool_decide_eq_false_2 by exact D.
           rewrite bool_decide_eq_true_2 by left. reflexivity.
        -- apply bool_decide_eq_false in K. simpl. rewrite Nat.add_0_r.
           apply (f_equal (fun b : bool => if b then 1%nat else 0%nat)).
           apply bool_decide_ext. rewrite elem_of_cons. split; [auto|].
           intros [H|H]; [congruence | exact H].
      * exists w'. split; [exact E|]. cbn [duplicates]. rewrite D.
        split; [exact Hout|]. split.
        { intros s n. rewrite Hc. apply (f_equal (fun b : bool => if b then 1%nat else 0%nat)).
          apply bool_decide_ext. cbn [map].
          rewrite !elem_of_app, !elem_of_cons. tauto. }
        split.
        { destruct Hch as (T & R & O & B). cbn [con add_children add_body traits
            body_resources body_organics biomes] in T, R, O, B.
          unfold with_children. cbn [flat_map]. rewrite T, R, O, B, <- !app_assoc. auto. }
        intros _. destruct galaxy as [|b' g'].
        { cbn [for_each] in E. injection E as <-. reflexivity. }
        apply Hdb. discriminate.
Qed.

End Keyed.

Lemma spec_schema_keyed : keyed_bodies spec_schema.
Proof.
  split.
  - intros row st H. simpl. rewrite H. apply andb_true_r.
  - intros row st H. simpl. rewrite H. reflexivity.
Qed.

Lemma spec_schema_accepts : accepts_children spec_schema.
Proof. repeat split. Qed.

(** C6: with a [bodies] table keyed by (system, name), child tables that take
    any row and references that are keys of the map, a galaxy loaded into
    empty [systems] and [bodies] tables is loaded to its end: every key of
    the galaxy has exactly one row in [bodies], one line is printed for each
    body whose key an earlier body has, in order, and the child rows of
    every body, those bodies included, are in the child tables and
    committed. *)
Theorem duplicate_bodies_are_skipped (schema : Schema)
    (shortname_map : gmap string string) (galaxy : list Body.t) (w : World) :
  keyed_bodies schema ->
  accepts_children schema ->
  (forall body, In body galaxy -> resolves shortname_map body) ->
  systems (con w) = [] ->
  bodies (con w) = [] ->
  exists w',
    insert_galaxy schema galaxy shortname_map w = (w', Ok tt)
    /\ (forall body, In body galaxy ->
          length (List.filter (same_key (Body.system body) (Body.name body))
                    (bodies (con w'))) = 1%nat)
    /\ stdout w' = stdout w ++ map (fun body => bad_data (row_of body)) (duplicates [] galaxy)
    /\ with_children shortname_map galaxy (con w) (con w')
    /\ sf_db w' = Some (con w')
    /\ (forall body w0,
          bodies_ok schema (row_of body) (con w0) = false ->
          insert_body schema shortname_map body w0
          = (insert_children schema shortname_map body ≫= fun _ => commit)
              (mkWorld (sf_db w0) (con w0) (stdout w0 ++ [bad_data (row_of body)]))).
Proof.
  intros Hk Ha Hres Hs Hb.
  assert (Hskip : forall body w0,
            bodies_ok schema (row_of body) (con w0) = false ->
            insert_body schema shortname_map body w0
            = (insert_children schema shortname_map body ≫= fun _ => commit)
                (mkWorld (sf_db w0) (con w0) (stdout w0 ++ [bad_data (row_of body)]))).
  { intros body w0 H. unfold insert_body. unfold mbind at 1, M_bind at 1.
    rewrite insert_body_row_eq, H. reflexivity. }
  unfold insert_galaxy. unfold mbind at 1, M_bind at 1.
  destruct (insert_systems_ok schema Hk galaxy w Hs) as (w0 & E0 & S0 & O0 & C0).
  rewrite E0.
  destruct (insert_bodies_keyed schema shortname_map Hk Ha galaxy w0 [] Hres)
    as (w' & E & Hout & Hc & Hch & Hdb).
  - intros body Hin. rewrite C0. cbn [systems].
    apply (proj2 (Counter_names (map Body.system galaxy))), in_map, Hin.
  - intros s n. rewrite C0. cbn [bodies]. rewrite Hb. reflexivity.
  - exists w'. split; [exact E|]. split.
    { intros body Hin. rewrite Hc. rewrite bool_decide_eq_true_2; [reflexivity|].
      apply list_elem_of_In. change (Body.system body, Body.name body) with (Body.key body).
      apply (in_map Body.key), Hin. }
    split; [rewrite Hout, O0; reflexivity|]. split.
    { destruct Hch as (T & R & O & B). rewrite C0 in T, R, O, B.
      unfold with_children. auto. }
    split; [|exact Hskip].
    destruct galaxy as [|b g]; [|apply Hdb; discriminate].
    unfold insert_bodies in E. cbn [for_each] in E. injection E as <-. exact S0.
Qed.

Lemma duplicate_bodies_are_skipped_witness :
  exists w',
    insert_galaxy spec_schema [earth; earth] (shortname_map_of [iron]) fresh = (w', Ok tt)
    /\ (forall body, In body [earth; earth] ->
          length (List.filter (same_key (Body.system body) (Body.name body))
                    (bodies (con w'))) = 1%nat)
    /\ stdout w' = [bad_data (row_of earth)]
    /\ with_children (shortname_map_of [iron]) [earth; earth] empty_store (con w')
    /\ sf_db w' = Some (con w').
Proof.
  destruct (duplicate_bodies_are_skipped spec_schema (shortname_map_of [iron])
              [earth; earth] fresh spec_schema_keyed spec_schema_accepts)
    as (w' & E & Hone & Hout & Hch & Hdb & _).
  - intros body [<-|[<-|[]]] resource [<-|[]]; vm_compute; eauto.
  - reflexivity.
  - reflexivity.
  - exists w'. split; [exact E|]. split; [exact Hone|].
    split; [rewrite Hout; reflexivity|]. split; [exact Hch | exact Hdb].
Defined.

Lemma unresolved_reference_is_fatal_witness :
  In "Unobtainium" (Body.resources (with_resources ["Fe"; "Unobtainium"] earth))
  /\ exists w' e st loaded rest,
       main spec_schema [iron] ([earth] ++ with_resources ["Fe"; "Unobtainium"] earth :: [earth])
         fresh = (w', Raise e)
       /\ exit_status
            (snd (main spec_schema [iron]
                    ([earth] ++ with_resources ["Fe"; "Unobtainium"] earth :: [earth]) fresh))
          = 1
       /\ sf_db w' = Some st
       /\ [earth] = loaded ++ rest
       /\ with_children (shortname_map_of [iron]) loaded empty_store st
       /\ (forall row, In row (bodies st) -> In row (map row_of loaded))
       /\ (accepts_children spec_schema ->
           (forall x, In x [earth] -> resolves (shortname_map_of [iron]) x) ->
           (e = KeyError /\ rest = []) \/ (e = IntegrityError /\ loaded = [])).
Proof.
  split; [right; left; reflexivity|].
  refine (unresolved_reference_is_fatal spec_schema [iron] [earth]
            (with_resources ["Fe"; "Unobtainium"] earth) [earth] "Unobtainium" fresh _ _).
  - right. left. reflexivity.
  - intros res [<-|[]]. split; vm_compute; discriminate.
Defined.

Example run_with_unresolved_reference :
  main spec_schema [iron] ([earth] ++ with_resources ["Fe"; "Unobtainium"] earth :: [earth])
    fresh
  = (mkWorld
       (Some (add_children (shortname_map_of [iron]) earth
                (mkStore [iron] [("Sol", 3%nat)] [row_of earth] [] [] [] [])))
       (mkStore [iron] [("Sol", 3%nat)] [row_of earth]
          [("Sol", "Earth", "Primordial Network"); ("Sol", "Earth", "Primordial Network")]
          [("Sol", "Earth", "Iron"); ("Sol", "Earth", "Iron")]
          [("Sol", "Earth", "Void Sloth", "Argon", true)]
          [("Sol", "Earth", "Desert", Fin 0); ("Sol", "Earth", "Ocean", Fin (7 # 10))])
       [bad_data (row_of earth)],
     Raise KeyError).
Proof. vm_compute. reflexivity. Qed.

(** *** Resolving a reference *)

Lemma shortname_map_from_other m data k :
  ~ In k (index_keys data) -> shortname_map_from m data !! k = m !! k.
Proof.
  revert m. induction data as [|res data IH]; intros m Hk; [reflexivity|].
  unfold shortname_map_from. cbn [fold_left].
  change (shortname_map_from
            (<[lower (Resource.resource res) := Resource.shortName res]>
               (<[lower (Resource.shortName res) := Resource.resource res]> m)) data !! k
          = m !! k).
  cbn [index_keys flat_map app] in Hk.
  rewrite IH by (intros H; apply Hk; right; right; exact H).
  rewrite !lookup_insert_ne; [reflexivity | |]; intros <-; apply Hk; simpl; auto.
Qed.

(** With keys that are all different, the map holds both bindings of every
    resource. *)
Lemma shortname_map_from_lookup m data res :
  List.NoDup (index_keys data) -> In res data ->
  shortname_map_from m data !! lower (Resource.shortName res) = Some (Resource.resource res)
  /\ shortname_map_from m data !! lower (Resource.resource res)
     = Some (Resource.shortName res).
Proof.
  revert m. induction data as [|res0 data IH]; intros m Hnd Hin; [destruct Hin|].
  cbn [index_keys flat_map app] in Hnd.
  apply List.NoDup_cons_iff in Hnd as [H1 Hnd]. apply List.NoDup_cons_iff in Hnd as [H2 Hnd].
  unfold shortname_map_from. cbn [fold_left].
  change (fold_left _ data ?m0) with (shortname_map_from m0 data).
  destruct Hin as [->|Hin]; [|apply IH; assumption].
  rewrite !shortname_map_from_other.
  - rewrite lookup_insert_eq. rewrite lookup_insert_ne, lookup_insert_eq; [auto|].
    intros E. apply H1. left. exact E.
  - exact H2.
  - intros H. apply H1. right. exact H.
Qed.

(** C1 (as stated, refuted): for the catalog with Iron and Fe, the reference
    "IRON" is looked up as "iron", whose binding is the short name: the row
    inserted for the body holds "Fe", not the full name "Iron". *)
Lemma full_name_resolves_to_short_name :
  getitem (shortname_map_of [iron]) (lower "IRON") = Ok "Fe"
  /\ spec_resolve [iron] "IRON" = Some "Iron"
  /\ insert_body_resource spec_schema (shortname_map_of [iron]) earth "IRON" fresh
     = (mkWorld None (add_body_resource ("Sol", "Earth", "Fe") empty_store) [], Ok tt)
  /\ getitem (shortname_map_of [iron]) (lower "IRON") <> Ok "Iron".
Proof. repeat split; try (vm_compute; reflexivity). vm_compute. discriminate. Qed.

(** C1 (amended): the map the loader builds is the one the catalog gives,
    and a reference is looked up by its lowercase form. When the lowercased
    names of the catalog are all different, a reference that is a short
    name, letter case aside, yields that resource's full name, and a
    reference that is a full name, letter case aside, yields that resource's
    short name; the row inserted for the body holds what the lookup yields.
    With Iron and Fe in the catalog, "fe" yields "Iron" and "IRON" yields
    "Fe". *)
Theorem references_resolve_through_the_map (schema : Schema) (catalog : list Resource.t)
    (res : Resource.t) :
  List.NoDup (index_keys catalog) ->
  In res catalog ->
  (forall r, lower r = lower (Resource.shortName res) ->
     getitem (shortname_map_of catalog) (lower r) = Ok (Resource.resource res))
  /\ (forall r, lower r = lower (Resource.resource res) ->
        getitem (shortname_map_of catalog) (lower r) = Ok (Resource.shortName res))
  /\ (forall w w' m, insert_resources schema catalog w = (w', Ok m) ->
        m = shortname_map_of catalog)
  /\ (forall m body r v w,
        getitem m (lower r) = Ok v ->
        body_resources_ok schema (Body.system body, Body.name body, v) (con w) = true ->
        insert_body_resource schema m body r w
        = (mkWorld (sf_db w)
             (add_body_resource (Body.system body, Body.name body, v) (con w)) (stdout w),
           Ok tt))
  /\ getitem (shortname_map_of [iron]) (lower "fe") = Ok "Iron"
  /\ getitem (shortname_map_of [iron]) (lower "IRON") = Ok "Fe".
Proof.
  intros Hnd Hin.
  destruct (shortname_map_from_lookup ∅ catalog res Hnd Hin) as [Hs Hf].
  split; [intros r ->; unfold getitem, shortname_map_of; rewrite Hs; reflexivity|].
  split; [intros r ->; unfold getitem, shortname_map_of; rewrite Hf; reflexivity|].
  split.
  { intros w w' m H. apply insert_resources_inv in H. apply H. }
  split.
  { intros m body r v w Hv Hok. rewrite insert_body_resource_eq. unfold getitem in Hv.
    destruct (m !! lower r); [|discriminate Hv]. injection Hv as ->.
    rewrite execute_eq, Hok. reflexivity. }
  split; vm_compute; reflexivity.
Qed.

Lemma references_resolve_through_the_map_witness :
  (List.NoDup (index_keys [iron]) /\ In iron [iron])
  /\ getitem (shortname_map_of [iron]) (lower "FE") = Ok "Iron"
  /\ getitem (shortname_map_of [iron]) (lower "iRoN") = Ok "Fe"
  /\ insert_body_resource spec_schema (shortname_map_of [iron]) earth "FE" fresh
     = (mkWorld None (add_body_resource ("Sol", "Earth", "Iron") empty_store) [], Ok tt).
Proof.
  assert (Hnd : List.NoDup (index_keys [iron])).
  { vm_compute. repeat constructor; simpl; intuition discriminate. }
  assert (Hin : In iron [iron]) by (left; reflexivity).
  destruct (references_resolve_through_the_map spec_schema [iron] iron Hnd Hin)
    as (Hs & Hf & _ & Hrow & _).
  split; [split; assumption|].
  split; [apply Hs; reflexivity|]. split; [apply Hf; reflexivity|].
  apply (Hrow (shortname_map_of [iron]) earth "FE" "Iron" fresh); [|reflexivity].
  apply Hs. reflexivity.
Defined.

End CreateDbSpec.

(** ** More on the normalizer *)

Module RestructureMore.
Import Py PyFacts Restructure RestructureSpec.

(** *** Sorting what is sorted *)

Section SortAgain.
Context {A K : Type} (lt : K -> K -> bool) (key : A -> K).

Lemma insert_sorted_last x acc :
  (forall y, In y acc -> lt (key x) (key y) = false) ->
  insert_sorted lt key x acc = acc ++ [x].
Proof.
  induction acc as [|y acc IH]; intros H; [reflexivity|].
  cbn [insert_sorted]. rewrite (H y) by (left; reflexivity).
  rewrite IH by (intros z Hz; apply H; right; exact Hz). reflexivity.
Qed.

Lemma sort_from_sorted_id l acc :
  StronglySorted (fun x y => lt (key y) (key x) = false) (acc ++ l) ->
  fold_left (fun acc x => insert_sorted lt key x acc) l acc = acc ++ l.
Proof.
  revert acc. induction l as [|x l IH]; intros acc H; simpl.
  - rewrite app_nil_r. reflexivity.
  - rewrite insert_sorted_last.
    + rewrite IH; rewrite <- app_assoc; [reflexivity | exact H].
    + clear IH. induction acc as [|z acc IHacc]; intros y Hy; [destruct Hy|].
      cbn [app] in H. apply StronglySorted_inv in H as [Hs Hz].
      destruct Hy as [<-|Hy]; [|apply IHacc; assumption].
      rewrite Forall_forall in Hz. apply Hz, list_elem_of_In, in_or_app. right. left. reflexivity.
Qed.

(** [list.sort] leaves a sorted list as it is. *)
Lemma sort_sorted_id l :
  StronglySorted (fun x y => lt (key y) (key x) = false) l -> sort lt key l = l.
Proof. intros H. apply (sort_from_sorted_id l []). exact H. Qed.

End SortAgain.

Lemma sort_idempotent {A} (name : A -> string) (l : list A) :
  sort str_lt name (sort str_lt name l) = sort str_lt name l.
Proof.
  apply sort_sorted_id. apply (sort_sorted str_lt name str_lt_asym str_le_trans).
Qed.

(** X1: the traits of a normalized body are the raw traits in ascending
    order, duplicates kept; the second [sort] of line 178 changes nothing, and
    the resources are neither sorted nor changed. *)
Theorem traits_sorted_resources_kept system_name body_name (d : RawBody.t)
    (out out' : list line) (b : Body.t) :
  normalize_body system_name body_name d out = (out', Ok b) ->
  Body.traits b = sort str_lt id (RawBody.traits d)
  /\ Permutation (RawBody.traits d) (Body.traits b)
  /\ StronglySorted lex_le (Body.traits b)
  /\ Body.resources b = RawBody.resources d.
Proof.
  intros H.
  destruct (normalize_body_ok_inv _ _ _ _ _ _ H) as (g & Hg & Hfa & Hfl & Hh).
  rewrite (normalize_body_eq _ _ _ _ _ Hg Hfa Hfl Hh) in H. injection H as _ <-.
  cbn [Body.traits Body.resources]. rewrite sort_idempotent.
  split; [reflexivity|]. split; [apply sort_perm|]. split; [|reflexivity].
  apply (sorted_by_name id).
Qed.

Lemma traits_sorted_resources_kept_witness :
  exists out' b,
    normalize_body "Sol" "Earth"
      (with_traits ["Sentient"; "Boiled Seas"; "Sentient"; "Aeriform Life"]
         ["H2O"; "Fe"; "Ar"] earth) [] = (out', Ok b)
    /\ Body.traits b = ["Aeriform Life"; "Boiled Seas"; "Sentient"; "Sentient"]
    /\ StronglySorted lex_le (Body.traits b)
    /\ Body.resources b = ["H2O"; "Fe"; "Ar"].
Proof.
  set (d := with_traits ["Sentient"; "Boiled Seas"; "Sentient"; "Aeriform Life"]
              ["H2O"; "Fe"; "Ar"] earth).
  let r := eval vm_compute in (normalize_body "Sol" "Earth" d []) in
  match r with
  | (?out', Ok ?b) =>
      assert (E : normalize_body "Sol" "Earth" d [] = (out', Ok b))
        by (vm_compute; reflexivity);
      exists out', b;
      destruct (traits_sorted_resources_kept "Sol" "Earth" d [] out' b E)
        as (Ht & _ & Hs & Hr);
      split; [exact E|];
      split; [transitivity (sort str_lt id (RawBody.traits d));
              [exact Ht | vm_compute; reflexivity]|];
      split; [exact Hs | exact Hr]
  end.
Defined.

(** *** One body out for each body in *)

Lemma for_collect_ok_inv {W A B} (f : A -> M W B) (P : A -> B -> Prop) :
  (forall x w w' y, f x w = (w', Ok y) -> P x y) ->
  forall xs w w' ys, for_collect xs f w = (w', Ok ys) -> Forall2 P xs ys.
Proof.
  intros HP. induction xs as [|x xs IH]; intros w w' ys H.
  - injection H as _ <-. constructor.
  - cbn [for_collect] in H.
    apply bind_ok_inv in H as (y & w1 & Hy & H).
    apply bind_ok_inv in H as (ys' & w2 & Hys & H).
    injection H as _ <-. constructor; [eapply HP; eassumption | eapply IH; eassumption].
Qed.

Lemma normalize_body_key system_name body_name d out out' b :
  normalize_body system_name body_name d out = (out', Ok b) ->
  Body.key b = (system_name, body_name).
Proof.
  intros H.
  destruct (normalize_body_ok_inv _ _ _ _ _ _ H) as (g & Hg & Hfa & Hfl & Hh).
  rewrite (normalize_body_eq _ _ _ _ _ Hg Hfa Hfl Hh) in H. injection H as _ <-.
  reflexivity.
Qed.

Lemma normalize_system_keys system_name bodies out out' bs :
  normalize_system system_name bodies out = (out', Ok bs) ->
  map Body.key bs = map (fun '(body_name, _) => (system_name, body_name)) bodies.
Proof.
  unfold normalize_system. intros H.
  apply (for_collect_ok_inv _ (fun x b => Body.key b = (system_name, fst x))) in H.
  - induction H as [|[n d] b bodies' bs' Hb _ IH]; [reflexivity|].
    cbn [map]. rewrite Hb, IH. reflexivity.
  - intros [n d] w w' b Hb. apply normalize_body_key in Hb. exact Hb.
Qed.

(** X3: when every body is normalized, the galaxy has one body for each body
    of the raw file, under the system and the name it had there and in the
    order of the file; the assembled galaxy has the same keys, rearranged. *)
Theorem one_body_per_raw_body (raw : list (string * list (string * RawBody.t)))
    (out out' : list line) (galaxy : list Body.t) :
  normalize_all raw out = (out', Ok galaxy) ->
  map Body.key galaxy = raw_keys raw
  /\ length galaxy = length (raw_keys raw)
  /\ Permutation (raw_keys raw) (map Body.key (assemble galaxy)).
Proof.
  unfold normalize_all. intros H.
  apply bind_ok_inv in H as (gs & w1 & Hgs & H). injection H as _ <-.
  apply (for_collect_ok_inv _ (fun x bs => map Body.key bs
           = map (fun '(body_name, _) => (fst x, body_name)) (snd x))) in Hgs.
  2: { intros [sn bodies] w w' bs Hbs. apply normalize_system_keys in Hbs. exact Hbs. }
  assert (Hk : map Body.key (concat gs) = raw_keys raw).
  { unfold raw_keys. induction Hgs as [|[sn bodies] bs raw' gs' Hb _ IH]; [reflexivity|].
    cbn [concat flat_map]. rewrite map_app, Hb, IH. reflexivity. }
  split; [exact Hk|]. split; [rewrite <- Hk, length_map; reflexivity|].
  rewrite <- Hk. apply Permutation_map. apply sort_perm.
Qed.

Lemma one_body_per_raw_body_witness :
  exists out' galaxy,
    normalize_all [("Sol", [("Venus", earth); ("Earth", earth)]); ("Alpha", [("Gagarin", earth)])]
      [] = (out', Ok galaxy)
    /\ map Body.key galaxy = [("Sol", "Venus"); ("Sol", "Earth"); ("Alpha", "Gagarin")]
    /\ map Body.key (assemble galaxy)
       = [("Alpha", "Gagarin"); ("Sol", "Earth"); ("Sol", "Venus")].
Proof.
  eexists _, _. split; [vm_compute; reflexivity|].
  split; [|vm_compute; reflexivity].
  refine (proj1 (one_body_per_raw_body
            [("Sol", [("Venus", earth); ("Earth", earth)]); ("Alpha", [("Gagarin", earth)])]
            [] _ _ _)).
  vm_compute. reflexivity.
Defined.

(** *** Every biome string is accounted for *)

Lemma biomes_accounted system_name body_name raw :
  (length (biomes_of raw) + length (biome_warnings system_name body_name raw))%nat
  = length raw.
Proof.
  induction raw as [|biome_str raw IH]; [reflexivity|].
  cbn [biomes_of biome_warnings flat_map]. fold (biomes_of raw).
  fold (biome_warnings system_name body_name raw).
  rewrite !length_app. destruct (parse_biome biome_str); simpl; lia.
Qed.

(** X4: the loop over the biome strings never raises; each string gives
    either one biome or one printed line, never both and never neither, and
    each printed line is for a string with a percent sign whose last piece is
    not a number. *)
Theorem every_biome_string_accounted system_name body_name (raw : list string)
    (out : list line) :
  exists lines bs,
    normalize_biomes system_name body_name raw out = (out ++ lines, Ok bs)
    /\ (length bs + length lines)%nat = length raw
    /\ forall l, In l lines ->
         exists biome_str,
           In biome_str raw /\ l = invalid_biome biome_str system_name body_name
           /\ contains "%" biome_str = true
           /\ float_of_string (remove_char "%" (after_last " " biome_str)) = None.
Proof.
  exists (biome_warnings system_name body_name raw), (sort str_lt Biome.name (biomes_of raw)).
  split; [apply normalize_biomes_eq|]. split.
  - rewrite <- (Permutation_length (sort_perm str_lt Biome.name (biomes_of raw))).
    apply biomes_accounted.
  - intros l Hl. unfold biome_warnings in Hl. apply in_flat_map in Hl as (biome_str & Hin & Hl).
    exists biome_str. split; [exact Hin|].
    rewrite parse_biome_eq in Hl. destruct (contains "%" biome_str); [|destruct Hl].
    destruct (float_of_string _); [destruct Hl|].
    destruct Hl as [<-|[]]. auto.
Qed.

Lemma every_biome_string_accounted_witness :
  exists lines bs,
    normalize_biomes "Sol" "Earth" ["Ocean 70%"; "Swamp lots%"; "Desert"] []
    = (lines, Ok bs)
    /\ length bs = 2%nat
    /\ lines = [invalid_biome "Swamp lots%" "Sol" "Earth"]
    /\ exists biome_str,
         In biome_str ["Ocean 70%"; "Swamp lots%"; "Desert"]
         /\ invalid_biome "Swamp lots%" "Sol" "Earth" = invalid_biome biome_str "Sol" "Earth"
         /\ contains "%" biome_str = true
         /\ float_of_string (remove_char "%" (after_last " " biome_str)) = None.
Proof.
  destruct (every_biome_string_accounted "Sol" "Earth"
              ["Ocean 70%"; "Swamp lots%"; "Desert"] []) as (lines & bs & E & Hlen & Hl).
  vm_compute in E. injection E as <- <-.
  eexists _, _. split; [vm_compute; reflexivity|]. split; [reflexivity|].
  split; [reflexivity|]. apply Hl. left. reflexivity.
Defined.

(** *** The gravity text *)

Lemma remove_char_append c s t :
  remove_char c (s +:+ t) = remove_char c s +:+ remove_char c t.
Proof.
  induction s as [|a s IH]; [reflexivity|].
  rewrite ?append_String. cbn [remove_char]. destruct (Ascii.eqb a c); [exact IH|].
  rewrite ?append_String. rewrite IH. reflexivity.
Qed.

(** X6: every [g] of the gravity text is dropped, wherever it stands: a text
    with a [g] put in anywhere is read as the text without it. *)
Theorem gravity_ignores_every_g (s1 s2 : string) (out : list line) :
  parse_gravity (s1 +:+ String "g" s2) out = parse_gravity (s1 +:+ s2) out.
Proof.
  unfold parse_gravity. rewrite !remove_char_append.
  change (remove_char "g" (String "g" s2)) with (remove_char "g" s2). reflexivity.
Qed.

(** *** Organic resources *)

Lemma contains_lstrip c s : contains c (lstrip s) = true -> contains c s = true.
Proof.
  induction s as [|a s IH]; [discriminate|]. cbn [lstrip].
  destruct (is_space a); [|auto]. intros H. cbn [contains]. rewrite (IH H). apply orb_true_r.
Qed.

Lemma contains_rstrip c s : contains c (rstrip s) = true -> contains c s = true.
Proof.
  induction s as [|a s IH]; [discriminate|]. cbn [rstrip contains].
  destruct (rstrip s) as [|b t].
  - destruct (is_space a); [discriminate|]. cbn [contains]. rewrite orb_false_r.
    intros ->. reflexivity.
  - cbn [contains] in *. destruct (Ascii.eqb a c); [reflexivity|]. simpl. exact IH.
Qed.

Lemma contains_strip c s : contains c s = false -> contains c (strip s) = false.
Proof.
  intros H. destruct (contains c (strip s)) eqn:E; [|reflexivity].
  apply contains_rstrip, contains_lstrip in E. congruence.
Qed.

Lemma contains_remove_same c s : contains c (remove_char c s) = false.
Proof.
  induction s as [|a s IH]; [reflexivity|]. cbn [remove_char].
  destruct (Ascii.eqb a c) eqn:E; [exact IH|]. cbn [contains]. rewrite E. exact IH.
Qed.

Lemma contains_remove_other c d s :
  contains c s = false -> contains c (remove_char d s) = false.
Proof.
  induction s as [|a s IH]; [reflexivity|]. cbn [contains remove_char].
  intros H. apply orb_false_elim in H as [Ha Hs].
  destruct (Ascii.eqb a d); [auto|]. cbn [contains]. rewrite Ha. auto.
Qed.

Lemma contains_before_first c s : contains c (fst (partition_first c s)) = false.
Proof.
  induction s as [|a s IH]; [reflexivity|]. cbn [partition_first].
  destruct (Ascii.eqb a c) eqn:E; [reflexivity|].
  destruct (partition_first c s) as [b r]. cbn [fst contains] in *. rewrite E. exact IH.
Qed.

Lemma contains_after_last c s : contains c (after_last c s) = false.
Proof.
  destruct (contains c s) eqn:C.
  - apply before_after_last, C.
  - clear -C. induction s as [|a s IH]; [reflexivity|].
    cbn [contains] in C. apply orb_false_elim in C as [Ha Hs].
    cbn [after_last]. rewrite Hs, Ha. cbn [contains]. rewrite Ha, Hs. reflexivity.
Qed.

Lemma lstrip_head s :
  lstrip s = EmptyString \/ exists c t, lstrip s = String c t /\ is_space c = false.
Proof.
  induction s as [|a s IH]; [left; reflexivity|]. cbn [lstrip].
  destruct (is_space a) eqn:E; [exact IH | right; eauto].
Qed.

Lemma rstrip_idempotent s : rstrip (rstrip s) = rstrip s.
Proof.
  induction s as [|a s IH]; [reflexivity|]. cbn [rstrip].
  destruct (rstrip s) as [|b t] eqn:R.
  - destruct (is_space a) eqn:E; [reflexivity|]. cbn [rstrip]. rewrite E. reflexivity.
  - change (rstrip (String a (String b t))) with
      (match rstrip (String b t) with
       | EmptyString => if is_space a then EmptyString else String a EmptyString
       | u => String a u
       end).
    rewrite IH. reflexivity.
Qed.

(** Trimming a trimmed text changes nothing: it has no space at either
    end. *)
Lemma strip_idempotent s : strip (strip s) = strip s.
Proof.
  unfold strip. destruct (lstrip_head s) as [->|(c & t & -> & Hc)]; [reflexivity|].
  assert (H : lstrip (rstrip (String c t)) = rstrip (String c t)).
  { cbn [rstrip]. destruct (rstrip t); [rewrite Hc|]; cbn [lstrip]; rewrite Hc; reflexivity. }
  rewrite H. apply rstrip_idempotent.
Qed.

(** X7: the loop over the domesticable (or gatherable) entries never raises
    and prints nothing; it gives one organic resource per entry, whose name
    has no opening parenthesis, whose resource has no parenthesis at all,
    and both are trimmed. *)
Theorem organics_are_clean (raw : list string) (out : list line) :
  exists organics,
    normalize_organics raw out = (out, Ok organics)
    /\ length organics = length raw
    /\ forall o, In o organics ->
         contains "(" (OrganicResource.name o) = false
         /\ contains "(" (OrganicResource.resource o) = false
         /\ contains ")" (OrganicResource.resource o) = false
         /\ strip (OrganicResource.name o) = OrganicResource.name o
         /\ strip (OrganicResource.resource o) = OrganicResource.resource o.
Proof.
  exists (sort str_lt OrganicResource.name (map organic_of raw)).
  split; [apply normalize_organics_eq|]. split.
  - rewrite <- (Permutation_length (sort_perm str_lt OrganicResource.name _)).
    apply length_map.
  - intros o Ho.
    apply (Permutation_in _ (Permutation_sym (sort_perm str_lt OrganicResource.name _))) in Ho.
    apply in_map_iff in Ho as (dom & <- & _). unfold organic_of.
    cbn [OrganicResource.name OrganicResource.resource].
    split; [apply contains_strip, contains_before_first|].
    split; [apply contains_strip, contains_remove_other, contains_after_last|].
    split; [apply contains_strip, contains_remove_same|].
    split; apply strip_idempotent.
Qed.

Lemma organics_are_clean_witness :
  exists organics,
    normalize_organics [" Void Sloth ( Argon ) "; "Ashta (Big) (Fe)"] [] = ([], Ok organics)
    /\ organics = [OrganicResource.mk "Ashta" "Fe"; OrganicResource.mk "Void Sloth" "Argon"]
    /\ contains ")" (OrganicResource.resource (OrganicResource.mk "Ashta" "Fe")) = false.
Proof.
  destruct (organics_are_clean [" Void Sloth ( Argon ) "; "Ashta (Big) (Fe)"] [])
    as (organics & E & _ & H).
  vm_compute in E. injection E as <-.
  eexists. split; [vm_compute; reflexivity|]. split; [reflexivity|].
  apply (H (OrganicResource.mk "Ashta" "Fe")). left. reflexivity.
Defined.

End RestructureMore.

(** ** The gravity text *)

Module RestructureGravity.
Import Py PyFacts Restructure RestructureSpec.

(** *** The bodies of the file as one list *)

Lemma for_collect_app {W A B} (f : A -> M W B) (xs ys : list A) (w : W) :
  for_collect (xs ++ ys) f w =
  match for_collect xs f w with
  | (w1, Ok a) =>
      match for_collect ys f w1 with
      | (w2, Ok b) => (w2, Ok (a ++ b))
      | (w2, Raise e) => (w2, Raise e)
      end
  | (w1, Raise e) => (w1, Raise e)
  end.
Proof.
  revert w. induction xs as [|x xs IH]; intros w; cbn [app for_collect].
  - unfold mret, M_ret. destruct (for_collect ys f w) as [w2 [b|e]]; reflexivity.
  - unfold mbind, M_bind, mret, M_ret. destruct (f x w) as [w0 [y|e]]; [|reflexivity].
    rewrite IH.
    destruct (for_collect xs f w0) as [w1 [a|e]]; [|reflexivity].
    destruct (for_collect ys f w1) as [w2 [b|e]]; reflexivity.
Qed.

Lemma for_collect_map {W A B C} (g : A -> B) (f : B -> M W C) (xs : list A) (w : W) :
  for_collect (map g xs) f w = for_collect xs (fun x => f (g x)) w.
Proof.
  revert w. induction xs as [|x xs IH]; intros w; cbn [map for_collect]; [reflexivity|].
  unfold mbind, M_bind. destruct (f (g x) w) as [w0 [y|e]]; [|reflexivity].
  rewrite IH. reflexivity.
Qed.

Lemma for_collect_ext {W A B} (f g : A -> M W B) (xs : list A) (w : W) :
  (forall x w, f x w = g x w) -> for_collect xs f w = for_collect xs g w.
Proof.
  intros H. revert w. induction xs as [|x xs IH]; intros w; cbn [for_collect]; [reflexivity|].
  unfold mbind, M_bind. rewrite H. destruct (g x w) as [w0 [y|e]]; [|reflexivity].
  rewrite IH. reflexivity.
Qed.

(** The two nested loops are one loop over the bodies of the file. *)
Lemma normalize_all_flat raw out :
  normalize_all raw out = normalize_bodies (raw_bodies raw) out.
Proof.
  unfold normalize_all, normalize_bodies. revert out.
  induction raw as [|[system_name bodies] raw IH]; intros out; [reflexivity|].
  cbn [raw_bodies flat_map]. rewrite for_collect_app, for_collect_map.
  rewrite (for_collect_ext _
             (fun '(body_name, d) => normalize_body system_name body_name d) bodies out)
    by (intros [body_name d] w; reflexivity).
  cbn [for_collect]. unfold mbind, M_bind, mret, M_ret. unfold normalize_system at 1.
  destruct (for_collect bodies _ out) as [o1 [g1|e]]; [|reflexivity].
  specialize (IH o1). unfold mbind, M_bind, mret, M_ret in IH.
  fold (raw_bodies raw). rewrite <- IH.
  destruct (for_collect raw _ o1) as [o2 [gs|e]]; reflexivity.
Qed.

(** The loop ends at the first body that raises. *)
Lemma for_collect_stops {W A B} (f : A -> M W B) pre x post w w1 ys w2 e :
  for_collect pre f w = (w1, Ok ys) ->
  f x w1 = (w2, Raise e) ->
  for_collect (pre ++ x :: post) f w = (w2, Raise e).
Proof.
  intros Hpre Hx. rewrite for_collect_app, Hpre. cbn [for_collect].
  unfold mbind, M_bind. rewrite Hx. reflexivity.
Qed.

Lemma raw_bodies_In raw system_name body_name d :
  In (system_name, body_name, d) (raw_bodies raw) ->
  exists bodies, In (system_name, bodies) raw /\ In (body_name, d) bodies.
Proof.
  unfold raw_bodies. intros H. apply in_flat_map in H as ([s bodies] & Hs & H).
  apply in_map_iff in H as ([n d'] & [= -> -> ->] & H). eauto.
Qed.

(** *** The marker and the spaces around the number *)

Lemma lstrip_space_only ws : all_space ws = true -> lstrip ws = EmptyString.
Proof.
  induction ws as [|c ws IH]; [reflexivity|]. cbn [all_space lstrip].
  intros H. apply andb_prop in H as [Hc Hws]. rewrite Hc. exact (IH Hws).
Qed.

Lemma rstrip_space_only ws : all_space ws = true -> rstrip ws = EmptyString.
Proof.
  induction ws as [|c ws IH]; [reflexivity|]. cbn [all_space rstrip].
  intros H. apply andb_prop in H as [Hc Hws]. rewrite (IH Hws), Hc. reflexivity.
Qed.

Lemma lstrip_decomp s : exists ws, all_space ws = true /\ s = ws +:+ lstrip s.
Proof.
  induction s as [|c s (ws & Hws & E)]; [exists EmptyString; split; reflexivity|].
  cbn [lstrip]. destruct (is_space c) eqn:Hc.
  - exists (String c ws). cbn [all_space]. rewrite Hc, Hws. split; [reflexivity|].
    rewrite append_String. f_equal. exact E.
  - exists EmptyString. split; reflexivity.
Qed.

Lemma rstrip_decomp s : exists ws, all_space ws = true /\ s = rstrip s +:+ ws.
Proof.
  induction s as [|c s (ws & Hws & E)]; [exists EmptyString; split; reflexivity|].
  cbn [rstrip]. destruct (rstrip s) as [|a t].
  - change (s = ws) in E. subst s. destruct (is_space c) eqn:Hc.
    + exists (String c ws). cbn [all_space]. rewrite Hc, Hws. split; reflexivity.
    + exists ws. split; [exact Hws | reflexivity].
  - exists ws. split; [exact Hws|]. rewrite append_String. f_equal. exact E.
Qed.

Lemma lstrip_after_spaces ws s : all_space ws = true -> lstrip (ws +:+ s) = lstrip s.
Proof.
  induction ws as [|c ws IH]; [reflexivity|]. cbn [all_space].
  intros H. apply andb_prop in H as [Hc Hws]. rewrite append_String. cbn [lstrip].
  rewrite Hc. exact (IH Hws).
Qed.

Lemma rstrip_before_spaces s ws : all_space ws = true -> rstrip (s +:+ ws) = rstrip s.
Proof.
  intros Hws. induction s as [|c s IH]; [exact (rstrip_space_only ws Hws)|].
  rewrite append_String. cbn [rstrip]. rewrite IH. reflexivity.
Qed.

Lemma strip_before_spaces u ws : all_space ws = true -> strip (u +:+ ws) = strip u.
Proof.
  intros Hws. unfold strip. induction u as [|c u IH].
  - change (EmptyString +:+ ws) with ws. rewrite (lstrip_space_only ws Hws). reflexivity.
  - rewrite append_String. cbn [lstrip]. destruct (is_space c); [exact IH|].
    rewrite <- append_String. apply rstrip_before_spaces, Hws.
Qed.

Lemma remove_char_spaces c ws :
  is_space c = false -> all_space ws = true -> remove_char c ws = ws.
Proof.
  intros Hc. induction ws as [|a ws IH]; [reflexivity|]. cbn [all_space remove_char].
  intros H. apply andb_prop in H as [Ha Hws].
  destruct (Ascii.eqb_spec a c) as [->|_]; [congruence|]. rewrite (IH Hws). reflexivity.
Qed.

(** With no other [c] in the text, deleting every [c] takes the trailing
    one off. *)
Lemma remove_char_trailing c t :
  contains c (drop_trailing c t) = false -> remove_char c t = drop_trailing c t.
Proof.
  induction t as [|a t IH]; [reflexivity|].
  destruct t as [|b t].
  - cbn [drop_trailing remove_char]. destruct (Ascii.eqb a c); reflexivity.
  - change (drop_trailing c (String a (String b t)))
      with (String a (drop_trailing c (String b t))).
    cbn [contains]. intros H. apply orb_false_elim in H as [Ha H].
    change (remove_char c (String a (String b t)))
      with (if Ascii.eqb a c then remove_char c (String b t)
            else String a (remove_char c (String b t))).
    rewrite Ha, (IH H). reflexivity.
Qed.

(** When the only [g] of the text is a unit marker at its end, deleting every
    [g] is taking the marker off. *)
Lemma marker_only raw :
  contains "g" (drop_trailing "g" (strip raw)) = false ->
  strip (remove_char "g" raw) = strip (drop_trailing "g" (strip raw)).
Proof.
  intros H. destruct (lstrip_decomp raw) as (ws1 & H1 & E1).
  destruct (rstrip_decomp (lstrip raw)) as (ws2 & H2 & E2).
  fold (strip raw) in E2. rewrite E1, E2 at 1.
  rewrite !RestructureMore.remove_char_append.
  rewrite (remove_char_spaces "g" ws1 eq_refl H1), (remove_char_spaces "g" ws2 eq_refl H2).
  rewrite (remove_char_trailing _ _ H).
  unfold strip at 1. rewrite (lstrip_after_spaces _ _ H1).
  apply (strip_before_spaces _ _ H2).
Qed.

(** *** C5 *)

(** C5 (as stated, refuted): the code deletes every [g] of the text, not a
    unit marker at its end. The text "1g0" is not a number once a trailing
    marker and the surrounding whitespace are taken off (it has no trailing
    marker), yet the code reads it as 10.0, the body is normalized and the
    run goes on to write galaxy.json. *)
Lemma inner_g_is_deleted_too :
  spec_parse_gravity "1g0" = None
  /\ parse_gravity "1g0" [] = ([], Ok (Fin (10 # 1)))
  /\ (exists b,
        normalize_body "Sol" "Earth" (with_gravity "1g0" earth) []
        = ([invalid_flora (JStr "many") "Sol" "Earth"], Ok b)
        /\ Body.gravity b = Fin (10 # 1))
  /\ main (fun _ => "[]")
        (mkWorld [("Sol", [("Earth", with_gravity "1g0" earth)])] None [])
     = (mkWorld [("Sol", [("Earth", with_gravity "1g0" earth)])] (Some "[]")
          [invalid_flora (JStr "many") "Sol" "Earth"], Ok tt).
Proof.
  split; [reflexivity|]. split; [reflexivity|]. split; [|vm_compute; reflexivity].
  eexists. split; [vm_compute; reflexivity | reflexivity].
Qed.

(** C5 (amended): a body whose gravity is not a number once every [g] is
    deleted from it, wherever it stands, and the surrounding whitespace is
    taken off, stops the run: there is no fallback, [main] ends with the
    exception and status 1, and galaxy.json is not written. It stops at that
    body: when the bodies before it were normalized and [int] raises nothing
    but [ValueError] on its fauna and flora, the exception is the
    [ValueError] of the gravity, and the lines printed are those of the
    bodies before it and the fauna and flora lines of this body, whatever
    bodies come after. For a text whose only [g] is a unit marker at its end,
    deleting every [g] is taking the marker off. *)
Theorem gravity_failure_is_fatal (dump : list Body.t -> string) (w : World)
    system_name body_name (d : RawBody.t) :
  In (system_name, body_name, d) (raw_bodies (starfield_data_updated_json w)) ->
  float_of_string (strip (remove_char "g" (RawBody.gravity d))) = None ->
  (exists w' e, main dump w = (w', Raise e)
     /\ galaxy_json w' = galaxy_json w
     /\ exit_status (snd (main dump w)) = 1)
  /\ (forall out, exists out' e,
        normalize_body system_name body_name d out = (out', Raise e)
        /\ (int_guarded (RawBody.fauna d) = true ->
            int_guarded (RawBody.flora d) = true ->
            e = ValueError
            /\ out' = out ++ int_lines invalid_fauna system_name body_name (RawBody.fauna d)
                          ++ int_lines invalid_flora system_name body_name (RawBody.flora d)))
  /\ (forall pre post out1 galaxy,
        raw_bodies (starfield_data_updated_json w)
        = pre ++ (system_name, body_name, d) :: post ->
        normalize_bodies pre (stdout w) = (out1, Ok galaxy) ->
        (exists out' e,
           normalize_body system_name body_name d out1 = (out', Raise e)
           /\ main dump w
              = (mkWorld (starfield_data_updated_json w) (galaxy_json w) out', Raise e))
        /\ (int_guarded (RawBody.fauna d) = true ->
            int_guarded (RawBody.flora d) = true ->
            main dump w
            = (mkWorld (starfield_data_updated_json w) (galaxy_json w)
                 (out1 ++ int_lines invalid_fauna system_name body_name (RawBody.fauna d)
                       ++ int_lines invalid_flora system_name body_name (RawBody.flora d)),
               Raise ValueError)))
  /\ (forall raw,
        contains "g" (drop_trailing "g" (strip raw)) = false ->
        spec_parse_gravity raw = float_of_string (strip (remove_char "g" raw))).
Proof.
  intros Hin Hg.
  assert (Hd : forall out,
             int_guarded (RawBody.fauna d) = true ->
             int_guarded (RawBody.flora d) = true ->
             normalize_body system_name body_name d out
             = (out ++ int_lines invalid_fauna system_name body_name (RawBody.fauna d)
                    ++ int_lines invalid_flora system_name body_name (RawBody.flora d),
                Raise ValueError)).
  { intros out Gfa Gfl. unfold normalize_body.
    unfold mbind at 1, M_bind at 1. rewrite (int_or_zero_guarded _ _ _ _ _ Gfa).
    unfold mbind at 1, M_bind at 1. rewrite (int_or_zero_guarded _ _ _ _ _ Gfl).
    unfold mbind at 1, M_bind at 1. unfold parse_gravity. rewrite Hg. unfold raise.
    rewrite <- app_assoc. reflexivity. }
  assert (Hstop : forall pre post out1 galaxy out' e,
             raw_bodies (starfield_data_updated_json w)
             = pre ++ (system_name, body_name, d) :: post ->
             normalize_bodies pre (stdout w) = (out1, Ok galaxy) ->
             normalize_body system_name body_name d out1 = (out', Raise e) ->
             main dump w
             = (mkWorld (starfield_data_updated_json w) (galaxy_json w) out', Raise e)).
  { intros pre post out1 galaxy out' e Hraw Hpre Hb.
    unfold main. rewrite normalize_all_flat, Hraw. unfold normalize_bodies in *.
    rewrite (for_collect_stops _ pre (system_name, body_name, d) post _ _ _ _ _ Hpre Hb).
    reflexivity. }
  split; [|split; [|split]].
  - destruct (raw_bodies_In _ _ _ _ Hin) as (bodies & Hs & Hb).
    destruct (normalize_all_raises _ _ _ _ _ Hs Hb
                (normalize_body_gravity_raises system_name body_name d Hg) (stdout w))
      as (out' & e & E).
    unfold main. rewrite E. eexists _, e. repeat split.
  - intros out.
    destruct (normalize_body_gravity_raises system_name body_name d Hg out)
      as (out' & e & E).
    exists out', e. split; [exact E|]. intros Gfa Gfl.
    rewrite (Hd out Gfa Gfl) in E. injection E as <- <-. split; reflexivity.
  - intros pre post out1 galaxy Hraw Hpre. split.
    + destruct (normalize_body_gravity_raises system_name body_name d Hg out1)
        as (out' & e & E).
      exists out', e. split; [exact E|]. exact (Hstop _ _ _ _ _ _ Hraw Hpre E).
    + intros Gfa Gfl. exact (Hstop _ _ _ _ _ _ Hraw Hpre (Hd out1 Gfa Gfl)).
  - intros raw H. unfold spec_parse_gravity. rewrite (marker_only raw H). reflexivity.
Qed.

Lemma gravity_failure_is_fatal_witness :
  main (fun _ => "[]")
    (mkWorld [("Sol", [("Venus", with_fauna (JStr "none") earth);
                       ("Earth", with_gravity "heavy" earth);
                       ("Mars", earth)])] None [])
  = (mkWorld [("Sol", [("Venus", with_fauna (JStr "none") earth);
                       ("Earth", with_gravity "heavy" earth);
                       ("Mars", earth)])] None
       [invalid_fauna (JStr "none") "Sol" "Venus"; invalid_flora (JStr "many") "Sol" "Venus";
        invalid_flora (JStr "many") "Sol" "Earth"],
     Raise ValueError).
Proof.
  pose (pre := [("Sol", "Venus", with_fauna (JStr "none") earth)]).
  let r := eval vm_compute in (normalize_bodies pre []) in
  match r with
  | (?out1, Ok ?galaxy) =>
      assert (E : normalize_bodies pre [] = (out1, Ok galaxy)) by (vm_compute; reflexivity);
      exact (proj2 (proj1 (proj2 (proj2
               (gravity_failure_is_fatal (fun _ => "[]")
                  (mkWorld [("Sol", [("Venus", with_fauna (JStr "none") earth);
                                     ("Earth", with_gravity "heavy" earth);
                                     ("Mars", earth)])] None [])
                  "Sol" "Earth" (with_gravity "heavy" earth)
                  (or_intror (or_introl eq_refl)) eq_refl)))
               pre [("Sol", "Mars", earth)] out1 galaxy eq_refl E) eq_refl eq_refl)
  end.
Defined.

End RestructureGravity.

(** ** A count that is null *)

Module RestructureNull.
Import Py PyFacts Restructure RestructureSpec RestructureGravity.

Lemma int_or_zero_null msg system_name body_name out :
  int_or_zero msg system_name body_name JNull out = (out, Raise TypeError).
Proof. rewrite int_or_zero_eq. reflexivity. Qed.

Lemma normalize_body_null_raises system_name body_name d :
  RawBody.fauna d = JNull \/ RawBody.flora d = JNull \/ RawBody.hab_rank d = JNull ->
  forall out, exists out' e, normalize_body system_name body_name d out = (out', Raise e).
Proof.
  intros H out. unfold normalize_body.
  unfold mbind at 1, M_bind at 1.
  destruct (int_or_zero _ _ _ (RawBody.fauna d) out) as [o1 [fa|e]] eqn:Efa; [|eauto].
  destruct H as [H|H]; [rewrite H, int_or_zero_null in Efa; discriminate Efa|].
  unfold mbind at 1, M_bind at 1.
  destruct (int_or_zero _ _ _ (RawBody.flora d) o1) as [o2 [fl|e]] eqn:Efl; [|eauto].
  destruct H as [H|H]; [rewrite H, int_or_zero_null in Efl; discriminate Efl|].
  unfold mbind at 1, M_bind at 1.
  destruct (parse_gravity (RawBody.gravity d) o2) as [o3 [g|e]]; [|eauto].
  unfold mbind at 1, M_bind at 1. rewrite H, int_or_zero_null. eauto.
Qed.

(** X5: [int(None)] raises [TypeError], which the [except ValueError] of
    lines 117, 125 and 135 does not catch. A body of the file whose fauna,
    flora or hab_rank value is null stops the run: [main] ends with an
    exception and status 1 and galaxy.json is not written. When it is the
    fauna, the body raises [TypeError] before anything is printed for it, and
    when the bodies before it were normalized the run ends there with the
    lines of those bodies only, whatever bodies come after. *)
Theorem null_count_is_fatal (dump : list Body.t -> string) (w : World)
    system_name body_name (d : RawBody.t) :
  In (system_name, body_name, d) (raw_bodies (starfield_data_updated_json w)) ->
  RawBody.fauna d = JNull \/ RawBody.flora d = JNull \/ RawBody.hab_rank d = JNull ->
  (exists w' e, main dump w = (w', Raise e)
     /\ galaxy_json w' = galaxy_json w
     /\ exit_status (snd (main dump w)) = 1)
  /\ (RawBody.fauna d = JNull ->
      (forall out, normalize_body system_name body_name d out = (out, Raise TypeError))
      /\ forall pre post out1 galaxy,
           raw_bodies (starfield_data_updated_json w)
           = pre ++ (system_name, body_name, d) :: post ->
           normalize_bodies pre (stdout w) = (out1, Ok galaxy) ->
           main dump w
           = (mkWorld (starfield_data_updated_json w) (galaxy_json w) out1,
              Raise TypeError)).
Proof.
  intros Hin Hnull. split.
  - destruct (raw_bodies_In _ _ _ _ Hin) as (bodies & Hs & Hb).
    destruct (normalize_all_raises _ _ _ _ _ Hs Hb
                (normalize_body_null_raises system_name body_name d Hnull) (stdout w))
      as (out' & e & E).
    unfold main. rewrite E. eexists _, e. repeat split.
  - intros Hfa.
    assert (Hd : forall out,
               normalize_body system_name body_name d out = (out, Raise TypeError)).
    { intros out. unfold normalize_body. unfold mbind at 1, M_bind at 1.
      rewrite Hfa, int_or_zero_null. reflexivity. }
    split; [exact Hd|].
    intros pre post out1 galaxy Hraw Hpre.
    unfold main. rewrite normalize_all_flat, Hraw. unfold normalize_bodies in *.
    rewrite (for_collect_stops _ pre (system_name, body_name, d) post _ _ _ _ _
               Hpre (Hd out1)).
    reflexivity.
Qed.

Lemma null_count_is_fatal_witness :
  main (fun _ => "[]")
    (mkWorld [("Sol", [("Venus", with_fauna (JStr "none") earth);
                       ("Earth", with_fauna JNull earth);
                       ("Mars", earth)])] None [])
  = (mkWorld [("Sol", [("Venus", with_fauna (JStr "none") earth);
                       ("Earth", with_fauna JNull earth);
                       ("Mars", earth)])] None
       [invalid_fauna (JStr "none") "Sol" "Venus"; invalid_flora (JStr "many") "Sol" "Venus"],
     Raise TypeError).
Proof.
  pose (pre := [("Sol", "Venus", with_fauna (JStr "none") earth)]).
  let r := eval vm_compute in (normalize_bodies pre []) in
  match r with
  | (?out1, Ok ?galaxy) =>
      assert (E : normalize_bodies pre [] = (out1, Ok galaxy)) by (vm_compute; reflexivity);
      exact (proj2 (proj2
               (null_count_is_fatal (fun _ => "[]")
                  (mkWorld [("Sol", [("Venus", with_fauna (JStr "none") earth);
                                     ("Earth", with_fauna JNull earth);
                                     ("Mars", earth)])] None [])
                  "Sol" "Earth" (with_fauna JNull earth)
                  (or_intror (or_introl eq_refl)) (or_introl eq_refl)) eq_refl)
               pre [("Sol", "Mars", earth)] out1 galaxy eq_refl E)
  end.
Defined.

End RestructureNull.

(** ** More on the loader *)

Module CreateDbMore.
Import Py CreateDb CreateDbSpec.

(** *** The systems and their numbers of bodies *)

Lemma count_of_add x y counts :
  count_of x (counter_add y counts)
  = (count_of x counts + (if String.eqb x y then 1 else 0))%nat.
Proof.
  induction counts as [|[z n] counts IH]; cbn [counter_add count_of].
  - destruct (String.eqb x y); reflexivity.
  - destruct (String.eqb_spec y z) as [->|Nyz]; cbn [count_of].
    + destruct (String.eqb_spec x z); lia.
    + destruct (String.eqb_spec x z) as [->|Nxz].
      * destruct (String.eqb_spec z y); [congruence | lia].
      * exact IH.
Qed.

Lemma occurrences_cons x y names :
  occurrences x (y :: names)
  = ((if String.eqb x y then 1 else 0) + occurrences x names)%nat.
Proof. unfold occurrences. cbn [List.filter]. destruct (String.eqb x y); reflexivity. Qed.

Lemma count_of_fold x names counts :
  count_of x (fold_left (fun c y => counter_add y c) names counts)
  = (count_of x counts + occurrences x names)%nat.
Proof.
  revert counts. induction names as [|y names IH]; intros counts; cbn [fold_left].
  - unfold occurrences. simpl. lia.
  - rewrite IH, count_of_add, occurrences_cons. lia.
Qed.

Lemma count_of_In x n counts :
  NoDup (map fst counts) -> In (x, n) counts -> count_of x counts = n.
Proof.
  induction counts as [|[y m] counts IH]; intros Hnd Hin; [destruct Hin|].
  cbn [map fst] in Hnd. apply NoDup_cons in Hnd as [Hy Hnd]. cbn [count_of].
  destruct Hin as [[= -> ->]|Hin].
  - rewrite String.eqb_refl. reflexivity.
  - destruct (String.eqb_spec x y) as [->|N]; [|apply IH; assumption].
    exfalso. apply Hy. apply list_elem_of_In. apply (in_map fst _ _ Hin).
Qed.

Lemma Counter_names_from names counts x :
  x ∈ map fst (fold_left (fun c y => counter_add y c) names counts) ->
  In x names \/ x ∈ map fst counts.
Proof.
  revert counts. induction names as [|y names IH]; intros counts; cbn [fold_left]; [auto|].
  intros H. apply IH in H as [H|H]; [left; right; exact H|].
  rewrite counter_add_names in H. destruct (bool_decide (y ∈ map fst counts)); [auto|].
  apply elem_of_app in H as [H|H]; [auto|].
  apply list_elem_of_singleton in H. left. left. congruence.
Qed.

Lemma occurrences_pos x names : In x names -> (0 < occurrences x names)%nat.
Proof.
  induction names as [|y names IH]; intros H; [destruct H|].
  rewrite occurrences_cons. destruct H as [->|H]; [rewrite String.eqb_refl; lia|].
  specialize (IH H). lia.
Qed.

Lemma systems_rows_facts (galaxy : list Body.t) :
  NoDup (map fst (Counter (map Body.system galaxy)))
  /\ (forall name n,
        In (name, n) (Counter (map Body.system galaxy))
        <-> In name (map Body.system galaxy)
            /\ n = occurrences name (map Body.system galaxy)).
Proof.
  destruct (Counter_names (map Body.system galaxy)) as [Hnd Hall].
  split; [exact Hnd|].
  intros name n. split.
  - intros Hin. pose proof (count_of_In _ _ _ Hnd Hin) as Hc.
    unfold Counter in Hc. rewrite count_of_fold in Hc. simpl in Hc.
    split; [|congruence].
    assert (Hn : name ∈ map fst (Counter (map Body.system galaxy))).
    { apply list_elem_of_In. apply (in_map fst _ _ Hin). }
    apply Counter_names_from in Hn as [Hn|Hn]; [exact Hn|].
    simpl in Hn. apply not_elem_of_nil in Hn. destruct Hn.
  - intros [Hin ->]. specialize (Hall _ Hin).
    apply list_elem_of_In, in_map_iff in Hall as ([x m] & Hx & Hm). simpl in Hx. subst x.
    pose proof (count_of_In _ _ _ Hnd Hm) as Hc.
    unfold Counter in Hc. rewrite count_of_fold in Hc. simpl in Hc. rewrite Hc.
    exact Hm.
Qed.

(** X8: [Counter] gives a name exactly when it stands in the list, once, with
    the number of times it stands there; so the rows that [insert_systems]
    adds are one per system of the galaxy, each with the number of the
    bodies of the galaxy in that system, in the order the systems first
    appear, and they are committed when all of them are in. *)
Theorem systems_rows_count_bodies (schema : Schema) (galaxy : list Body.t) :
  NoDup (map fst (Counter (map Body.system galaxy)))
  /\ (forall name n,
        In (name, n) (Counter (map Body.system galaxy))
        <-> In name (map Body.system galaxy)
            /\ n = occurrences name (map Body.system galaxy))
  /\ (forall w w',
        insert_systems schema galaxy w = (w', Ok tt) ->
        systems (con w') = systems (con w) ++ Counter (map Body.system galaxy)
        /\ sf_db w' = Some (con w') /\ bodies (con w') = bodies (con w)).
Proof.
  destruct (systems_rows_facts galaxy) as [Hnd Hc].
  split; [exact Hnd|]. split; [exact Hc|].
  - intros w w' H. apply insert_systems_inv in H as (_ & S & C).
    rewrite fold_add_system in C.
    split; [rewrite C; reflexivity|]. split; [exact S|]. rewrite C. reflexivity.
Qed.

Lemma systems_rows_count_bodies_witness :
  In ("Sol", 2%nat)
    (Counter (map Body.system [earth; with_system "Alpha" earth; earth]))
  /\ exists w',
       insert_systems spec_schema [earth; with_system "Alpha" earth; earth] fresh
       = (w', Ok tt)
       /\ systems (con w') = [("Sol", 2%nat); ("Alpha", 1%nat)]
       /\ sf_db w' = Some (con w').
Proof.
  destruct (systems_rows_count_bodies spec_schema
              [earth; with_system "Alpha" earth; earth]) as (_ & Hc & Hs).
  split.
  - apply Hc. split; [left; reflexivity | reflexivity].
  - eexists. split; [vm_compute; reflexivity|].
    destruct (Hs fresh _ eq_refl) as (H1 & H2 & _). split; [exact H1 | exact H2].
Defined.

(** *** The keys of the map *)

Lemma shortname_map_from_is_Some m data k :
  is_Some (shortname_map_from m data !! k) <-> is_Some (m !! k) \/ In k (index_keys data).
Proof.
  revert m. induction data as [|res data IH]; intros m.
  - simpl. split; [auto | intros [H|[]]; exact H].
  - unfold shortname_map_from. cbn [fold_left].
    change (fold_left _ data ?m0) with (shortname_map_from m0 data).
    rewrite IH, !lookup_insert_is_Some. cbn [index_keys flat_map app In].
    fold (index_keys data). split.
    + intros [[H|[_ [H|[_ H]]]]|H]; auto.
    + intros [H|[H|[H|H]]]; auto.
      * destruct (decide (lower (Resource.resource res) = k)) as [E|N]; [auto|].
        destruct (decide (lower (Resource.shortName res) = k)) as [E'|N']; auto 6.
      * destruct (decide (lower (Resource.resource res) = k)) as [E|N]; auto 6.
Qed.

Lemma unmatched_keys catalog r : unmatched catalog r <-> ~ In (lower r) (index_keys catalog).
Proof.
  unfold unmatched, index_keys. rewrite in_flat_map. split.
  - intros H (res & Hin & [E|[E|[]]]); destruct (H res Hin); congruence.
  - intros H res Hin. split; intros E; apply H; exists res; simpl; auto.
Qed.

(** X9: a reference is a key of the map exactly when its lowercase form is
    the lowercased short name or full name of a resource of the catalog; so
    the lookup of the loader raises [KeyError] exactly for the references that
    match no name, and never for one that matches. *)
Theorem key_error_iff_unmatched (catalog : list Resource.t) (r : string) :
  (getitem (shortname_map_of catalog) (lower r) = Raise KeyError <-> unmatched catalog r)
  /\ (shortname_map_of catalog !! lower r = None <-> ~ In (lower r) (index_keys catalog))
  /\ (forall res, In res catalog ->
        (lower r = lower (Resource.shortName res) \/ lower r = lower (Resource.resource res)) ->
        exists v, getitem (shortname_map_of catalog) (lower r) = Ok v).
Proof.
  assert (Hnone : shortname_map_of catalog !! lower r = None
                  <-> ~ In (lower r) (index_keys catalog)).
  { unfold shortname_map_of. rewrite eq_None_not_Some, shortname_map_from_is_Some.
    rewrite lookup_empty. split.
    - intros H Hin. apply H. right. exact Hin.
    - intros H [[v Hv]|Hin]; [discriminate | exact (H Hin)]. }
  split; [|split; [exact Hnone|]].
  - rewrite unmatched_keys, <- Hnone. clear Hnone. unfold getitem.
    destruct (shortname_map_of catalog !! lower r); split; congruence.
  - intros res Hin Hm. unfold getitem.
    assert (Hs : is_Some (shortname_map_of catalog !! lower r)).
    { apply not_eq_None_Some. intros E. apply Hnone in E. apply E.
      unfold index_keys. apply in_flat_map.
      exists res. split; [exact Hin|]. simpl. destruct Hm as [->| ->]; auto. }
    destruct Hs as [v ->]. eauto.
Qed.

Lemma key_error_iff_unmatched_witness :
  (unmatched [iron] "Unobtainium"
   /\ getitem (shortname_map_of [iron]) (lower "Unobtainium") = Raise KeyError)
  /\ (In iron [iron] /\ lower "iron" = lower (Resource.resource iron))
  /\ exists v, getitem (shortname_map_of [iron]) (lower "iron") = Ok v.
Proof.
  destruct (key_error_iff_unmatched [iron] "Unobtainium") as (Hk & _ & _).
  destruct (key_error_iff_unmatched [iron] "iron") as (_ & _ & Hm).
  assert (Hu : unmatched [iron] "Unobtainium").
  { intros res [<-|[]]. split; vm_compute; discriminate. }
  split; [split; [exact Hu | apply Hk, Hu]|].
  split; [split; [left; reflexivity | reflexivity]|].
  apply (Hm iron); [left; reflexivity | right; reflexivity].
Defined.

(** *** A later resource replaces an earlier one *)

Lemma shortname_map_from_app m pre post :
  shortname_map_from m (pre ++ post) = shortname_map_from (shortname_map_from m pre) post.
Proof. unfold shortname_map_from. apply fold_left_app. Qed.

(** X10: when two resources of the catalog have a lowercased name in common,
    the map keeps the binding of the later one and nothing is raised: for
    the last resource that has a key, the full-name key yields its short
    name, and the short-name key, when it is not also its full-name key,
    yields its full name, whatever stands before it in the catalog. *)
Theorem later_resource_wins (pre : list Resource.t) (res : Resource.t)
    (post : list Resource.t) :
  (~ In (lower (Resource.resource res)) (index_keys post) ->
   shortname_map_of (pre ++ res :: post) !! lower (Resource.resource res)
   = Some (Resource.shortName res))
  /\ (~ In (lower (Resource.shortName res)) (index_keys post) ->
      lower (Resource.shortName res) <> lower (Resource.resource res) ->
      shortname_map_of (pre ++ res :: post) !! lower (Resource.shortName res)
      = Some (Resource.resource res)).
Proof.
  unfold shortname_map_of. rewrite shortname_map_from_app.
  set (m := shortname_map_from ∅ pre).
  change (shortname_map_from m (res :: post))
    with (shortname_map_from
            (<[lower (Resource.resource res) := Resource.shortName res]>
               (<[lower (Resource.shortName res) := Resource.resource res]> m)) post).
  split.
  - intros H. rewrite shortname_map_from_other by exact H. apply lookup_insert_eq.
  - intros H N. rewrite shortname_map_from_other by exact H.
    rewrite lookup_insert_ne by congruence. apply lookup_insert_eq.
Qed.

Lemma later_resource_wins_witness :
  (~ In (lower (Resource.shortName ferrite)) (index_keys [])
   /\ lower (Resource.shortName ferrite) <> lower (Resource.resource ferrite))
  /\ shortname_map_of ([iron] ++ ferrite :: []) !! lower "FE" = Some "Ferrite"
  /\ shortname_map_of ([iron] ++ ferrite :: []) !! lower "Ferrite" = Some "Fe".
Proof.
  destruct (later_resource_wins [iron] ferrite []) as [Hf Hs].
  assert (H1 : ~ In (lower (Resource.shortName ferrite)) (index_keys [])) by (intros []).
  assert (H2 : lower (Resource.shortName ferrite) <> lower (Resource.resource ferrite))
    by (vm_compute; discriminate).
  split; [split; assumption|]. split; [apply Hs; assumption|].
  apply Hf. intros [].
Defined.

(** *** The catalog is committed whole or not at all *)

Lemma insert_resources_loop_rows schema data m w w' r :
  insert_resources_loop schema data m w = (w', r) ->
  match r with
  | Ok _ => resources (con w') = resources (con w) ++ data
  | Raise _ =>
      exists done x rest,
        data = done ++ x :: rest
        /\ resources (con w') = resources (con w) ++ done
        /\ resources_ok schema x (con w') = false
  end.
Proof.
  revert m w. induction data as [|res data IH]; intros m w.
  - intros [= <- <-]. rewrite app_nil_r. reflexivity.
  - cbn [insert_resources_loop]. unfold mbind at 1, M_bind at 1.
    unfold insert_resource. unfold mbind at 1, M_bind at 1. rewrite execute_eq.
    destruct (resources_ok schema res (con w)) eqn:Hok.
    + unfold mret, M_ret. intros H. apply IH in H. cbn [con add_resource resources] in H.
      destruct r as [m'|e].
      * rewrite H, <- app_assoc. reflexivity.
      * destruct H as (done & x & rest & -> & Hr & Hx).
        exists (res :: done), x, rest. split; [reflexivity|].
        split; [rewrite Hr, <- app_assoc; reflexivity | exact Hx].
    + intros [= <- <-]. exists [], res, data. rewrite app_nil_r. auto.
Qed.

(** X11: [insert_resources] commits once, after the last resource. When it
    returns, the table has the whole catalog after the rows it had, in the
    order of the file, and that is committed. When a resource is rejected it
    raises [IntegrityError] and the file is as it was: the rows of the
    resources before the rejected one are in the connection only. *)
Theorem catalog_committed_whole_or_not_at_all (schema : Schema)
    (catalog : list Resource.t) (w w' : World) (r : result (gmap string string)) :
  insert_resources schema catalog w = (w', r) ->
  match r with
  | Ok m =>
      m = shortname_map_of catalog
      /\ resources (con w') = resources (con w) ++ catalog
      /\ sf_db w' = Some (con w')
  | Raise e =>
      e = IntegrityError /\ sf_db w' = sf_db w
      /\ exists done x rest,
           catalog = done ++ x :: rest
           /\ resources (con w') = resources (con w) ++ done
           /\ resources_ok schema x (con w') = false
  end.
Proof.
  intros H. pose proof (insert_resources_inv _ _ _ _ _ H) as (_ & _ & _ & _ & _ & _ & _ & Hr).
  unfold insert_resources in H. unfold mbind at 1, M_bind at 1 in H.
  destruct (insert_resources_loop schema catalog ∅ w) as [w1 r1] eqn:E.
  apply insert_resources_loop_rows in E. destruct r1 as [m1|e1].
  - unfold mbind, M_bind, commit, modify, mret, M_ret in H. injection H as <- <-.
    destruct Hr as [-> _]. auto.
  - injection H as <- <-. destruct Hr as [-> Hs]. auto.
Qed.

Lemma catalog_committed_whole_or_not_at_all_witness :
  exists w',
    insert_resources spec_schema [iron; ferrite; iron] fresh = (w', Raise IntegrityError)
    /\ sf_db w' = None
    /\ exists done x rest,
         [iron; ferrite; iron] = done ++ x :: rest
         /\ resources (con w') = resources (con fresh) ++ done
         /\ resources_ok spec_schema x (con w') = false.
Proof.
  eexists. split; [vm_compute; reflexivity|].
  exact (proj2 (catalog_committed_whole_or_not_at_all spec_schema [iron; ferrite; iron]
                  fresh _ (Raise IntegrityError) eq_refl)).
Defined.

(** *** A body row or a line *)

Lemma insert_body_row_or_line schema shortname_map body w w' :
  insert_body schema shortname_map body w = (w', Ok tt) ->
  (bodies (con w') = bodies (con w) ++ [row_of body] /\ stdout w' = stdout w)
  \/ (bodies (con w') = bodies (con w)
      /\ stdout w' = stdout w ++ [bad_data (row_of body)]).
Proof.
  intros H. apply insert_body_inv in H as (_ & _ & w1 & E1 & C & O).
  rewrite insert_body_row_eq in E1. rewrite C, O.
  destruct (bodies_ok schema (row_of body) (con w)); injection E1 as <-; simpl; auto.
Qed.

(** The two picks share out the list. *)
Lemma pick_shares_out {A : Type} (flags : list bool) (xs : list A) :
  length flags = length xs ->
  Permutation (pick true flags xs ++ pick false flags xs) xs.
Proof.
  revert xs. induction flags as [|f flags IH]; intros [|x xs]; try discriminate.
  - intros _. constructor.
  - intros [= H]. cbn [pick]. destruct f; cbn [Bool.eqb app].
    + constructor. exact (IH xs H).
    + symmetry. apply Permutation_cons_app. symmetry. exact (IH xs H).
Qed.

(** X12: whatever the schema, when the loop over the bodies ends without an
    exception each body of the galaxy has given its row in [bodies] or one
    printed line, never both and never neither: there is one flag per body,
    the rows added are the rows of the bodies flagged, in the order of the
    galaxy, the lines printed are the lines of the bodies not flagged, in
    the order of the galaxy, and nothing else is printed. So the bodies with
    a row and the bodies with a line are the galaxy, shared out. *)
Theorem each_body_a_row_or_a_line (schema : Schema) (shortname_map : gmap string string)
    (galaxy : list Body.t) (w w' : World) :
  insert_bodies schema galaxy shortname_map w = (w', Ok tt) ->
  exists inserted : list bool,
    length inserted = length galaxy
    /\ bodies (con w') = bodies (con w) ++ map row_of (pick true inserted galaxy)
    /\ stdout w'
       = stdout w ++ map (fun body => bad_data (row_of body)) (pick false inserted galaxy)
    /\ Permutation (pick true inserted galaxy ++ pick false inserted galaxy) galaxy.
Proof.
  intros H.
  enough (exists inserted : list bool,
             length inserted = length galaxy
             /\ bodies (con w') = bodies (con w) ++ map row_of (pick true inserted galaxy)
             /\ stdout w'
                = stdout w
                  ++ map (fun body => bad_data (row_of body)) (pick false inserted galaxy))
    as (inserted & Hl & Hb & Ho)
    by (exists inserted; repeat split; try assumption; apply pick_shares_out, Hl).
  revert w H. unfold insert_bodies. induction galaxy as [|body galaxy IH]; intros w.
  - intros [= <-]. exists []. cbn [pick map length]. rewrite !app_nil_r. auto.
  - cbn [for_each]. unfold mbind, M_bind.
    destruct (insert_body schema shortname_map body w) as [w1 [[]|e]] eqn:E; [|discriminate].
    intros H. apply IH in H as (flags & Hl & Hb & Ho).
    apply insert_body_row_or_line in E as [[Eb Eo]|[Eb Eo]].
    + exists (true :: flags). cbn [pick Bool.eqb length map].
      rewrite Hb, Ho, Eb, Eo, <- app_assoc. rewrite Hl. auto.
    + exists (false :: flags). cbn [pick Bool.eqb length map].
      rewrite Hb, Ho, Eb, Eo, <- app_assoc. rewrite Hl. auto.
Qed.

Lemma each_body_a_row_or_a_line_witness :
  exists w' inserted,
    insert_bodies spec_schema [earth; with_system "Alpha" earth; earth]
      (shortname_map_of [iron])
      (mkWorld None (add_system ("Alpha", 1%nat) (add_system ("Sol", 2%nat) empty_store)) [])
    = (w', Ok tt)
    /\ length inserted = 3%nat
    /\ bodies (con w')
       = map row_of (pick true inserted [earth; with_system "Alpha" earth; earth])
    /\ stdout w'
       = map (fun body => bad_data (row_of body))
           (pick false inserted [earth; with_system "Alpha" earth; earth])
    /\ bodies (con w') = [row_of earth; row_of (with_system "Alpha" earth)]
    /\ stdout w' = [bad_data (row_of earth)].
Proof.
  set (galaxy := [earth; with_system "Alpha" earth; earth]).
  set (w := mkWorld None
              (add_system ("Alpha", 1%nat) (add_system ("Sol", 2%nat) empty_store)) []).
  let w' := eval vm_compute in
      (fst (insert_bodies spec_schema galaxy (shortname_map_of [iron]) w)) in
  assert (E : insert_bodies spec_schema galaxy (shortname_map_of [iron]) w
              = (w', Ok tt)) by (vm_compute; reflexivity);
  exists w'.
  destruct (each_body_a_row_or_a_line spec_schema (shortname_map_of [iron]) galaxy
              w _ E) as (inserted & Hl & Hb & Ho & _).
  exists inserted. split; [exact E|]. split; [exact Hl|].
  split; [exact Hb|]. split; [exact Ho|]. split; reflexivity.
Defined.

(** *** Every committed body has its system *)

(** X13: whatever the schema and however the run ends, either nothing of the
    galaxy is committed (a system row was rejected) or the committed store
    has the rows of all the systems of the galaxy, each with the number of
    bodies of the whole galaxy, and every row of [bodies] that was not there
    before is the row of a body of the galaxy whose system row is committed
    with it. *)
Theorem committed_bodies_have_their_system (schema : Schema)
    (shortname_map : gmap string string) (galaxy : list Body.t) (w w' : World)
    (r : result unit) :
  insert_galaxy schema galaxy shortname_map w = (w', r) ->
  sf_db w' = sf_db w
  \/ exists st,
       sf_db w' = Some st
       /\ systems st = systems (con w) ++ Counter (map Body.system galaxy)
       /\ forall row, In row (bodies st) ->
            In row (bodies (con w))
            \/ (In row (map row_of galaxy)
                /\ In (r_system row, occurrences (r_system row) (map Body.system galaxy))
                     (systems st)).
Proof.
  unfold insert_galaxy. unfold mbind at 1, M_bind at 1.
  destruct (insert_systems schema galaxy w) as [w0 r0] eqn:E0.
  pose proof (insert_systems_inv _ _ _ _ _ E0) as (_ & H0).
  destruct r0 as [[]|e0]; [|intros [= <- <-]; left; apply H0].
  destruct H0 as [S0 C0]. rewrite fold_add_system in C0.
  assert (Hsys : systems (con w0) = systems (con w) ++ Counter (map Body.system galaxy))
    by (rewrite C0; reflexivity).
  assert (Hbod : bodies (con w0) = bodies (con w)) by (rewrite C0; reflexivity).
  assert (Hrows : forall loaded w1,
            (forall b, In b loaded -> In b galaxy) ->
            insert_bodies schema loaded shortname_map w0 = (w1, Ok tt) ->
            sf_db w1 = Some (con w1)
            /\ systems (con w1) = systems (con w) ++ Counter (map Body.system galaxy)
            /\ forall row, In row (bodies (con w1)) ->
                 In row (bodies (con w))
                 \/ (In row (map row_of galaxy)
                     /\ In (r_system row,
                            occurrences (r_system row) (map Body.system galaxy))
                          (systems (con w1)))).
  { intros loaded w1 Hsub H1. apply insert_bodies_inv in H1 as (Hs & _ & Hsy & Hb).
    split; [destruct Hs as [[_ ->]|[_ Hs]]; [exact S0 | exact Hs]|].
    split; [rewrite Hsy; exact Hsys|].
    intros row Hrow. apply Hb in Hrow as [Hrow|Hrow]; [left; rewrite <- Hbod; exact Hrow|].
    right. apply in_map_iff in Hrow as (b & <- & Hin). split.
    - apply in_map, Hsub, Hin.
    - rewrite Hsy, Hsys. apply in_or_app. right.
      apply (proj2 (systems_rows_facts galaxy)). split; [|reflexivity].
      apply (in_map Body.system), Hsub, Hin. }
  intros H. right. destruct r as [[]|e].
  - exists (con w'). apply (Hrows galaxy w' (fun b Hb => Hb) H).
  - apply insert_bodies_inv in H as (loaded & rest & w1 & -> & _ & H1 & S1).
    exists (con w1). rewrite S1. apply (Hrows loaded w1); [|exact H1].
    intros b Hb. apply in_or_app. left. exact Hb.
Qed.

Lemma committed_bodies_have_their_system_witness :
  exists w' st,
    insert_galaxy spec_schema
      [earth; with_system "Alpha" (with_resources ["Unobtainium"] earth)]
      (shortname_map_of [iron]) fresh = (w', Raise KeyError)
    /\ sf_db w' = Some st
    /\ systems st = [("Sol", 1%nat); ("Alpha", 1%nat)]
    /\ bodies st = [row_of earth]
    /\ forall row, In row (bodies st) ->
         In row (bodies (con fresh))
         \/ (In row (map row_of
                       [earth; with_system "Alpha" (with_resources ["Unobtainium"] earth)])
             /\ In (r_system row,
                    occurrences (r_system row)
                      (map Body.system
                         [earth; with_system "Alpha" (with_resources ["Unobtainium"] earth)]))
                  (systems st)).
Proof.
  set (galaxy := [earth; with_system "Alpha" (with_resources ["Unobtainium"] earth)]).
  let w' := eval vm_compute in
      (fst (insert_galaxy spec_schema galaxy (shortname_map_of [iron]) fresh)) in
  assert (E : insert_galaxy spec_schema galaxy (shortname_map_of [iron]) fresh
              = (w', Raise KeyError)) by (vm_compute; reflexivity);
  exists w'.
  destruct (committed_bodies_have_their_system spec_schema (shortname_map_of [iron])
              galaxy fresh _ (Raise KeyError) E) as [H|(st & Hs & Hsys & Hrows)].
  - vm_compute in H. discriminate H.
  - exists st. split; [exact E|]. split; [exact Hs|].
    vm_compute in Hs. injection Hs as <-.
    split; [reflexivity|]. split; [reflexivity | exact Hrows].
Defined.

End CreateDbMore.

(** ** The interactive editor *)

Module PlanetSearchUpdateSpec.
Import PlanetSearchUpdate.

Ltac io := unfold mbind, IO_bind, mret, IO_ret, print, input, save_data.

(** *** Looking a key up without regard to case *)

(** X14: [find_case_insensitive_key] returns the first key of the dict, in
    its order, that is the wanted key letter case aside, spelled as it is in
    the dict; it returns [None] exactly when no key is. A key that is in the
    dict as written is not returned when an earlier key differs from it in
    case only. *)
Theorem find_returns_first_match {V : Type} (d : list (string * V)) (key : string) :
  match find_case_insensitive_key d key with
  | Some k =>
      exists pre v post,
        d = pre ++ (k, v) :: post
        /\ Py.lower k = Py.lower key
        /\ forall k', In k' (map fst pre) -> Py.lower k' <> Py.lower key
  | None => forall k', In k' (map fst d) -> Py.lower k' <> Py.lower key
  end.
Proof.
  induction d as [|[k v] d IH]; cbn [find_case_insensitive_key].
  - intros k' [].
  - destruct (String.eqb_spec (Py.lower k) (Py.lower key)) as [E|N].
    + exists [], v, d. split; [reflexivity|]. split; [exact E | intros k' []].
    + destruct (find_case_insensitive_key d key) as [k0|].
      * destruct IH as (pre & v0 & post & -> & E & Hpre).
        exists ((k, v) :: pre), v0, post. split; [reflexivity|]. split; [exact E|].
        intros k' [<-|Hk']; [exact N | apply Hpre, Hk'].
      * intros k' [<-|Hk']; [exact N | apply IH, Hk'].
Qed.

Lemma find_returns_first_match_witness :
  find_case_insensitive_key [("Type", Py.JNull); ("HAB_RANK", Py.JInt 1); ("hab_rank", Py.JInt 2)]
    "hab_rank" = Some "HAB_RANK"
  /\ exists pre v post,
       [("Type", Py.JNull); ("HAB_RANK", Py.JInt 1); ("hab_rank", Py.JInt 2)]
       = pre ++ ("HAB_RANK", v) :: post
       /\ Py.lower "HAB_RANK" = Py.lower "hab_rank"
       /\ forall k', In k' (map fst pre) -> Py.lower k' <> Py.lower "hab_rank".
Proof.
  split; [reflexivity|].
  exact (find_returns_first_match
           [("Type", Py.JNull); ("HAB_RANK", Py.JInt 1); ("hab_rank", Py.JInt 2)] "hab_rank").
Defined.

(** *** Assigning to a key *)

Lemma getitem_setitem_eq key v d : getitem (setitem key v d) key = Some v.
Proof.
  induction d as [|[k v'] d IH]; cbn [setitem getitem].
  - rewrite bool_decide_eq_true_2 by reflexivity. reflexivity.
  - destruct (bool_decide (k = key)) eqn:E; cbn [getitem]; rewrite E; [reflexivity | exact IH].
Qed.

Lemma getitem_setitem_ne key key' v d :
  key' <> key -> getitem (setitem key v d) key' = getitem d key'.
Proof.
  intros N. induction d as [|[k v'] d IH]; cbn [setitem getitem].
  - rewrite bool_decide_eq_false_2 by congruence. reflexivity.
  - destruct (bool_decide (k = key)) eqn:E; cbn [getitem].
    + apply bool_decide_eq_true in E. subst k.
      rewrite !bool_decide_eq_false_2 by congruence. reflexivity.
    + destruct (bool_decide (k = key')); [reflexivity | exact IH].
Qed.

Lemma setitem_present key v d :
  In key (map fst d) -> map fst (setitem key v d) = map fst d.
Proof.
  induction d as [|[k v'] d IH]; intros H; [destruct H|]. cbn [setitem].
  destruct (bool_decide (k = key)) eqn:E; [reflexivity|].
  apply bool_decide_eq_false in E. destruct H as [H|H]; [simpl in H; congruence|].
  cbn [map fst]. rewrite (IH H). reflexivity.
Qed.

Lemma setitem_absent key v d :
  ~ In key (map fst d) -> setitem key v d = d ++ [(key, v)].
Proof.
  induction d as [|[k v'] d IH]; intros H; [reflexivity|]. cbn [setitem].
  rewrite bool_decide_eq_false_2 by (intros ->; apply H; left; reflexivity).
  rewrite IH by (intros Hin; apply H; right; exact Hin). reflexivity.
Qed.

Lemma loaded_keys p : map fst (loaded p) = map (fun e => Some (fst e)) p.
Proof. induction p as [|[k v] p IH]; [reflexivity|]. simpl. rewrite IH. reflexivity. Qed.

Lemma None_not_loaded p : ~ In None (map fst (loaded p)).
Proof. rewrite loaded_keys. intros H. apply in_map_iff in H as (e & E & _). discriminate E. Qed.

Lemma find_In {V} (d : list (string * V)) key k :
  find_case_insensitive_key d key = Some k -> In k (map fst d) /\ Py.lower k = Py.lower key.
Proof.
  induction d as [|[k0 v] d IH]; cbn [find_case_insensitive_key]; [discriminate|].
  destruct (String.eqb_spec (Py.lower k0) (Py.lower key)) as [E|N].
  - intros [= <-]. split; [left; reflexivity | exact E].
  - intros H. destruct (IH H). split; [right|]; assumption.
Qed.

Lemma found_key_loaded p key k :
  find_case_insensitive_key p key = Some k -> In (Some k) (map fst (loaded p)).
Proof.
  intros H. apply find_In in H as [H _]. rewrite loaded_keys.
  apply in_map_iff in H as (e & <- & He). apply in_map_iff. eauto.
Qed.

(** What [update_planet] does with two lines at hand. *)
Lemma update_planet_eq planet_name planet a b rest w :
  stdin w = a :: b :: rest ->
  exists lines,
    update_planet planet_name planet w =
    (mkWorld rest (stdout w ++ lines ++ [values_updated]) (saved w),
     Ok (let p1 := if String.eqb a "" then loaded planet
                   else setitem (find_case_insensitive_key planet "planet_length")
                          (Py.JStr a) (loaded planet) in
         if String.eqb b "" then p1
         else setitem (find_case_insensitive_key planet "hab_rank") (Py.JStr b) p1)).
Proof.
  intros H. destruct w as [i o sv]. simpl in H. subst i.
  unfold update_planet. io. cbn [stdin stdout saved].
  pose (shown :=
          [planet_header planet_name;
           current_planet_length
             (get planet (find_case_insensitive_key planet "planet_length")
                (Py.JStr "Unknown"));
           current_hab_rank
             (get planet (find_case_insensitive_key planet "hab_rank") (Py.JStr "Unknown"));
           prompt_planet_length; prompt_hab_rank]).
  destruct (String.eqb a ""), (String.eqb b ""); cbn [stdin stdout saved];
    [ exists shown
    | exists (shown ++ [hab_rank_updated planet_name b])
    | exists (shown ++ [planet_length_updated planet_name a])
    | exists (shown ++ [planet_length_updated planet_name a; hab_rank_updated planet_name b]) ];
    unfold shown; rewrite <- !app_assoc; reflexivity.
Qed.

Lemma keys_differ (planet : planet) k1 k2 :
  find_case_insensitive_key planet "planet_length" = Some k1 ->
  find_case_insensitive_key planet "hab_rank" = Some k2 ->
  k1 <> k2.
Proof.
  intros H1 H2 ->. apply find_In in H1 as [_ H1]. apply find_In in H2 as [_ H2].
  rewrite H1 in H2. vm_compute in H2. discriminate H2.
Qed.

(** *** One planet *)

(** X15: with two lines at hand [update_planet] reads both and raises
    nothing. A line that is not empty is stored, as text, under the key the
    planet has for that field (as the planet spells it); every other entry
    keeps its value, and when both fields have a key or an empty line no key
    is added or moved. Two empty lines leave the planet as it was, and
    "Values updated successfully." is printed all the same. *)
Theorem update_planet_replaces_in_place (planet_name : string) (planet : planet)
    (a b : string) (rest : list string) (w : World) :
  stdin w = a :: b :: rest ->
  exists w' p',
    update_planet planet_name planet w = (w', Ok p')
    /\ stdin w' = rest /\ saved w' = saved w
    /\ (exists lines, stdout w' = stdout w ++ lines ++ [values_updated])
    /\ (forall k, find_case_insensitive_key planet "planet_length" = Some k -> a <> "" ->
          getitem p' (Some k) = Some (Py.JStr a))
    /\ (forall k, find_case_insensitive_key planet "hab_rank" = Some k -> b <> "" ->
          getitem p' (Some k) = Some (Py.JStr b))
    /\ (forall k', Some k' <> find_case_insensitive_key planet "planet_length" ->
          Some k' <> find_case_insensitive_key planet "hab_rank" ->
          getitem p' (Some k') = getitem (loaded planet) (Some k'))
    /\ (is_Some (find_case_insensitive_key planet "planet_length") \/ a = "" ->
        is_Some (find_case_insensitive_key planet "hab_rank") \/ b = "" ->
        map fst p' = map fst (loaded planet))
    /\ (a = "" -> b = "" -> p' = loaded planet).
Proof.
  intros Hin. destruct (update_planet_eq planet_name planet a b rest w Hin) as [lines E].
  eexists _, _. split; [exact E|]. cbn [stdin saved stdout].
  split; [reflexivity|]. split; [reflexivity|]. split; [eauto|].
  split; [|split; [|split; [|split]]].
  - intros k Hk Ha. apply String.eqb_neq in Ha. rewrite Ha.
    destruct (String.eqb b "").
    + rewrite Hk. apply getitem_setitem_eq.
    + rewrite getitem_setitem_ne; [rewrite Hk; apply getitem_setitem_eq|].
      destruct (find_case_insensitive_key planet "hab_rank") as [k2|] eqn:H2; [|discriminate].
      intros [= ->]. exact (keys_differ _ _ _ Hk H2 eq_refl).
  - intros k Hk Hb. apply String.eqb_neq in Hb. rewrite Hb, Hk. apply getitem_setitem_eq.
  - intros k' N1 N2.
    destruct (String.eqb b ""); [|rewrite getitem_setitem_ne by exact N2];
      (destruct (String.eqb a ""); [|rewrite getitem_setitem_ne by exact N1]); reflexivity.
  - intros H1 H2.
    assert (P1 : map fst (if String.eqb a "" then loaded planet
                          else setitem (find_case_insensitive_key planet "planet_length")
                                 (Py.JStr a) (loaded planet))
                 = map fst (loaded planet)).
    { destruct (String.eqb_spec a "") as [Ea|Na]; [reflexivity|].
      destruct H1 as [[k Hk]|Ha]; [|contradiction].
      rewrite Hk. apply setitem_present. eapply found_key_loaded, Hk. }
    destruct (String.eqb_spec b "") as [Eb|Nb]; [exact P1|].
    destruct H2 as [[k Hk]|Hb]; [|contradiction].
    rewrite Hk, setitem_present; [exact P1|].
    pose proof (found_key_loaded _ _ _ Hk) as Hl. rewrite <- P1 in Hl. exact Hl.
  - intros -> ->. reflexivity.
Qed.

Lemma update_planet_replaces_in_place_witness :
  exists w' p',
    update_planet "Earth"
      [("Type", Py.JStr "Rock"); ("Planet_Length", Py.JInt 24); ("hab_rank", Py.JStr "1")]
      (mkWorld ["30 hours"; ""; "x"] [] None) = (w', Ok p')
    /\ stdin w' = ["x"]
    /\ ("30 hours" <> "" /\ getitem p' (Some "Planet_Length") = Some (Py.JStr "30 hours"))
    /\ getitem p' (Some "hab_rank") = Some (Py.JStr "1")
    /\ map fst p' = [Some "Type"; Some "Planet_Length"; Some "hab_rank"].
Proof.
  destruct (update_planet_replaces_in_place "Earth"
              [("Type", Py.JStr "Rock"); ("Planet_Length", Py.JInt 24); ("hab_rank", Py.JStr "1")]
              "30 hours" "" ["x"] (mkWorld ["30 hours"; ""; "x"] [] None) eq_refl)
    as (w' & p' & E & Hi & _ & _ & Hlen & _ & _ & Hkeys & _).
  exists w', p'. split; [exact E|]. split; [exact Hi|].
  split; [split; [discriminate | apply Hlen; [reflexivity | discriminate]]|].
  vm_compute in E. injection E as _ <-. split; [reflexivity|].
  apply Hkeys; [left; eexists; reflexivity | right; reflexivity].
Defined.

(** X16: a field for which the planet has no key is stored under the key
    [None], after the entries of the planet, which stay as they were. When
    the planet has neither key and both lines are given, there is one such
    entry and it holds the habitability rank: the planet length that was
    typed is lost. *)
Theorem update_planet_missing_key (planet_name : string) (planet : planet)
    (a b : string) (rest : list string) (w : World) :
  stdin w = a :: b :: rest ->
  find_case_insensitive_key planet "planet_length" = None ->
  a <> "" ->
  exists w' p',
    update_planet planet_name planet w = (w', Ok p')
    /\ (b = "" -> p' = loaded planet ++ [(None, Py.JStr a)])
    /\ (forall k, find_case_insensitive_key planet "hab_rank" = Some k -> b <> "" ->
          getitem p' None = Some (Py.JStr a)
          /\ getitem p' (Some k) = Some (Py.JStr b)
          /\ map fst p' = map fst (loaded planet) ++ [None])
    /\ (find_case_insensitive_key planet "hab_rank" = None -> b <> "" ->
        p' = loaded planet ++ [(None, Py.JStr b)]).
Proof.
  intros Hin Hlen Ha. destruct (update_planet_eq planet_name planet a b rest w Hin) as [lines E].
  eexists _, _. split; [exact E|]. clear E.
  apply String.eqb_neq in Ha. rewrite Ha, Hlen.
  rewrite (setitem_absent None _ _ (None_not_loaded planet)).
  split; [|split].
  - intros ->. reflexivity.
  - intros k Hk Hb. apply String.eqb_neq in Hb. rewrite Hb, Hk.
    split; [|split].
    + rewrite getitem_setitem_ne by discriminate.
      rewrite <- (setitem_absent None _ _ (None_not_loaded planet)).
      apply getitem_setitem_eq.
    + apply getitem_setitem_eq.
    + rewrite setitem_present; [apply map_app|].
      rewrite map_app. apply in_or_app. left. eapply found_key_loaded, Hk.
  - intros Hk Hb. apply String.eqb_neq in Hb. rewrite Hb, Hk.
    rewrite <- (setitem_absent None (Py.JStr a) _ (None_not_loaded planet)).
    assert (G : forall d v1 v2, ~ In None (map fst d) ->
              setitem None v2 (setitem None v1 d) = d ++ [(None, v2)]).
    { intros d v1 v2. induction d as [|[k v] d IH]; intros H.
      - cbn [setitem]. rewrite bool_decide_eq_true_2 by reflexivity. reflexivity.
      - cbn [setitem]. rewrite bool_decide_eq_false_2 by (intros ->; apply H; left; reflexivity).
        cbn [setitem]. rewrite bool_decide_eq_false_2 by (intros ->; apply H; left; reflexivity).
        rewrite IH by (intros Hn; apply H; right; exact Hn). reflexivity. }
    apply G, None_not_loaded.
Qed.

Lemma update_planet_missing_key_witness :
  (find_case_insensitive_key [("Type", Py.JStr "Rock")] "planet_length" = None
   /\ find_case_insensitive_key [("Type", Py.JStr "Rock")] "hab_rank" = None
   /\ "30 hours" <> "" /\ "2" <> "")
  /\ exists w' p',
       update_planet "Earth" [("Type", Py.JStr "Rock")] (mkWorld ["30 hours"; "2"] [] None)
       = (w', Ok p')
       /\ p' = [(Some "Type", Py.JStr "Rock"); (None, Py.JStr "2")].
Proof.
  split; [repeat split; discriminate|].
  destruct (update_planet_missing_key "Earth" [("Type", Py.JStr "Rock")] "30 hours" "2" []
              (mkWorld ["30 hours"; "2"] [] None) eq_refl eq_refl)
    as (w' & p' & E & _ & _ & Hboth); [discriminate|].
  exists w', p'. split; [exact E|]. apply Hboth; [reflexivity | discriminate].
Defined.

(** *** A system, and the run *)

Lemma bind_inv {A B} (m : IO A) (f : A -> IO B) w w' r :
  (m ≫= f) w = (w', r) ->
  (exists e, m w = (w', Raise e) /\ r = Raise e)
  \/ exists a w1, m w = (w1, Ok a) /\ f a w1 = (w', r).
Proof.
  unfold mbind, IO_bind. destruct (m w) as [w1 [a|e]]; [eauto|].
  intros [= <- <-]. left. eauto.
Qed.

(** One planet reads two lines or stops at the end of the input; it never
    saves. *)
Lemma update_planet_inv planet_name planet w w' r :
  update_planet planet_name planet w = (w', r) ->
  saved w' = saved w
  /\ match r with
     | Ok _ => exists a b, stdin w = a :: b :: stdin w'
     | Raise _ => (length (stdin w) < 2)%nat
     end.
Proof.
  destruct (stdin w) as [|a [|b rest]] eqn:Hin.
  - destruct w as [i o sv]. simpl in Hin. subst i. unfold update_planet. io.
    cbn [stdin stdout saved]. intros [= <- <-]. simpl. split; [reflexivity | lia].
  - destruct w as [i o sv]. simpl in Hin. subst i. unfold update_planet. io.
    cbn [stdin stdout saved]. intros [= <- <-]. simpl. split; [reflexivity | lia].
  - destruct (update_planet_eq planet_name planet a b rest w Hin) as [lines E].
    rewrite E. intros [= <- <-]. simpl. eauto.
Qed.

Lemma update_planets_inv s w w' r :
  update_planets s w = (w', r) ->
  saved w' = saved w
  /\ match r with
     | Ok s' =>
         map fst s' = map fst s
         /\ (2 * length s <= length (stdin w))%nat
         /\ stdin w' = drop (2 * length s) (stdin w)
     | Raise _ => (length (stdin w) < 2 * length s)%nat
     end.
Proof.
  revert w w' r. induction s as [|[planet_key planet] s IH]; intros w w' r.
  - intros [= <- <-]. simpl. repeat split. lia.
  - cbn [update_planets]. intros H.
    apply bind_inv in H as [(e & H & ->)|(p' & w1 & H1 & H)].
    { apply update_planet_inv in H as [Hs Hl]. split; [exact Hs|]. simpl. lia. }
    apply update_planet_inv in H1 as [Hs1 (a & b & Hin)].
    apply bind_inv in H as [(e & H & ->)|(s' & w2 & H2 & H)].
    { apply IH in H as [Hs Hl]. split; [congruence|]. rewrite Hin. simpl in *. lia. }
    apply IH in H2 as [Hs2 (Hk & Hlen & Hdrop)]. injection H as <- <-.
    split; [congruence|]. rewrite Hin. cbn [map fst length]. rewrite Hk.
    split; [reflexivity|]. split; [simpl; lia|].
    replace (2 * S (length s))%nat with (S (S (2 * length s))) by lia.
    cbn [drop]. exact Hdrop.
Qed.

Lemma loaded_data_keys d : map fst (loaded_data d) = map fst d.
Proof. induction d as [|[k s] d IH]; [reflexivity|]. simpl. rewrite IH. reflexivity. Qed.

Lemma loaded_system_keys s : map fst (loaded_system s) = map fst s.
Proof. induction s as [|[k p] s IH]; [reflexivity|]. simpl. rewrite IH. reflexivity. Qed.

(** The systems stand where they stood; only the first entry under the key
    is gone through. *)
Lemma update_entry_inv system_key d w w' r :
  update_entry system_key d w = (w', r) ->
  saved w' = saved w
  /\ match r with
     | Ok d' =>
         Forall2 (fun e e' =>
                    fst e' = fst e /\ map fst (snd e') = map fst (snd e)
                    /\ (fst e <> system_key -> snd e' = loaded_system (snd e))) d d'
         /\ match List.find (fun e => String.eqb (fst e) system_key) d with
            | Some (_, s) =>
                (2 * length s <= length (stdin w))%nat
                /\ stdin w' = drop (2 * length s) (stdin w)
            | None => stdin w' = stdin w
            end
     | Raise _ =>
         match List.find (fun e => String.eqb (fst e) system_key) d with
         | Some (_, s) => (length (stdin w) < 2 * length s)%nat
         | None => False
         end
     end.
Proof.
  revert w w' r. induction d as [|[k s] d IH]; intros w w' r.
  - intros [= <- <-]. simpl. repeat split. constructor.
  - cbn [update_entry List.find fst]. destruct (String.eqb_spec k system_key) as [->|N].
    + intros H. apply bind_inv in H as [(e & H & ->)|(s' & w1 & H1 & H)].
      { apply update_planets_inv in H. exact H. }
      apply update_planets_inv in H1 as [Hs (Hk & Hlen & Hdrop)]. injection H as <- <-.
      split; [exact Hs|]. split; [|auto].
      constructor; [cbn [fst snd]; split; [reflexivity|]; split; [exact Hk | congruence]|].
      clear. induction d as [|[k' s'] d IH]; constructor; [|exact IH].
      cbn [fst snd]. split; [reflexivity|]. split; [apply loaded_system_keys | reflexivity].
    + intros H. apply bind_inv in H as [(e & H & ->)|(d' & w1 & H1 & H)].
      { apply IH in H. exact H. }
      apply IH in H1 as [Hs (Hf & Hin)]. injection H as <- <-.
      split; [exact Hs|]. split; [|exact Hin].
      constructor; [|exact Hf]. cbn [fst snd].
      split; [reflexivity|]. split; [apply loaded_system_keys | reflexivity].
Qed.

(** X17: [update_system] changes one system at most: every system keeps its
    name and its place and every planet its name and its place, and the
    planets of a system that is not under the key found for the name typed
    are as they were loaded. When no system has the name, letter case aside,
    it prints "System not found in the data.", reads nothing and changes
    nothing. *)
Theorem update_system_touches_one_system (d : data) (system_name : string)
    (w w' : World) (d' : data') :
  update_system d system_name w = (w', Ok d') ->
  Forall2 (fun e e' =>
             fst e' = fst e /\ map fst (snd e') = map fst (snd e)
             /\ (Some (fst e) <> find_case_insensitive_key d system_name ->
                 snd e' = loaded_system (snd e))) d d'
  /\ saved w' = saved w
  /\ (find_case_insensitive_key d system_name = None ->
      d' = loaded_data d /\ stdin w' = stdin w
      /\ stdout w' = stdout w ++ [system_not_found]).
Proof.
  unfold update_system. destruct (find_case_insensitive_key d system_name) as [key|].
  - intros H. apply update_entry_inv in H as [Hs [Hf _]].
    split; [|split; [exact Hs | discriminate]].
    eapply Forall2_impl; [exact Hf|]. intros e e' (H1 & H2 & H3).
    split; [exact H1|]. split; [exact H2|]. intros N. apply H3. congruence.
  - io. intros [= <- <-]. cbn [stdin stdout saved].
    split; [|auto]. clear. induction d as [|[k s] d IH]; constructor; [|exact IH].
    cbn [fst snd]. split; [reflexivity|]. split; [apply loaded_system_keys | reflexivity].
Qed.

Lemma update_system_touches_one_system_witness :
  exists w' d',
    update_system
      [("Sol", [("Earth", [("hab_rank", Py.JStr "1")])]);
       ("Alpha", [("Gagarin", [("hab_rank", Py.JStr "3")])])]
      "alpha" (mkWorld [""; "2"] [] None) = (w', Ok d')
    /\ d' = [("Sol", [("Earth", [(Some "hab_rank", Py.JStr "1")])]);
             ("Alpha", [("Gagarin", [(Some "hab_rank", Py.JStr "2")])])]
    /\ saved w' = None.
Proof.
  eexists _, _. split; [vm_compute; reflexivity|]. split; [reflexivity|].
  refine (proj1 (proj2 (update_system_touches_one_system
            [("Sol", [("Earth", [("hab_rank", Py.JStr "1")])]);
             ("Alpha", [("Gagarin", [("hab_rank", Py.JStr "3")])])]
            "alpha" (mkWorld [""; "2"] [] None) _ _ _))).
  vm_compute. reflexivity.
Defined.

Lemma find_entry {V} (d : list (string * V)) system_name key :
  find_case_insensitive_key d system_name = Some key ->
  exists s, List.find (fun e => String.eqb (fst e) key) d = Some (key, s).
Proof.
  induction d as [|[k s] d IH]; cbn [find_case_insensitive_key List.find fst]; [discriminate|].
  destruct (String.eqb (Py.lower k) (Py.lower system_name)).
  - intros [= ->]. rewrite String.eqb_refl. eauto.
  - intros H. destruct (String.eqb_spec k key) as [->|N]; [eauto | apply IH, H].
Qed.

(** X18: [main] saves the data once, at its end, and only if every line it
    asks for could be read: the system name and two lines for each planet of
    the system the name finds. Then the lines it has read are gone from the
    input and the data saved has the systems of the data loaded, by name
    and place. When the input ends earlier it raises [EOFError] and nothing
    has been saved, whatever was typed before. *)
Theorem main_saves_at_the_end_or_never (d : data) (w w' : World) (r : result unit) :
  main d w = (w', r) ->
  match r with
  | Ok _ =>
      exists system_name rest d',
        stdin w = system_name :: rest
        /\ (lines_needed d system_name <= length (stdin w))%nat
        /\ stdin w' = drop (lines_needed d system_name) (stdin w)
        /\ saved w' = Some d'
        /\ map fst d' = map fst d
  | Raise _ =>
      saved w' = saved w
      /\ (stdin w = []
          \/ exists system_name rest,
               stdin w = system_name :: rest
               /\ (length (stdin w) < lines_needed d system_name)%nat)
  end.
Proof.
  unfold main. intros H.
  apply bind_inv in H as [(e & H & ->)|(system_name & w1 & H1 & H)].
  { unfold input in H. destruct (stdin w); [|discriminate H].
    injection H as <-. split; [reflexivity | left; reflexivity]. }
  unfold input in H1. destruct (stdin w) as [|l rest] eqn:Hin; [discriminate H1|].
  injection H1 as <- <-.
  apply bind_inv in H as [(e & H & ->)|(d' & w2 & H2 & H)].
  - split.
    + unfold update_system in H.
      destruct (find_case_insensitive_key d l) as [key|]; [|discriminate H].
      apply update_entry_inv in H as [Hs _]. exact Hs.
    + right. exists l, rest. split; [reflexivity|].
      unfold update_system, lines_needed in *.
      destruct (find_case_insensitive_key d l) as [key|] eqn:F; [|discriminate H].
      apply update_entry_inv in H as [_ Hl]. destruct (find_entry d l key F) as [s Fs].
      rewrite Fs in *. cbn [stdin length] in *. lia.
  - unfold save_data in H. injection H as <- <-. cbn [stdin saved].
    exists l, rest, d'. split; [reflexivity|].
    unfold update_system, lines_needed in *.
    destruct (find_case_insensitive_key d l) as [key|] eqn:F.
    + apply update_entry_inv in H2 as [_ [Hf Hl]]. destruct (find_entry d l key F) as [s Fs].
      rewrite Fs in *. cbn [stdin length] in *. destruct Hl as [Hlen Hdrop].
      split; [lia|]. split; [exact Hdrop|]. split; [reflexivity|].
      clear -Hf. induction Hf as [|e e' d0 d0' (He & _) _ IH]; [reflexivity|].
      cbn [map]. f_equal; [exact He | exact IH].
    + unfold mbind, IO_bind, print, mret, IO_ret in H2. injection H2 as <- <-.
      cbn [stdin length]. split; [lia|]. split; [reflexivity|]. split; [reflexivity|].
      apply loaded_data_keys.
Qed.

Lemma main_saves_at_the_end_or_never_witness :
  exists w',
    main [("Sol", [("Earth", [("hab_rank", Py.JStr "1")]); ("Mars", [])])]
      (mkWorld ["sol"; "30 hours"; "2"; ""] [] None) = (w', Raise EOFError)
    /\ saved w' = None
    /\ (["sol"; "30 hours"; "2"; ""] = []
        \/ exists system_name rest,
             ["sol"; "30 hours"; "2"; ""] = system_name :: rest
             /\ (length ["sol"; "30 hours"; "2"; ""]
                 < lines_needed [("Sol", [("Earth", [("hab_rank", Py.JStr "1")]); ("Mars", [])])]
                     system_name)%nat).
Proof.
  set (d := [("Sol", [("Earth", [("hab_rank", Py.JStr "1")]); ("Mars", [])])]).
  set (w := mkWorld ["sol"; "30 hours"; "2"; ""] [] None).
  let w' := eval vm_compute in (fst (main d w)) in
  assert (E : main d w = (w', Raise EOFError)) by (vm_compute; reflexivity);
  exists w'.
  split; [exact E|].
  exact (main_saves_at_the_end_or_never d w _ (Raise EOFError) E).
Defined.

(** *** From the editor to the normalizer *)



End PlanetSearchUpdateSpec.

(** ** A whole load *)

Module CreateDbWhole.
Import Py CreateDb CreateDbSpec.

Lemma existsb_resource (name : string) (rows : list Resource.t) :
  existsb (fun r => String.eqb (Resource.resource r) name) rows = false
  <-> ~ In name (map Resource.resource rows).
Proof.
  induction rows as [|r rows IH]; [simpl; tauto|]. cbn [existsb map In].
  rewrite orb_false_iff, IH, String.eqb_neq. tauto.
Qed.

Lemma insert_resources_loop_ok schema data m w :
  keyed_resources schema ->
  List.NoDup (map Resource.resource data) ->
  (forall x, In x (map Resource.resource data) ->
     ~ In x (map Resource.resource (resources (con w)))) ->
  insert_resources_loop schema data m w
  = (mkWorld (sf_db w)
       (mkStore (resources (con w) ++ data) (systems (con w)) (bodies (con w))
          (traits (con w)) (body_resources (con w)) (body_organics (con w))
          (biomes (con w)))
       (stdout w),
     Ok (shortname_map_from m data)).
Proof.
  intros Hk. revert m w. induction data as [|res data IH]; intros m w Hnd Hnew.
  - cbn [insert_resources_loop]. rewrite app_nil_r, <- store_eta. destruct w; reflexivity.
  - cbn [insert_resources_loop]. unfold mbind at 1, M_bind at 1.
    unfold insert_resource. unfold mbind at 1, M_bind at 1. rewrite execute_eq.
    rewrite Hk by (apply existsb_resource, Hnew; left; reflexivity).
    unfold mret, M_ret. cbn [map] in Hnd. apply List.NoDup_cons_iff in Hnd as [Hres Hnd].
    rewrite IH; [| exact Hnd |].
    + cbn [con sf_db stdout add_resource resources systems bodies traits body_resources
           body_organics biomes]. rewrite <- app_assoc. reflexivity.
    + intros x Hx. cbn [con add_resource resources]. rewrite map_app, in_app_iff.
      intros [H|[<-|[]]]; [apply (Hnew x); [right; exact Hx | exact H] | exact (Hres Hx)].
Qed.

(** X20: with a schema that has only the keys of the specification (a
    resource by its full name, a system by its name, a body by its system
    and name, child tables that take any row), a catalog whose full names
    are all different and whose values bind, and a galaxy whose integers fit
    in 64 bits and whose references are all keys of the map, [main] runs to
    its end with status 0: the file holds the catalog, one row per system
    with its number of bodies, one row per body key and the child rows of
    every body, nothing is left uncommitted, and the only lines printed are
    those of the bodies whose key came earlier. *)
Theorem whole_load_succeeds (schema : Schema) (catalog : list Resource.t)
    (galaxy : list Body.t) (w : World) :
  keyed_resources schema ->
  keyed_bodies schema ->
  accepts_children schema ->
  List.NoDup (map Resource.resource catalog) ->
  (forall r, In r catalog -> binds_resource r = true) ->
  (forall body, In body galaxy -> binds_body body = true) ->
  (forall body, In body galaxy -> resolves (shortname_map_of catalog) body) ->
  exists w',
    main schema catalog galaxy w = (w', Ok tt)
    /\ exit_status (snd (main schema catalog galaxy w)) = 0
    /\ sf_db w' = Some (con w')
    /\ resources (con w') = catalog
    /\ systems (con w') = Counter (map Body.system galaxy)
    /\ (forall body, In body galaxy ->
          length (List.filter (same_key (Body.system body) (Body.name body))
                    (bodies (con w'))) = 1%nat)
    /\ with_children (shortname_map_of catalog) galaxy empty_store (con w')
    /\ stdout w' = stdout w ++ map (fun body => bad_data (row_of body)) (duplicates [] galaxy).
Proof.
  intros Hkr Hkb Ha Hnd _ _ Hres.
  assert (E : exists w',
            main schema catalog galaxy w = (w', Ok tt)
            /\ sf_db w' = Some (con w')
            /\ resources (con w') = catalog
            /\ systems (con w') = Counter (map Body.system galaxy)
            /\ (forall body, In body galaxy ->
                  length (List.filter (same_key (Body.system body) (Body.name body))
                            (bodies (con w'))) = 1%nat)
            /\ with_children (shortname_map_of catalog) galaxy empty_store (con w')
            /\ stdout w' = stdout w
                 ++ map (fun body => bad_data (row_of body)) (duplicates [] galaxy)).
  { unfold main.
    unfold mbind at 1, M_bind at 1, connect_to_db, modify.
    unfold mbind at 1, M_bind at 1, install_schema, commit, modify. cbn [con sf_db stdout].
    unfold mbind at 1, M_bind at 1. unfold insert_resources.
    unfold mbind at 1, M_bind at 1.
    rewrite (insert_resources_loop_ok schema catalog ∅ _ Hkr Hnd) by (intros x _ []).
    unfold mbind at 1, M_bind at 1, commit, modify, mret, M_ret.
    cbn [con sf_db stdout resources systems bodies traits body_resources body_organics
         biomes empty_store app].
    unfold insert_galaxy. unfold mbind at 1, M_bind at 1.
    match goal with |- context [insert_systems schema galaxy ?w1] =>
      destruct (insert_systems_ok schema Hkb galaxy w1 eq_refl) as (w0 & E0 & S0 & O0 & C0)
    end.
    rewrite E0. cbn [con sf_db stdout resources systems bodies traits body_resources
                     body_organics biomes] in C0, O0.
    destruct (insert_bodies_keyed schema (shortname_map_of catalog) Hkb Ha galaxy w0 [] Hres)
      as (w' & Eb & Hout & Hc & Hch & Hdb).
    - intros body Hin. rewrite C0. cbn [systems].
      apply (proj2 (Counter_names (map Body.system galaxy))), in_map, Hin.
    - intros s n. rewrite C0. reflexivity.
    - exists w'. split; [exact Eb|].
      pose proof (insert_bodies_inv _ _ _ _ _ _ Eb) as (Hs & _ & Hsy & _).
      assert (Hr : resources (con w') = resources (con w0)).
      { clear -Eb. unfold insert_bodies in Eb. revert w0 Eb.
        induction galaxy as [|b g IH]; intros w0 Eb.
        - injection Eb as <-. reflexivity.
        - cbn [for_each] in Eb. unfold mbind, M_bind in Eb.
          destruct (insert_body schema (shortname_map_of catalog) b w0) as [w1 [[]|e]] eqn:E1;
            [|discriminate Eb].
          rewrite (IH _ Eb). apply insert_body_inv in E1 as (_ & _ & wr & Er & C & _).
          rewrite C. cbn [add_children resources].
          apply insert_body_row_world in Er as (_ & _ & [->| ->]); reflexivity. }
      split; [destruct Hs as [[_ ->]|[_ Hs]]; [exact S0 | exact Hs]|].
      split; [rewrite Hr, C0; reflexivity|].
      split; [rewrite Hsy, C0; reflexivity|].
      split.
      { intros body Hin. rewrite Hc. rewrite bool_decide_eq_true_2; [reflexivity|].
        apply list_elem_of_In. change (Body.system body, Body.name body) with (Body.key body).
        apply (in_map Body.key), Hin. }
      split; [|rewrite Hout, O0; reflexivity].
      destruct Hch as (T & R & O & B). rewrite C0 in T, R, O, B.
      unfold with_children. auto. }
  destruct E as (w' & E & H). exists w'. rewrite E. split; [reflexivity|].
  split; [reflexivity | exact H].
Qed.

Lemma spec_schema_keyed_resources : keyed_resources spec_schema.
Proof. intros row st H. simpl. rewrite H. reflexivity. Qed.

Lemma whole_load_succeeds_witness :
  exists w',
    main spec_schema [iron] [earth; with_system "Alpha" earth; earth] fresh = (w', Ok tt)
    /\ exit_status (snd (main spec_schema [iron] [earth; with_system "Alpha" earth; earth]
                           fresh)) = 0
    /\ sf_db w' = Some (con w')
    /\ resources (con w') = [iron]
    /\ systems (con w') = [("Sol", 2%nat); ("Alpha", 1%nat)]
    /\ stdout w' = [bad_data (row_of earth)].
Proof.
  destruct (whole_load_succeeds spec_schema [iron] [earth; with_system "Alpha" earth; earth]
              fresh spec_schema_keyed_resources spec_schema_keyed spec_schema_accepts)
    as (w' & E & Hx & Hs & Hr & Hsy & _ & _ & Ho).
  - repeat constructor. intros [].
  - intros r [<-|[]]. reflexivity.
  - intros body [<-|[<-|[<-|[]]]]; reflexivity.
  - intros body [<-|[<-|[<-|[]]]] resource [<-|[]]; vm_compute; eauto.
  - exists w'. split; [exact E|]. split; [exact Hx|]. split; [exact Hs|].
    split; [exact Hr|]. split; [exact Hsy | exact Ho].
Defined.

End CreateDbWhole.
